(** * Calendar visualizer: event resolution and grid layout

    Shallow embedding of [main.py]: the status-matrix pipeline of [main]
    (window filter, association of events with resolver targets, per-employee
    date lists, [processed_data]) and the header layout of [generate_excel]
    (business days, month/week grouping, merged header spans). *)

From Stdlib Require Import ZArith Lia String Ascii List.
From stdpp Require Import base numbers option list sorting gmap strings pretty fin_maps.

Local Open Scope Z_scope.
Set Warnings "-register-all".

(** ** [datetime.date]

    A [date] is represented by its proleptic Gregorian ordinal
    ([date.toordinal()], 0001-01-01 is day 1).  Comparison of dates is
    comparison of ordinals, [d + timedelta(days=i)] is [d + i] and
    [(e - d).days] is [e - d].  The calendar fields used by [strftime] are
    recovered with the library's own [_ord2ymd]. *)
Module datetime.

Definition _DAYS_IN_MONTH : list Z :=
  [-1; 31; 28; 31; 30; 31; 30; 31; 31; 30; 31; 30; 31].

Definition _DAYS_BEFORE_MONTH : list Z :=
  [-1; 0; 31; 59; 90; 120; 151; 181; 212; 243; 273; 304; 334].

Definition _is_leap (year : Z) : bool :=
  (year mod 4 =? 0) && (negb (year mod 100 =? 0) || (year mod 400 =? 0)).

Definition _days_before_year (year : Z) : Z :=
  let y := year - 1 in y * 365 + y / 4 - y / 100 + y / 400.

Definition _days_in_month (year month : Z) : Z :=
  if (month =? 2) && _is_leap year then 29
  else nth (Z.to_nat month) _DAYS_IN_MONTH (-1).

Definition _days_before_month (year month : Z) : Z :=
  nth (Z.to_nat month) _DAYS_BEFORE_MONTH (-1)
  + (if (month >? 2) && _is_leap year then 1 else 0).

Definition _ymd2ord (year month day : Z) : Z :=
  _days_before_year year + _days_before_month year month + day.

Definition _DI400Y : Z := 146097.
Definition _DI100Y : Z := 36524.
Definition _DI4Y : Z := 1461.

Definition _ord2ymd (n : Z) : Z * Z * Z :=
  let n := n - 1 in
  let n400 := n / _DI400Y in
  let n := n mod _DI400Y in
  let year := n400 * 400 + 1 in
  let n100 := n / _DI100Y in
  let n := n mod _DI100Y in
  let n4 := n / _DI4Y in
  let n := n mod _DI4Y in
  let n1 := n / 365 in
  let n := n mod 365 in
  let year := year + n100 * 100 + n4 * 4 + n1 in
  if (n1 =? 4) || (n100 =? 4) then (year - 1, 12, 31)
  else
    let leapyear := (n1 =? 3) && (negb (n4 =? 24) || (n100 =? 3)) in
    let month := Z.shiftr (n + 50) 5 in
    let preceding :=
      nth (Z.to_nat month) _DAYS_BEFORE_MONTH (-1)
      + (if (month >? 2) && leapyear then 1 else 0) in
    if preceding >? n then
      let month := month - 1 in
      let preceding :=
        preceding - (nth (Z.to_nat month) _DAYS_IN_MONTH (-1)
                     + (if (month =? 2) && leapyear then 1 else 0)) in
      (year, month, n - preceding + 1)
    else (year, month, n - preceding + 1).

Definition year (d : Z) : Z := (_ord2ymd d).1.1.
Definition month (d : Z) : Z := (_ord2ymd d).1.2.
Definition day (d : Z) : Z := (_ord2ymd d).2.

(** [date.weekday()]: Monday is 0. *)
Definition weekday (d : Z) : Z := (d + 6) mod 7.

(** [date.timetuple().tm_yday]: 1 for January 1st. *)
Definition yday (d : Z) : Z := _days_before_month (year d) (month d) + day d.

(** [date.replace(day=1)]. *)
Definition replace_day1 (d : Z) : Z := _ymd2ord (year d) (month d) 1.

End datetime.

(** [date(year, month, day)]. *)
Definition date (year month day : Z) : Z := datetime._ymd2ord year month day.

(** ** The roster *)

(** An entry of [employees.json]: name, location and nested reports. *)
Inductive person : Type :=
  Person (name location : string) (reports : list person).

(** A flattened employee.  The keys ['PTO'], ['Travel'] and ['Holiday'] are
    added by step 7 of [main], which sets them to the empty list before
    anything reads them. *)
Module Employee.
Record t : Type := mk {
  name : string;
  location : string;
  PTO : list Z;
  Travel : list Z;
  Holiday : list Z
}.
End Employee.

Fixpoint flatten_person (p : person) : list Employee.t :=
  match p with
  | Person name location reports =>
      Employee.mk name location [] [] [] :: flat_map flatten_person reports
  end.

Definition flatten_employees (employees : list person) : list Employee.t :=
  flat_map flatten_person employees.

(** ** Calendar events *)

(** An event as built by [load_calendar_events], with the ['employee'] key
    that step 6 of [main] sets on every event in range (its value before
    step 6 is never read). *)
Module Event.
Record t : Type := mk {
  name : string;
  start_date : Z;
  end_date : Z;
  type : string;
  employee : list string
}.
End Event.

(** [load_calendar_events(url, event_type)] on the entries of a feed, given
    as [(name, begin, end)]: the entries without a name are skipped, the
    others are tagged with the type of the feed. *)
Definition load_calendar_events (feed : list (string * Z * Z)) (event_type : string)
  : list Event.t :=
  (λ e, Event.mk e.1.1 e.1.2 e.2 event_type [])
    <$> List.filter (λ e, negb (String.eqb e.1.1 EmptyString)) feed.

(** ** Steps 4 to 8 of [main] *)

(** Step 4: the window filter. *)
Definition in_window (start_date end_date : Z) (event : Event.t) : bool :=
  (Event.start_date event <? end_date) && (Event.end_date event >? start_date).

Definition events_in_range (all_events : list Event.t) (start_date end_date : Z)
  : list Event.t :=
  List.filter (in_window start_date end_date) all_events.

(** Step 6: one iteration of the association loop, on the pair of the events
    already treated and [unmatched_event_names]. *)
Definition associate_event (event_to_employee_map : gmap string (list string))
    (st : list Event.t * gset string) (event : Event.t) : list Event.t * gset string :=
  let set_employee l :=
    Event.mk (Event.name event) (Event.start_date event) (Event.end_date event)
             (Event.type event) l in
  match event_to_employee_map !! Event.name event with
  | Some mapped_employees => (st.1 ++ [set_employee mapped_employees], st.2)
  | None => (st.1 ++ [set_employee []], {[Event.name event]} ∪ st.2)
  end.

Definition associate (event_to_employee_map : gmap string (list string))
    (events : list Event.t) : list Event.t * gset string :=
  foldl (associate_event event_to_employee_map) ([], ∅) events.

(** Step 7. *)
Definition reset_lists (emp : Employee.t) : Employee.t :=
  Employee.mk (Employee.name emp) (Employee.location emp) [] [] [].

Definition extend_PTO (event_dates : list Z) (emp : Employee.t) : Employee.t :=
  Employee.mk (Employee.name emp) (Employee.location emp)
    (Employee.PTO emp ++ event_dates) (Employee.Travel emp) (Employee.Holiday emp).

Definition extend_Travel (event_dates : list Z) (emp : Employee.t) : Employee.t :=
  Employee.mk (Employee.name emp) (Employee.location emp)
    (Employee.PTO emp) (Employee.Travel emp ++ event_dates) (Employee.Holiday emp).

Definition extend_Holiday (event_dates : list Z) (emp : Employee.t) : Employee.t :=
  Employee.mk (Employee.name emp) (Employee.location emp)
    (Employee.PTO emp) (Employee.Travel emp) (Employee.Holiday emp ++ event_dates).

(** [employee_map = {emp['name']: emp for emp in employees}].  The values
    are the objects of [employees] themselves, so the map is kept as name to
    position in [employees]; a later employee of the same name replaces an
    earlier one. *)
Definition employee_map (employees : list Employee.t) : gmap string nat :=
  foldl (λ m p, <[Employee.name p.2 := p.1]> m) ∅
        (zip (seq 0 (length employees)) employees).

(** [[start + timedelta(days=i) for i in range((end - start).days)]]. *)
Definition event_dates (event : Event.t) : list Z :=
  (λ i, Event.start_date event + i)
    <$> seqZ 0 (Event.end_date event - Event.start_date event).

(** The body of [for name_or_tag in event['employee']]. *)
Definition apply_target (emap : gmap string nat) (event : Event.t)
    (employees : list Employee.t) (name_or_tag : string) : list Employee.t :=
  if decide (name_or_tag = "_HOLIDAY_US") then
    (λ emp, if decide (Employee.location emp = "US")
            then extend_Holiday (event_dates event) emp else emp) <$> employees
  else if decide (name_or_tag = "_HOLIDAY_FRANCE") then
    (λ emp, if decide (Employee.location emp = "France")
            then extend_Holiday (event_dates event) emp else emp) <$> employees
  else if decide (name_or_tag = "_HOLIDAY_COMPANY") then
    extend_Holiday (event_dates event) <$> employees
  else
    match emap !! name_or_tag with
    | Some i =>
        if decide (Event.type event = "P") then
          alter (extend_PTO (event_dates event)) i employees
        else if decide (Event.type event = "T") then
          alter (extend_Travel (event_dates event)) i employees
        else employees
    | None => employees
    end.

(** The body of [for event in events_in_range] of step 7. *)
Definition process_event (emap : gmap string nat) (employees : list Employee.t)
    (event : Event.t) : list Employee.t :=
  match Event.employee event with
  | [] => employees
  | _ => foldl (apply_target emap event) employees (Event.employee event)
  end.

Definition populate_lists (employees : list Employee.t) (events : list Event.t)
  : list Employee.t :=
  let employees := reset_lists <$> employees in
  let emap := employee_map employees in
  foldl (process_event emap) employees events.

(** Step 8.  [processed_data[name][d] = code]; every name written to is a
    key of [processed_data] by construction. *)
Definition set_status (name code : string)
    (processed_data : gmap string (gmap Z string)) (d : Z)
  : gmap string (gmap Z string) :=
  alter (insert d code) name processed_data.

Definition write_employee (processed_data : gmap string (gmap Z string))
    (emp : Employee.t) : gmap string (gmap Z string) :=
  let name := Employee.name emp in
  let processed_data := foldl (set_status name "P") processed_data (Employee.PTO emp) in
  let processed_data := foldl (set_status name "T") processed_data (Employee.Travel emp) in
  foldl (set_status name "H") processed_data (Employee.Holiday emp).

Definition build_processed_data (employees : list Employee.t)
  : gmap string (gmap Z string) :=
  let processed_data := foldl (λ m emp, <[Employee.name emp := ∅]> m) ∅ employees in
  foldl write_employee processed_data employees.

(** What steps 4 to 8 compute: [unmatched_event_names] and [processed_data],
    or nothing when no event is in range ("No events to process"). *)
Record run_result : Type := {
  unmatched_event_names : gset string;
  employees_after : list Employee.t;
  processed_data : gmap string (gmap Z string)
}.

Definition run (employees : list Employee.t) (all_events : list Event.t)
    (start_date end_date : Z) (event_to_employee_map : gmap string (list string))
  : option run_result :=
  match events_in_range all_events start_date end_date with
  | [] => None
  | events =>
      let '(events, unmatched) := associate event_to_employee_map events in
      let employees := populate_lists employees events in
      Some {| unmatched_event_names := unmatched;
              employees_after := employees;
              processed_data := build_processed_data employees |}
  end.

(** ** [strftime] *)

Definition month_names : list string :=
  ["January"; "February"; "March"; "April"; "May"; "June"; "July";
   "August"; "September"; "October"; "November"; "December"].

Definition day_abbrs : list string :=
  ["Mon"; "Tue"; "Wed"; "Thu"; "Fri"; "Sat"; "Sun"].

(** Two decimal digits, zero padded. *)
Definition pad2 (n : Z) : string :=
  String (pretty_N_char (Z.to_N (n / 10)))
    (String (pretty_N_char (Z.to_N (n mod 10))) EmptyString).

(** [%U]: week of the year, Sunday being the first day of the week; the days
    before the first Sunday are in week 0.  As the C library computes it,
    from the day of the year counted from 0 and the day of the week counted
    from Sunday. *)
Definition week_of_year (d : Z) : Z :=
  let tm_yday := datetime.yday d - 1 in
  let tm_wday := (datetime.weekday d + 1) mod 7 in
  (tm_yday - tm_wday + 7) / 7.

(** [d.strftime("%B %Y")]. *)
Definition strftime_B_Y (d : Z) : string :=
  nth (Z.to_nat (datetime.month d - 1)) month_names EmptyString
  +:+ " " +:+ pretty (datetime.year d).

(** [d.strftime("W%U")]. *)
Definition strftime_W_U (d : Z) : string := "W" +:+ pad2 (week_of_year d).

(** [d.strftime("%a %d")]. *)
Definition strftime_a_d (d : Z) : string :=
  nth (Z.to_nat (datetime.weekday d)) day_abbrs EmptyString
  +:+ " " +:+ pad2 (datetime.day d).

(** ** The header of [generate_excel] *)

(** The worksheet, as far as the header goes: the values written with
    [ws.cell(row, column, value)] and the ranges merged with
    [ws.merge_cells(start_row, start_column, end_row, end_column)], both in
    the order of the calls.  Styles are left out. *)
Record worksheet : Type := {
  cells : list (Z * Z * string);
  merged_cells : list (Z * Z * Z * Z)
}.

Definition ws_cell (row column : Z) (value : string) (ws : worksheet) : worksheet :=
  {| cells := cells ws ++ [(row, column, value)]; merged_cells := merged_cells ws |}.

Definition ws_merge_cells (start_row start_column end_row end_column : Z)
    (ws : worksheet) : worksheet :=
  {| cells := cells ws;
     merged_cells := merged_cells ws ++ [(start_row, start_column, end_row, end_column)] |}.

Definition all_dates (start_date end_date : Z) : list Z :=
  (λ i, start_date + i) <$> seqZ 0 (end_date - start_date + 1).

Definition weekdays (start_date end_date : Z) : list Z :=
  List.filter (λ d, datetime.weekday d <? 5) (all_dates start_date end_date).

(** A [defaultdict] keeps its keys in the order of their first use:
    [m[k] = f(m[k])], where a missing key is first given [dflt] at the end. *)
Fixpoint defaultdict_update {V : Type} (dflt : V) (f : V → V) (k : string)
    (m : list (string * V)) : list (string * V) :=
  match m with
  | [] => [(k, f dflt)]
  | (k', v) :: m' =>
      if decide (k' = k) then (k', f v) :: m'
      else (k', v) :: defaultdict_update dflt f k m'
  end.

(** [dates_by_month_week[d.strftime("%B %Y")][d.strftime("W%U")].append(d)]
    for every [d] of [weekdays]. *)
Definition dates_by_month_week (weekdays : list Z)
  : list (string * list (string * list Z)) :=
  foldl (λ m d,
           defaultdict_update []
             (defaultdict_update [] (λ days, days ++ [d]) (strftime_W_U d))
             (strftime_B_Y d) m)
        [] weekdays.

(** The three nested loops, on the pair of the worksheet and [current_col]. *)
Definition write_day (st : worksheet * Z) (day : Z) : worksheet * Z :=
  (ws_cell 3 st.2 (strftime_a_d day) st.1, st.2 + 1).

Definition write_week (st : worksheet * Z) (item : string * list Z) : worksheet * Z :=
  let week_start_col := st.2 in
  let '(ws, current_col) := foldl write_day st item.2 in
  if (0 <? Z.of_nat (length item.2)) then
    (ws_cell 2 week_start_col item.1
       (ws_merge_cells 2 week_start_col 2 (current_col - 1) ws), current_col)
  else (ws, current_col).

Definition write_month (st : worksheet * Z)
    (item : string * list (string * list Z)) : worksheet * Z :=
  let month_start_col := st.2 in
  let '(ws, current_col) := foldl write_week st item.2 in
  if (current_col - 1 >=? month_start_col) then
    (ws_cell 1 month_start_col item.1
       (ws_merge_cells 1 month_start_col 1 (current_col - 1) ws), current_col)
  else (ws, current_col).

(** The header creation of [generate_excel]: the worksheet and the final
    [current_col]. *)
Definition generate_excel_header (start_date end_date : Z) : worksheet * Z :=
  let ws := ws_cell 3 1 "Employee" {| cells := []; merged_cells := [] |} in
  foldl write_month (ws, 2) (dates_by_month_week (weekdays start_date end_date)).

(** ** [main] *)

Inductive outcome : Type :=
  | NoEmployees
  | NoEvents
  | Generated (r : run_result) (ws : worksheet).

(** [main], given what the outside world supplies: the roster file, the two
    feeds, today's date, the [months] argument and the answer of the name
    resolver.  Of the worksheet, the header is kept; the employee rows are
    read from [processed_data] with [status_at] and from [weekdays]. *)
Definition main (hierarchical_employees : list person)
    (pto_feed travel_feed : list (string * Z * Z)) (today months : Z)
    (event_to_employee_map : gmap string (list string)) : outcome :=
  match hierarchical_employees with
  | [] => NoEmployees
  | _ =>
      let employees := flatten_employees hierarchical_employees in
      let pto_events := load_calendar_events pto_feed "P" in
      let travel_events := load_calendar_events travel_feed "T" in
      let all_events := pto_events ++ travel_events in
      let start_date := datetime.replace_day1 today in
      let end_date := start_date + months * 30 in
      match run employees all_events start_date end_date event_to_employee_map with
      | None => NoEvents
      | Some r => Generated r (generate_excel_header start_date end_date).1
      end
  end.

(** ** Reading the header back *)

(** The values written in a row, with their columns, in writing order. *)
Definition cell_in_row (row : Z) (cell : Z * Z * string) : option (Z * string) :=
  let '(r, c, v) := cell in if r =? row then Some (c, v) else None.

Definition row_cells (row : Z) (ws : worksheet) : list (Z * string) :=
  omap (cell_in_row row) (cells ws).

(** The spans [(first column, last column)] merged in a row, in merging
    order. *)
Definition span_in_row (row : Z) (range : Z * Z * Z * Z) : option (Z * Z) :=
  let '(r1, c1, r2, c2) := range in
  if (r1 =? row) && (r2 =? row) then Some (c1, c2) else None.

Definition row_spans (row : Z) (ws : worksheet) : list (Z * Z) :=
  omap (span_in_row row) (merged_cells ws).

(** The columns of a span. *)
Definition span_columns (s : Z * Z) : list Z := seqZ s.1 (s.2 - s.1 + 1).

(** A span lies within another one. *)
Definition within (outer s : Z * Z) : bool := (outer.1 <=? s.1) && (s.2 <=? outer.2).

(** ** Reading the status matrix *)

(** [processed_data.get(name, {}).get(day)], the lookup of
    [write_employee_row]. *)
Definition status_at (processed_data : gmap string (gmap Z string))
    (name : string) (day : Z) : option string :=
  processed_data !! name ≫= (λ employee_events, employee_events !! day).

(** The holiday scopes, as the specification states them: the US scope is
    the employees located in the US, the France scope those located in
    France, the Company scope everybody. *)
Definition in_scope (tag location : string) : Prop :=
  (tag = "_HOLIDAY_US" ∧ location = "US")
  ∨ (tag = "_HOLIDAY_FRANCE" ∧ location = "France")
  ∨ tag = "_HOLIDAY_COMPANY".

Definition holiday_tag (tag : string) : Prop :=
  tag = "_HOLIDAY_US" ∨ tag = "_HOLIDAY_FRANCE" ∨ tag = "_HOLIDAY_COMPANY".

(** The status matrix as the specification builds it: all the PTO days of
    all employees first, then all the Travel days, then all the Holiday days,
    each write replacing what is there. *)
Definition three_pass (employees : list Employee.t) : gmap string (gmap Z string) :=
  let m := foldl (λ m emp, <[Employee.name emp := ∅]> m) ∅ employees in
  let m := foldl (λ m emp, foldl (set_status (Employee.name emp) "P") m (Employee.PTO emp))
                 m employees in
  let m := foldl (λ m emp, foldl (set_status (Employee.name emp) "T") m (Employee.Travel emp))
                 m employees in
  foldl (λ m emp, foldl (set_status (Employee.name emp) "H") m (Employee.Holiday emp))
        m employees.

(** ** Reading the date lists *)

(** ['employee'] of an event as step 6 sets it: the resolver's answer for the
    name of the event, the empty list when it has none. *)
Definition targets_of (event_to_employee_map : gmap string (list string))
    (event : Event.t) : list string :=
  default [] (event_to_employee_map !! Event.name event).

Definition is_holiday_tag (tag : string) : bool :=
  bool_decide (tag = "_HOLIDAY_US") || bool_decide (tag = "_HOLIDAY_FRANCE")
  || bool_decide (tag = "_HOLIDAY_COMPANY").

Definition in_scopeb (tag location : string) : bool :=
  bool_decide (tag = "_HOLIDAY_US" ∧ location = "US")
  || bool_decide (tag = "_HOLIDAY_FRANCE" ∧ location = "France")
  || bool_decide (tag = "_HOLIDAY_COMPANY").

(** The days one target of an event assigns to the employee called [name],
    on the list of the events of type [type]: the days of the event when the
    target is that name and the event has that type, none otherwise. *)
Definition name_days (type name : string) (event : Event.t) (target : string) : list Z :=
  if bool_decide (target = name) && negb (is_holiday_tag target)
     && bool_decide (Event.type event = type)
  then event_dates event else [].

(** The days one target of an event assigns as Holiday to an employee at
    [location]: the days of the event when the target is a scope of the
    location. *)
Definition scope_days (location : string) (event : Event.t) (target : string) : list Z :=
  if in_scopeb target location then event_dates event else [].

(** The assignments of a list of events, target by target in the order of
    the events and of their targets. *)
Definition assigned (days : Event.t → string → list Z)
    (event_to_employee_map : gmap string (list string)) (events : list Event.t) : list Z :=
  flat_map (λ event, flat_map (days event) (targets_of event_to_employee_map event)) events.

(** ** Auxiliary definitions *)

(** The month and day computed by [_ord2ymd] from the day of the year
    counted from 0 and the leap-year flag. *)
Definition month_part (leapyear : bool) (n : Z) : Z * Z :=
  let month := Z.shiftr (n + 50) 5 in
  let preceding :=
    nth (Z.to_nat month) datetime._DAYS_BEFORE_MONTH (-1)
    + (if (month >? 2) && leapyear then 1 else 0) in
  if preceding >? n then
    let month := month - 1 in
    let preceding :=
      preceding - (nth (Z.to_nat month) datetime._DAYS_IN_MONTH (-1)
                   + (if (month =? 2) && leapyear then 1 else 0)) in
    (month, n - preceding + 1)
  else (month, n - preceding + 1).

Definition dim (leap : bool) (m : Z) : Z :=
  if (m =? 2) && leap then 29 else nth (Z.to_nat m) datetime._DAYS_IN_MONTH (-1).

Definition dbm (leap : bool) (m : Z) : Z :=
  nth (Z.to_nat m) datetime._DAYS_BEFORE_MONTH (-1)
  + (if (m >? 2) && leap then 1 else 0).

Definition month_part_ok (leap : bool) (n : Z) : bool :=
  let '(m, d) := month_part leap n in
  Z.leb 1 m && Z.leb m 12 && Z.leb 1 d && Z.leb d (dim leap m)
  && Z.eqb (dbm leap m + d) (n + 1).

(** Grouping a list by a key, as one level of [dates_by_month_week]. *)
Definition group_by (k : Z → string) (l : list Z) : list (string * list Z) :=
  foldl (λ m x, defaultdict_update [] (λ ds, ds ++ [x]) (k x) m) [] l.

(** What the header loops append to the worksheet, from column [c] on. *)
Fixpoint day_cells (c : Z) (days : list Z) : list (Z * Z * string) :=
  match days with
  | [] => []
  | d :: days => (3, c, strftime_a_d d) :: day_cells (c + 1) days
  end.

Definition week_len (w : string * list Z) : Z := Z.of_nat (length w.2).

Definition month_len (mo : string * list (string * list Z)) : Z :=
  Z.of_nat (length (flat_map snd mo.2)).

Fixpoint weeks_cells (c : Z) (weeks : list (string * list Z)) : list (Z * Z * string) :=
  match weeks with
  | [] => []
  | w :: weeks =>
      day_cells c w.2 ++ (if 0 <? week_len w then [(2, c, w.1)] else [])
      ++ weeks_cells (c + week_len w) weeks
  end.

Fixpoint weeks_merged (c : Z) (weeks : list (string * list Z)) : list (Z * Z * Z * Z) :=
  match weeks with
  | [] => []
  | w :: weeks =>
      (if 0 <? week_len w then [(2, c, 2, c + week_len w - 1)] else [])
      ++ weeks_merged (c + week_len w) weeks
  end.

Fixpoint months_cells (c : Z) (months : list (string * list (string * list Z)))
  : list (Z * Z * string) :=
  match months with
  | [] => []
  | mo :: months =>
      weeks_cells c mo.2
      ++ (if c + month_len mo - 1 >=? c then [(1, c, mo.1)] else [])
      ++ months_cells (c + month_len mo) months
  end.

Fixpoint months_merged (c : Z) (months : list (string * list (string * list Z)))
  : list (Z * Z * Z * Z) :=
  match months with
  | [] => []
  | mo :: months =>
      weeks_merged c mo.2
      ++ (if c + month_len mo - 1 >=? c then [(1, c, 1, c + month_len mo - 1)] else [])
      ++ months_merged (c + month_len mo) months
  end.

Definition ws_app (ws : worksheet) (cs : list (Z * Z * string))
    (ms : list (Z * Z * Z * Z)) : worksheet :=
  {| cells := cells ws ++ cs; merged_cells := merged_cells ws ++ ms |}.

(** Consecutive spans of the given sizes, from column [c] on. *)
Fixpoint spans (c : Z) (sizes : list Z) : list (Z * Z) :=
  match sizes with
  | [] => []
  | n :: sizes => (c, c + n - 1) :: spans (c + n) sizes
  end.

Definition sum_sizes (sizes : list Z) : Z := foldr Z.add 0 sizes.

Definition nonempty_groups (months : list (string * list (string * list Z))) : Prop :=
  Forall (λ p, p.2 ≠ [] ∧ Forall (λ w : string * list Z, w.2 ≠ []) p.2) months.


(** Two strings differ at a position that both have. *)
Fixpoint differs (a b : string) : bool :=
  match a, b with
  | String x a', String y b' => if Ascii.eqb x y then differs a' b' else true
  | _, _ => false
  end.

(** The writes of one pass on the days of an employee. *)
Definition mark (code : string) (days : list Z) (cell : gmap Z string) : gmap Z string :=
  foldl (λ c d, <[d := code]> c) cell days.

(** The writes of step 8 for one employee, on the employee's own entry. *)
Definition cell_writes (emp : Employee.t) (cell : gmap Z string) : gmap Z string :=
  mark "H" (Employee.Holiday emp) (mark "T" (Employee.Travel emp)
    (mark "P" (Employee.PTO emp) cell)).

(** The status that step 8 leaves for a day among the days of one
    employee. *)
Definition status_of (emp : Employee.t) (d : Z) : option string :=
  if decide (d ∈ Employee.Holiday emp) then Some "H"
  else if decide (d ∈ Employee.Travel emp) then Some "T"
  else if decide (d ∈ Employee.PTO emp) then Some "P"
  else None.

(** An event with its ['employee'] key set as step 6 sets it. *)
Definition with_employee (event_to_employee_map : gmap string (list string))
    (event : Event.t) : Event.t :=
  Event.mk (Event.name event) (Event.start_date event) (Event.end_date event)
           (Event.type event) (default [] (event_to_employee_map !! Event.name event)).

(** What one target does to the employee at position [i]. *)
Definition target_effect (emap : gmap string nat) (event : Event.t)
    (name_or_tag : string) (i : nat) (emp : Employee.t) : Employee.t :=
  if decide (name_or_tag = "_HOLIDAY_US") then
    if decide (Employee.location emp = "US")
    then extend_Holiday (event_dates event) emp else emp
  else if decide (name_or_tag = "_HOLIDAY_FRANCE") then
    if decide (Employee.location emp = "France")
    then extend_Holiday (event_dates event) emp else emp
  else if decide (name_or_tag = "_HOLIDAY_COMPANY") then
    extend_Holiday (event_dates event) emp
  else
    match emap !! name_or_tag with
    | Some j =>
        if decide (j = i) then
          if decide (Event.type event = "P") then extend_PTO (event_dates event) emp
          else if decide (Event.type event = "T") then extend_Travel (event_dates event) emp
          else emp
        else emp
    | None => emp
    end.

Definition event_effect (emap : gmap string nat) (event : Event.t)
    (i : nat) (emp : Employee.t) : Employee.t :=
  foldl (λ e tok, target_effect emap event tok i e) emp (Event.employee event).

Definition final_employee (emap : gmap string nat) (events : list Event.t)
    (i : nat) (emp : Employee.t) : Employee.t :=
  foldl (λ e ev, event_effect emap ev i e) emp events.

(** A target that names the employee at position [i]. *)
Definition names_position (emap : gmap string nat) (tok : string) (i : nat) : Prop :=
  ¬ holiday_tag tok ∧ emap !! tok = Some i.

(** What [run] returns when some event is in range. *)
Definition result_of (employees : list Employee.t) (events : list Event.t)
    (event_to_employee_map : gmap string (list string)) : run_result :=
  let employees :=
    populate_lists employees (with_employee event_to_employee_map <$> events) in
  {| unmatched_event_names := (associate event_to_employee_map events).2;
     employees_after := employees;
     processed_data := build_processed_data employees |}.

(** An employee keeps its name and location through step 7. *)
Definition same_identity (e0 e : Employee.t) : Prop :=
  Employee.name e = Employee.name e0 ∧ Employee.location e = Employee.location e0.

(** Two employees that step 8 cannot tell apart. *)
Definition same_status (e1 e2 : Employee.t) : Prop :=
  Employee.name e1 = Employee.name e2 ∧ ∀ d, status_of e1 d = status_of e2 d.


(** ** The employee rows of [generate_excel] *)

(** The fills, by their colour. *)
Definition pto_fill : string := "F28C28".
Definition travel_fill : string := "0070C0".
Definition holiday_fill : string := "C0C0C0".

(** The worksheet with what the employee rows and the formatting add to the
    header: the fills [cell.fill = ...] as [(row, column, colour)], the
    indents [Alignment(indent=...)] of the name cells as [(row, indent)] and
    the column widths as [(column, width)], each in the order of the
    assignments. *)
Record sheet : Type := {
  sheet_ws : worksheet;
  fills : list (Z * Z * string);
  indents : list (Z * Z);
  widths : list (Z * Z)
}.

(** The body of [for report_date in weekdays], on the pair of the fills and
    [col_idx]. *)
Definition fill_cell (employee_events : gmap Z string) (current_row : Z)
    (st : list (Z * Z * string) * Z) (report_date : Z) : list (Z * Z * string) * Z :=
  let event_type := default EmptyString (employee_events !! report_date) in
  let fills :=
    if decide (event_type = "P") then st.1 ++ [(current_row, st.2, pto_fill)]
    else if decide (event_type = "T") then st.1 ++ [(current_row, st.2, travel_fill)]
    else if decide (event_type = "H") then st.1 ++ [(current_row, st.2, holiday_fill)]
    else st.1 in
  (fills, st.2 + 1).

(** [write_employee_row(employee, indent_level)], on the pair of the sheet
    and [current_row]. *)
Fixpoint write_employee_row (processed_data : gmap string (gmap Z string))
    (weekdays : list Z) (employee : person) (indent_level : Z)
    (st : sheet * Z) {struct employee} : sheet * Z :=
  match employee with
  | Person name location reports =>
      let current_row := st.2 in
      let ws := ws_cell current_row 1 name (sheet_ws st.1) in
      let employee_events := default ∅ (processed_data !! name) in
      let fills :=
        (foldl (fill_cell employee_events current_row) (fills st.1, 2) weekdays).1 in
      let sh := {| sheet_ws := ws; fills := fills;
                   indents := indents st.1 ++ [(current_row, indent_level)];
                   widths := widths st.1 |} in
      foldl (λ st report,
               write_employee_row processed_data weekdays report (indent_level + 1) st)
            (sh, current_row + 1) reports
  end.

(** [generate_excel(processed_data, employees, start_date, end_date, _)]:
    the header, the employee rows from row 4 on, the column widths. *)
Definition generate_excel (processed_data : gmap string (gmap Z string))
    (employees : list person) (start_date end_date : Z) : sheet :=
  let header := generate_excel_header start_date end_date in
  let current_col := header.2 in
  let st :=
    foldl (λ st employee,
             write_employee_row processed_data (weekdays start_date end_date)
               employee 0 st)
          ({| sheet_ws := header.1; fills := []; indents := []; widths := [] |}, 4)
          employees in
  {| sheet_ws := sheet_ws st.1; fills := fills st.1; indents := indents st.1;
     widths := (1, 20) :: ((λ i, (i, 7)) <$> seqZ 2 (current_col - 2)) |}.

(** ** Reading the sheet *)

(** The values written in a column, with their rows, in writing order. *)
Definition cell_in_column (column : Z) (cell : Z * Z * string) : option (Z * string) :=
  let '(r, c, v) := cell in if c =? column then Some (r, v) else None.

Definition column_cells (column : Z) (ws : worksheet) : list (Z * string) :=
  omap (cell_in_column column) (cells ws).

(** The colour that shows a status. *)
Definition status_fill (status : option string) : option string :=
  if decide (status = Some "P") then Some pto_fill
  else if decide (status = Some "T") then Some travel_fill
  else if decide (status = Some "H") then Some holiday_fill
  else None.

(** The employees in the order of their rows, each with its depth in the
    hierarchy. *)
Fixpoint preorder (depth : Z) (p : person) : list (string * Z) :=
  match p with
  | Person name location reports =>
      (name, depth) :: flat_map (preorder (depth + 1)) reports
  end.

(** ** Reading the events *)

(** An event that the window filter keeps and that covers the day [d]. *)
Definition covers (all_events : list Event.t) (start_date end_date : Z)
    (event : Event.t) (d : Z) : Prop :=
  event ∈ all_events ∧ in_window start_date end_date event = true
  ∧ Event.start_date event <= d < Event.end_date event.

(** Some event in range with a holiday scope that covers the location has day
    [d]. *)
Definition holiday_day (all_events : list Event.t) (start_date end_date : Z)
    (event_to_employee_map : gmap string (list string)) (location : string) (d : Z)
  : Prop :=
  ∃ event tag, covers all_events start_date end_date event d
               ∧ tag ∈ targets_of event_to_employee_map event
               ∧ in_scope tag location.

(** Some event in range of the given type whose targets name the employee has
    day [d]. *)
Definition named_day (all_events : list Event.t) (start_date end_date : Z)
    (event_to_employee_map : gmap string (list string)) (type name : string) (d : Z)
  : Prop :=
  ∃ event, covers all_events start_date end_date event d
           ∧ name ∈ targets_of event_to_employee_map event
           ∧ ¬ holiday_tag name
           ∧ Event.type event = type.

(** ** The workbook of [main] *)

(** Step 9: [generate_excel(processed_data, hierarchical_employees,
    start_date, end_date, output_filename)], reached only when some event is
    in range. *)
Definition main_workbook (hierarchical_employees : list person)
    (pto_feed travel_feed : list (string * Z * Z)) (today months : Z)
    (event_to_employee_map : gmap string (list string)) : option sheet :=
  match main hierarchical_employees pto_feed travel_feed today months
             event_to_employee_map with
  | Generated r _ =>
      let start_date := datetime.replace_day1 today in
      let end_date := start_date + months * 30 in
      Some (generate_excel (processed_data r) hierarchical_employees start_date end_date)
  | _ => None
  end.

(** An entry of a feed that has a name, overlaps the window and covers the
    day [d]. *)
Definition feed_covers (feed : list (string * Z * Z)) (start_date end_date : Z)
    (entry : string * Z * Z) (d : Z) : Prop :=
  entry ∈ feed ∧ entry.1.1 ≠ EmptyString
  ∧ entry.1.2 < end_date ∧ entry.2 > start_date
  ∧ entry.1.2 <= d < entry.2.

(** The fills of one employee row, from column [c] on. *)
Fixpoint cell_fills (employee_events : gmap Z string) (row c : Z) (days : list Z)
  : list (Z * Z * string) :=
  match days with
  | [] => []
  | d :: days =>
      match status_fill (employee_events !! d) with
      | Some colour => [(row, c, colour)]
      | None => []
      end ++ cell_fills employee_events row (c + 1) days
  end.

(** What the rows of the employees [rows], given with their depths, add to a
    sheet from row [r] on. *)
Definition add_rows (processed_data : gmap string (gmap Z string)) (days : list Z)
    (sh : sheet) (r : Z) (rows : list (string * Z)) : sheet :=
  {| sheet_ws := ws_app (sheet_ws sh) (imap (λ i nd, (r + Z.of_nat i, 1, nd.1)) rows) [];
     fills := fills sh
              ++ mjoin (imap (λ i nd, cell_fills (default ∅ (processed_data !! nd.1))
                                        (r + Z.of_nat i) 2 days) rows);
     indents := indents sh ++ imap (λ i nd, (r + Z.of_nat i, nd.2)) rows;
     widths := widths sh |}.

(** The labels of consecutive groups, each written at the first column of
    its group, from column [c] on. *)
Fixpoint labels (c : Z) (groups : list (string * Z)) : list (Z * string) :=
  match groups with
  | [] => []
  | g :: groups => (c, g.1) :: labels (c + g.2) groups
  end.

Definition week_group (w : string * list Z) : string * Z := (w.1, week_len w).

Definition month_group (mo : string * list (string * list Z)) : string * Z :=
  (mo.1, month_len mo).

(** * Proofs *)

(** ** The calendar *)

Lemma month_cases (m : Z) :
  1 <= m <= 12 ->
  m = 1 \/ m = 2 \/ m = 3 \/ m = 4 \/ m = 5 \/ m = 6 \/ m = 7 \/ m = 8
  \/ m = 9 \/ m = 10 \/ m = 11 \/ m = 12.
Proof. lia. Qed.

Ltac month_split m H :=
  apply month_cases in H;
  destruct H as [->|[->|[->|[->|[->|[->|[->|[->|[->|[->|[->| ->]]]]]]]]]]].

Section calendar.
Import datetime.

Lemma year_decomp (a b c e : Z) :
  0 <= b <= 3 -> 0 <= c <= 24 -> 0 <= e <= 3 ->
  _days_before_year (400 * a + 100 * b + 4 * c + e + 1)
  = 146097 * a + 36524 * b + 1461 * c + 365 * e.
Proof.
  intros Hb Hc He. unfold _days_before_year.
  cbv zeta. Z.div_mod_to_equations. lia.
Qed.

Lemma is_leap_decomp (a b c e : Z) :
  0 <= b <= 3 -> 0 <= c <= 24 -> 0 <= e <= 3 ->
  _is_leap (400 * a + 100 * b + 4 * c + e + 1)
  = (e =? 3) && (negb (c =? 24) || (b =? 3)).
Proof.
  intros Hb Hc He. unfold _is_leap.
  apply eq_true_iff_eq.
  rewrite !andb_true_iff, !orb_true_iff, !negb_true_iff, !Z.eqb_eq, !Z.eqb_neq.
  Z.div_mod_to_equations. lia.
Qed.

Lemma month_part_table :
  forallb (month_part_ok false) (seqZ 0 365)
  && forallb (month_part_ok true) (seqZ 0 366) = true.
Proof. vm_compute. reflexivity. Qed.

Lemma month_part_spec (leap : bool) (n : Z) :
  0 <= n < 365 + (if leap then 1 else 0) ->
  let '(m, d) := month_part leap n in
  1 <= m <= 12 /\ 1 <= d <= dim leap m /\ dbm leap m + d = n + 1.
Proof.
  intros Hn.
  assert (month_part_ok leap n = true) as Hok.
  { pose proof month_part_table as Ht. apply andb_true_iff in Ht as [Hf Ht].
    rewrite forallb_forall in Hf, Ht.
    destruct leap; [apply Ht | apply Hf]; apply list_elem_of_In, elem_of_seqZ; lia. }
  unfold month_part_ok in Hok. destruct (month_part leap n) as [m d].
  rewrite !andb_true_iff in Hok.
  destruct Hok as [[[[? ?] ?] ?] ?]. lia.
Qed.

(** [_ord2ymd] returns a date of the calendar, and [_ymd2ord] is its
    inverse. *)
Lemma ord2ymd_spec (n : Z) :
  let '(y, m, d) := _ord2ymd n in
  1 <= m <= 12 /\ 1 <= d <= _days_in_month y m /\ _ymd2ord y m d = n.
Proof.
  unfold _ord2ymd. cbv zeta. unfold _DI400Y, _DI100Y, _DI4Y.
  pose proof (Z.div_mod (n - 1) 146097 ltac:(lia)) as E0.
  pose proof (Z.mod_pos_bound (n - 1) 146097 ltac:(lia)) as B0.
  set (a := (n - 1) / 146097) in *. set (r0 := (n - 1) mod 146097) in *.
  pose proof (Z.div_mod r0 36524 ltac:(lia)) as E1.
  pose proof (Z.mod_pos_bound r0 36524 ltac:(lia)) as B1.
  set (b := r0 / 36524) in *. set (r1 := r0 mod 36524) in *.
  pose proof (Z.div_mod r1 1461 ltac:(lia)) as E2.
  pose proof (Z.mod_pos_bound r1 1461 ltac:(lia)) as B2.
  set (c := r1 / 1461) in *. set (r2 := r1 mod 1461) in *.
  pose proof (Z.div_mod r2 365 ltac:(lia)) as E3.
  pose proof (Z.mod_pos_bound r2 365 ltac:(lia)) as B3.
  set (e := r2 / 365) in *. set (r3 := r2 mod 365) in *.
  clearbody a r0 b r1 c r2 e r3.
  assert (0 <= b <= 4) by lia. assert (0 <= c <= 24) by lia.
  assert (0 <= e <= 4) by lia.
  destruct ((e =? 4) || (b =? 4)) eqn:Hsp.
  - apply orb_true_iff in Hsp. rewrite !Z.eqb_eq in Hsp.
    assert (_is_leap (a * 400 + 1 + b * 100 + c * 4 + e - 1) = true) as Hl.
    { unfold _is_leap.
      rewrite !andb_true_iff, !orb_true_iff, !negb_true_iff, !Z.eqb_eq, !Z.eqb_neq.
      Z.div_mod_to_equations. lia. }
    unfold _ymd2ord, _days_in_month, _days_before_month. rewrite Hl. simpl.
    unfold _days_before_year. cbv zeta. split; [lia|]. split; [lia|].
    Z.div_mod_to_equations. lia.
  - apply orb_false_iff in Hsp. rewrite !Z.eqb_neq in Hsp.
    replace (a * 400 + 1 + b * 100 + c * 4 + e)
      with (400 * a + 100 * b + 4 * c + e + 1) by lia.
    set (leap := (e =? 3) && (negb (c =? 24) || (b =? 3))).
    pose proof (is_leap_decomp a b c e ltac:(lia) ltac:(lia) ltac:(lia)) as Hleap.
    fold leap in Hleap.
    pose proof (year_decomp a b c e ltac:(lia) ltac:(lia) ltac:(lia)) as Hy.
    pose proof (month_part_spec leap r3 ltac:(destruct leap; lia)) as Hm.
    unfold month_part in Hm. cbv zeta in Hm.
    match goal with |- context [if ?c then _ else _] => destruct c end.
    all: unfold _ymd2ord, _days_in_month, _days_before_month; rewrite Hleap, Hy;
      unfold dim, dbm in Hm; lia.
Qed.

Lemma date_fields (d : Z) :
  1 <= month d <= 12 /\ 1 <= day d <= _days_in_month (year d) (month d)
  /\ _ymd2ord (year d) (month d) (day d) = d.
Proof.
  pose proof (ord2ymd_spec d) as H. unfold year, month, day.
  destruct (_ord2ymd d) as [[y m] dd]. exact H.
Qed.

Lemma days_before_year_succ (y : Z) :
  _days_before_year (y + 1)
  = _days_before_year y + 365 + (if _is_leap y then 1 else 0).
Proof.
  unfold _days_before_year, _is_leap. cbv zeta.
  destruct (y mod 4 =? 0) eqn:H4; destruct (y mod 100 =? 0) eqn:H100;
    destruct (y mod 400 =? 0) eqn:H400; simpl;
    rewrite ?Z.eqb_eq, ?Z.eqb_neq in *; Z.div_mod_to_equations; lia.
Qed.

Lemma days_before_year_mono (y y' : Z) :
  y <= y' -> _days_before_year y <= _days_before_year y'.
Proof.
  intros H. replace y' with (y + (y' - y)) by lia.
  assert (0 <= y' - y) as Hn by lia. revert Hn. generalize (y' - y).
  apply natlike_ind; [rewrite Z.add_0_r; lia|].
  intros n Hn IH. replace (y + Z.succ n) with (y + n + 1) by lia.
  rewrite days_before_year_succ. destruct (_is_leap (y + n)); lia.
Qed.

(** The day of the year of a date of the calendar. *)
Lemma yday_range (y m d : Z) :
  1 <= m <= 12 -> 1 <= d <= _days_in_month y m ->
  1 <= _days_before_month y m + d <= 365 + (if _is_leap y then 1 else 0).
Proof.
  intros Hm Hd. unfold _days_in_month, _days_before_month in *.
  month_split m Hm; destruct (_is_leap y); simpl in *; lia.
Qed.

Lemma yday_ordinal (d : Z) : yday d = d - _days_before_year (year d).
Proof.
  destruct (date_fields d) as (_ & _ & H). unfold yday, _ymd2ord in *. lia.
Qed.

Lemma yday_bounds (d : Z) :
  1 <= yday d <= 365 + (if _is_leap (year d) then 1 else 0).
Proof.
  destruct (date_fields d) as (Hm & Hd & _). apply yday_range; assumption.
Qed.

Lemma year_bounds (d : Z) :
  _days_before_year (year d) < d <= _days_before_year (year d + 1).
Proof.
  pose proof (yday_bounds d). pose proof (yday_ordinal d).
  rewrite days_before_year_succ. lia.
Qed.

Lemma year_mono (d d' : Z) : d <= d' -> year d <= year d'.
Proof.
  intros H. destruct (Z_le_gt_dec (year d) (year d')) as [|Hgt]; [assumption|].
  pose proof (year_bounds d). pose proof (year_bounds d').
  pose proof (days_before_year_mono (year d' + 1) (year d) ltac:(lia)). lia.
Qed.

Lemma days_before_month_table :
  forallb (λ leap,
    forallb (λ m,
      forallb (λ m', implb (Z.ltb m' m) (Z.leb (dbm leap m' + dim leap m') (dbm leap m)))
              (seqZ 1 12))
            (seqZ 1 12))
    [true; false] = true.
Proof. vm_compute. reflexivity. Qed.

Lemma days_before_month_lt (leap : bool) (m m' : Z) :
  1 <= m' -> m' < m -> m <= 12 ->
  dbm leap m' + dim leap m' <= dbm leap m.
Proof.
  intros H1 H2 H3. pose proof days_before_month_table as Ht.
  rewrite forallb_forall in Ht.
  specialize (Ht leap ltac:(destruct leap; simpl; tauto)).
  rewrite forallb_forall in Ht.
  specialize (Ht m ltac:(apply list_elem_of_In, elem_of_seqZ; lia)).
  rewrite forallb_forall in Ht.
  specialize (Ht m' ltac:(apply list_elem_of_In, elem_of_seqZ; lia)).
  apply Z.ltb_lt in H2. rewrite H2 in Ht. simpl in Ht. apply Z.leb_le in Ht. exact Ht.
Qed.

Lemma month_mono (d d' : Z) :
  year d = year d' -> d <= d' -> month d <= month d'.
Proof.
  intros Hy Hle.
  destruct (Z_le_gt_dec (month d) (month d')) as [|Hgt]; [assumption|].
  destruct (date_fields d) as (Hm & Hd & _).
  destruct (date_fields d') as (Hm' & Hd' & _).
  pose proof (yday_ordinal d) as Y. pose proof (yday_ordinal d') as Y'.
  unfold yday in Y, Y'. rewrite <- Hy in Y', Hd'.
  pose proof (days_before_month_lt (_is_leap (year d)) (month d) (month d')
                ltac:(lia) ltac:(lia) ltac:(lia)) as Ht.
  change (_days_before_month (year d) (month d))
    with (dbm (_is_leap (year d)) (month d)) in Y.
  change (_days_before_month (year d) (month d'))
    with (dbm (_is_leap (year d)) (month d')) in Y'.
  change (_days_in_month (year d) (month d'))
    with (dim (_is_leap (year d)) (month d')) in Hd'.
  lia.
Qed.

Lemma week_of_year_mono (d d' : Z) :
  year d = year d' -> d <= d' -> week_of_year d <= week_of_year d'.
Proof.
  intros Hy Hle. unfold week_of_year. cbv zeta.
  rewrite !yday_ordinal, <- Hy. unfold weekday.
  Z.div_mod_to_equations. lia.
Qed.

Lemma week_of_year_range (d : Z) : 0 <= week_of_year d <= 53.
Proof.
  unfold week_of_year. cbv zeta. pose proof (yday_bounds d).
  destruct (_is_leap (year d)); unfold weekday; Z.div_mod_to_equations; lia.
Qed.

End calendar.

(** ** The keys of the header groups *)
Section keys.
Import datetime.

Lemma differs_append (a b s s' : string) :
  differs a b = true → a +:+ s ≠ b +:+ s'.
Proof.
  revert b. induction a as [|x a IH]; intros [|y b]; simpl; try done.
  destruct (Ascii.eqb x y) eqn:E.
  - intros H Heq. injection Heq as _ Heq. by apply (IH b).
  - intros _ Heq. injection Heq as Hxy _. apply Ascii.eqb_neq in E. done.
Qed.

Lemma append_inj_r (a s s' : string) : a +:+ s = a +:+ s' → s = s'.
Proof. induction a as [|x a IH]; simpl; [done|]. intros H. injection H as H. auto. Qed.

Lemma month_names_table :
  forallb (λ m, forallb (λ m',
      Z.eqb m m'
      || differs (nth (Z.to_nat (m - 1)) month_names EmptyString +:+ " ")
                 (nth (Z.to_nat (m' - 1)) month_names EmptyString +:+ " "))
    (seqZ 1 12)) (seqZ 1 12) = true.
Proof. vm_compute. reflexivity. Qed.

Lemma append_assoc (a b c : string) : (a +:+ b) +:+ c = a +:+ b +:+ c.
Proof.
  induction a as [|x a IH]; [done|].
  change (String x ((a +:+ b) +:+ c) = String x (a +:+ b +:+ c)). by rewrite IH.
Qed.

Lemma month_name_inj (m m' : Z) (s s' : string) :
  1 <= m <= 12 -> 1 <= m' <= 12 ->
  nth (Z.to_nat (m - 1)) month_names EmptyString +:+ " " +:+ s
  = nth (Z.to_nat (m' - 1)) month_names EmptyString +:+ " " +:+ s' ->
  m = m' /\ s = s'.
Proof.
  intros Hm Hm' H. pose proof month_names_table as Ht.
  rewrite forallb_forall in Ht.
  specialize (Ht m ltac:(apply list_elem_of_In, elem_of_seqZ; lia)).
  rewrite forallb_forall in Ht.
  specialize (Ht m' ltac:(apply list_elem_of_In, elem_of_seqZ; lia)).
  apply orb_true_iff in Ht as [Ht|Ht].
  - apply Z.eqb_eq in Ht. subst m'. split; [done|].
    apply append_inj_r in H. by apply (append_inj_r " ") in H.
  - exfalso. rewrite <- !append_assoc in H. by eapply differs_append in Ht.
Qed.

Lemma strftime_B_Y_inj (d d' : Z) :
  strftime_B_Y d = strftime_B_Y d' -> year d = year d' /\ month d = month d'.
Proof.
  unfold strftime_B_Y. intros H.
  destruct (date_fields d) as (Hm & _). destruct (date_fields d') as (Hm' & _).
  apply month_name_inj in H as [H1 H2]; [|assumption..].
  split; [|assumption]. by apply (inj pretty).
Qed.

Lemma pad2_inj (n n' : Z) :
  0 <= n < 100 -> 0 <= n' < 100 -> pad2 n = pad2 n' -> n = n'.
Proof.
  intros Hn Hn'. unfold pad2. intros H. simplify_eq.
  match goal with
  | H1 : pretty_N_char _ = pretty_N_char _, H2 : pretty_N_char _ = pretty_N_char _ |- _ =>
      apply pretty_N_char_inj in H1; [|Z.div_mod_to_equations; lia..];
      apply pretty_N_char_inj in H2; [|Z.div_mod_to_equations; lia..]
  end.
  Z.div_mod_to_equations. lia.
Qed.

Lemma strftime_W_U_inj (d d' : Z) :
  strftime_W_U d = strftime_W_U d' -> week_of_year d = week_of_year d'.
Proof.
  unfold strftime_W_U. intros H. apply append_inj_r in H.
  pose proof (week_of_year_range d). pose proof (week_of_year_range d').
  apply pad2_inj; [lia..|done].
Qed.

(** The month key is constant between two days that share it. *)
Lemma strftime_B_Y_convex (a b c : Z) :
  a <= b <= c -> strftime_B_Y a = strftime_B_Y c -> strftime_B_Y b = strftime_B_Y a.
Proof.
  intros Hle H. apply strftime_B_Y_inj in H as [Hy Hm].
  pose proof (year_mono a b ltac:(lia)). pose proof (year_mono b c ltac:(lia)).
  assert (year b = year a) as Hyb by lia.
  pose proof (month_mono a b ltac:(lia) ltac:(lia)).
  pose proof (month_mono b c ltac:(lia) ltac:(lia)).
  unfold strftime_B_Y. rewrite Hyb. replace (month b) with (month a) by lia. done.
Qed.

(** Within a month, the week key is constant between two days that share
    it. *)
Lemma strftime_W_U_convex (a b c : Z) :
  strftime_B_Y a = strftime_B_Y b -> strftime_B_Y b = strftime_B_Y c ->
  a <= b <= c -> strftime_W_U a = strftime_W_U c -> strftime_W_U b = strftime_W_U a.
Proof.
  intros Hab Hbc Hle H. apply strftime_W_U_inj in H.
  apply strftime_B_Y_inj in Hab as [Hy1 _]. apply strftime_B_Y_inj in Hbc as [Hy2 _].
  pose proof (week_of_year_mono a b Hy1 ltac:(lia)).
  pose proof (week_of_year_mono b c Hy2 ltac:(lia)).
  unfold strftime_W_U. replace (week_of_year b) with (week_of_year a) by lia. done.
Qed.

End keys.

(** ** Insertion-ordered grouping *)
Section defaultdict.
Context {V : Type}.
Implicit Types (m : list (string * V)) (k : string) (f : V → V).

Lemma defaultdict_update_notin dflt f k m :
  k ∉ m.*1 → defaultdict_update dflt f k m = m ++ [(k, f dflt)].
Proof.
  induction m as [|[k' v] m IH]; simpl; [done|].
  intros Hk. apply not_elem_of_cons in Hk as [Hne Hk].
  destruct (decide (k' = k)); [congruence|]. by rewrite IH.
Qed.

Lemma defaultdict_update_app_r dflt f k m m' :
  k ∉ m.*1 → defaultdict_update dflt f k (m ++ m') = m ++ defaultdict_update dflt f k m'.
Proof.
  induction m as [|[k' v] m IH]; simpl; [done|].
  intros Hk. apply not_elem_of_cons in Hk as [Hne Hk].
  destruct (decide (k' = k)); [congruence|]. by rewrite IH.
Qed.

Lemma defaultdict_update_keys_in dflt f k m :
  k ∈ m.*1 → (defaultdict_update dflt f k m).*1 = m.*1.
Proof.
  induction m as [|[k' v] m IH]; intros Hk.
  - by apply elem_of_nil in Hk.
  - cbn [defaultdict_update]. destruct (decide (k' = k)) as [->|Hne]; [done|].
    rewrite !fmap_cons. f_equal. apply IH.
    apply elem_of_cons in Hk as [Hk|Hk]; [|done]. simpl in Hk. congruence.
Qed.

Lemma defaultdict_update_NoDup dflt f k m :
  NoDup m.*1 → NoDup (defaultdict_update dflt f k m).*1.
Proof.
  intros Hnd. destruct (decide (k ∈ m.*1)) as [Hin|Hin].
  - by rewrite defaultdict_update_keys_in.
  - rewrite defaultdict_update_notin, fmap_app by done.
    apply NoDup_app. split_and!; [done| |apply NoDup_singleton].
    intros x Hx Hx'. apply list_elem_of_singleton in Hx'. by subst.
Qed.

Lemma elem_of_defaultdict_update dflt f k m key v :
  (key, v) ∈ defaultdict_update dflt f k m →
  (key, v) ∈ m ∨ (key = k ∧ (v = f dflt ∨ ∃ v0, (k, v0) ∈ m ∧ v = f v0)).
Proof.
  induction m as [|[k' v'] m IH]; simpl.
  - intros H. apply list_elem_of_singleton in H. simplify_eq. right. by eauto.
  - destruct (decide (k' = k)) as [->|Hne]; intros H;
      apply elem_of_cons in H as [H|H].
    + simplify_eq. right. split; [done|]. right. exists v'.
      split; [apply list_elem_of_here|done].
    + left. by apply list_elem_of_further.
    + simplify_eq. left. apply list_elem_of_here.
    + destruct (IH H) as [?|(-> & [->|(v0 & ? & ->)])].
      * left. by apply list_elem_of_further.
      * right. by eauto.
      * right. split; [done|]. right. exists v0.
        split; [by apply list_elem_of_further|done].
Qed.

Lemma defaultdict_update_fmap {W : Type} (g : V → W) (f' : W → W) dflt f k m :
  (∀ v, g (f v) = f' (g v)) →
  (λ p, (p.1, g p.2)) <$> defaultdict_update dflt f k m
  = defaultdict_update (g dflt) f' k ((λ p, (p.1, g p.2)) <$> m).
Proof.
  intros Hg. induction m as [|[k' v] m IH].
  - cbn. by rewrite Hg.
  - rewrite fmap_cons. cbn [defaultdict_update fst snd].
    destruct (decide (k' = k)); rewrite fmap_cons; cbn [fst snd].
    + by rewrite Hg.
    + by rewrite IH.
Qed.

End defaultdict.

Section group_by.
Variable k : Z → string.

Lemma group_by_snoc (l : list Z) (x : Z) :
  group_by k (l ++ [x])
  = defaultdict_update [] (λ ds, ds ++ [x]) (k x) (group_by k l).
Proof. unfold group_by. by rewrite foldl_app. Qed.

(** Every group is a non-empty part of the list, made of elements that have
    the group's key. *)
Lemma group_by_groups (l : list Z) (key : string) (ds : list Z) :
  (key, ds) ∈ group_by k l →
  ds ≠ [] ∧ Forall (λ x, k x = key) ds ∧ ds `sublist_of` l.
Proof.
  revert key ds. induction l as [|x l IH] using rev_ind; intros key ds.
  - intros H. by apply elem_of_nil in H.
  - rewrite group_by_snoc. intros H.
    apply elem_of_defaultdict_update in H as [H|(-> & [->|(v0 & H & ->)])].
    + destruct (IH _ _ H) as (? & ? & ?). split_and!; [done..|].
      by apply sublist_inserts_r.
    + split_and!; [done|by repeat constructor|].
      apply (sublist_inserts_l l [x] [x]). done.
    + destruct (IH _ _ H) as (? & ? & ?). split_and!.
      * by destruct v0.
      * apply Forall_app. split; [done|]. by repeat constructor.
      * by apply sublist_app.
Qed.

Lemma group_by_NoDup (l : list Z) : NoDup (group_by k l).*1.
Proof.
  induction l as [|x l IH] using rev_ind; [constructor|].
  rewrite group_by_snoc. by apply defaultdict_update_NoDup.
Qed.

Lemma group_by_keys (l : list Z) (key : string) :
  key ∈ (group_by k l).*1 → ∃ y, y ∈ l ∧ k y = key.
Proof.
  intros H. apply list_elem_of_fmap in H as ([key' ds] & -> & H).
  destruct (group_by_groups _ _ _ H) as (Hne & Hall & Hsub).
  destruct ds as [|y ds]; [done|]. exists y. split.
  - apply (sublist_subseteq _ _ Hsub). apply list_elem_of_here.
  - by apply Forall_cons in Hall as [? _].
Qed.

(** When the key is constant between two elements that share it, the groups
    are the runs of the list, in order. *)
Section runs.
Variable D : Z → Prop.
Hypothesis k_convex :
  ∀ a b c, D a → D b → D c → a ≤ b ≤ c → k a = k c → k b = k a.

Lemma group_by_runs (l : list Z) :
  Forall D l → StronglySorted Z.le l →
  flat_map snd (group_by k l) = l
  ∧ ∀ l' x0, l = l' ++ [x0] → ∃ m0 ds, group_by k l = m0 ++ [(k x0, ds)].
Proof.
  induction l as [|x l IH] using rev_ind; intros HD Hs.
  - split; [done|]. intros l' x0 H. by destruct l'.
  - apply Forall_app in HD as [HD Hx]. rewrite Forall_singleton in Hx.
    pose proof (StronglySorted_app_1_l _ _ _ Hs) as Hs'.
    destruct (IH HD Hs') as [Hflat Hlast].
    rewrite group_by_snoc.
    destruct (decide (k x ∈ (group_by k l).*1)) as [Hin|Hin].
    + destruct (group_by_keys _ _ Hin) as (y & Hy & Hky).
      destruct l as [|x0 l' _] using rev_ind; [by apply elem_of_nil in Hy|].
      destruct (Hlast l' x0 eq_refl) as (m0 & ds & Hg).
      assert (k x0 = k x) as Hk0.
      { apply Forall_app in HD as [HD' Hx0]. rewrite Forall_singleton in Hx0.
        assert (D y).
        { apply elem_of_app in Hy as [Hy|Hy].
          - by apply (proj1 (Forall_forall _ _) HD' y).
          - apply list_elem_of_singleton in Hy. by subst. }
        assert (y ≤ x0).
        { apply elem_of_app in Hy as [Hy|Hy].
          - eapply StronglySorted_app_1_elem_of; [exact Hs'|done|].
            apply list_elem_of_here.
          - apply list_elem_of_singleton in Hy. lia. }
        assert (x0 ≤ x).
        { eapply StronglySorted_app_1_elem_of; [exact Hs| |apply list_elem_of_here].
          apply elem_of_app. right. apply list_elem_of_here. }
        rewrite <- Hky. apply (k_convex y x0 x); [done..|lia|done]. }
      pose proof (group_by_NoDup (l' ++ [x0])) as Hnd. rewrite Hg in Hnd.
      rewrite fmap_app in Hnd. apply NoDup_app in Hnd as (_ & Hnd & _).
      rewrite Hg, defaultdict_update_app_r.
      2:{ intros Hm0. apply (Hnd _ Hm0). rewrite <- Hk0. apply list_elem_of_here. }
      simpl. rewrite Hk0. destruct (decide (k x = k x)); [|done].
      split.
      * rewrite <- Hflat, Hg, !flat_map_app. simpl. by rewrite !app_nil_r, app_assoc.
      * intros l'' x1 Heq. apply app_inj_tail in Heq as [_ <-]. by eauto.
    + rewrite defaultdict_update_notin by done. split.
      * rewrite flat_map_app, Hflat. done.
      * intros l'' x1 Heq. apply app_inj_tail in Heq as [_ <-]. by eauto.
Qed.

End runs.
End group_by.

(** ** The business days and their grouping *)
Section business_days.

Lemma all_dates_seqZ (start_date end_date : Z) :
  all_dates start_date end_date = seqZ start_date (end_date - start_date + 1).
Proof.
  unfold all_dates. rewrite <- (Z.add_0_r start_date) at 2.
  by rewrite <- fmap_add_seqZ.
Qed.

Lemma StronglySorted_seqZ (m n : Z) : StronglySorted Z.le (seqZ m n).
Proof.
  destruct (Z_le_gt_dec n 0) as [Hn|Hn]; [rewrite seqZ_nil by done; constructor|].
  rewrite <- (Z2Nat.id n) by lia. generalize (Z.to_nat n). clear. intros n.
  induction n as [|n IH]; [constructor|].
  rewrite seqZ_S. apply StronglySorted_app_2; [|done|by repeat constructor].
  intros x y Hx Hy. apply elem_of_seqZ in Hx. apply list_elem_of_singleton in Hy. lia.
Qed.

Lemma StronglySorted_filter {A : Type} (R : relation A) (f : A → bool) (l : list A) :
  StronglySorted R l → StronglySorted R (List.filter f l).
Proof.
  induction 1 as [|x l Hs IH Hx]; simpl; [constructor|].
  destruct (f x); [|done]. constructor; [done|].
  apply Forall_forall. intros y Hy. apply list_elem_of_In, filter_In in Hy as [Hy _].
  apply list_elem_of_In in Hy. by eapply Forall_forall in Hx.
Qed.

Lemma weekdays_sorted (start_date end_date : Z) :
  StronglySorted Z.le (weekdays start_date end_date).
Proof.
  unfold weekdays. apply StronglySorted_filter. rewrite all_dates_seqZ.
  apply StronglySorted_seqZ.
Qed.

Lemma StronglySorted_sublist {A : Type} (R : relation A) (l l' : list A) :
  l' `sublist_of` l → StronglySorted R l → StronglySorted R l'.
Proof.
  induction 1 as [|x l1 l2 Hsub IH|x l1 l2 Hsub IH]; intros Hs.
  - constructor.
  - apply StronglySorted_cons in Hs as [Hx Hs]. constructor; [by apply IH|].
    apply Forall_forall. intros y Hy.
    eapply Forall_forall in Hx; [exact Hx|]. by apply (sublist_subseteq _ _ Hsub).
  - apply StronglySorted_cons in Hs as [_ Hs]. by apply IH.
Qed.

(** The nested dictionary groups by month, and each month by week. *)
Lemma dates_by_month_week_group_by (l : list Z) :
  dates_by_month_week l
  = (λ p, (p.1, group_by strftime_W_U p.2)) <$> group_by strftime_B_Y l.
Proof.
  induction l as [|x l IH] using rev_ind; [done|].
  rewrite group_by_snoc. unfold dates_by_month_week in *. rewrite foldl_app. simpl.
  rewrite IH.
  rewrite (defaultdict_update_fmap (group_by strftime_W_U)
             (defaultdict_update [] (λ days, days ++ [x]) (strftime_W_U x))); [done|].
  intros v. apply group_by_snoc.
Qed.

(** Read in the order of the header loops, the dictionary gives back the
    business days in chronological order. *)
Lemma dates_by_month_week_flatten (l : list Z) :
  StronglySorted Z.le l →
  flat_map (λ p, flat_map snd p.2) (dates_by_month_week l) = l.
Proof.
  intros Hs. rewrite dates_by_month_week_group_by.
  destruct (group_by_runs strftime_B_Y (λ _, True)
              (λ a b c _ _ _, strftime_B_Y_convex a b c) l) as [Hflat _];
    [by apply Forall_forall|done|].
  rewrite <- Hflat at 2.
  assert (∀ p, p ∈ group_by strftime_B_Y l →
               flat_map snd (group_by strftime_W_U p.2) = p.2) as Hin.
  { intros [key ds] Hp. simpl.
    destruct (group_by_groups _ _ _ _ Hp) as (_ & Hall & Hsub).
    destruct (group_by_runs strftime_W_U (λ x, strftime_B_Y x = key)) with (l := ds)
      as [Hds _]; [|done|by eapply StronglySorted_sublist|done].
    intros a b c Ha Hb Hc. apply strftime_W_U_convex; congruence. }
  revert Hin. generalize (group_by strftime_B_Y l). clear. intros m Hin.
  induction m as [|p m IH]; [done|].
  rewrite fmap_cons. simpl. rewrite Hin by apply list_elem_of_here. f_equal.
  apply IH. intros q Hq. apply Hin. by apply list_elem_of_further.
Qed.

(** No month and no week of the dictionary is empty. *)
Lemma dates_by_month_week_nonempty (l : list Z) :
  Forall (λ p, p.2 ≠ [] ∧ Forall (λ w, w.2 ≠ []) p.2) (dates_by_month_week l).
Proof.
  rewrite dates_by_month_week_group_by. apply Forall_forall.
  intros [key weeks] Hp. apply list_elem_of_fmap in Hp as ([key' ds] & Heq & Hp).
  simpl in Heq. simplify_eq. simpl.
  destruct (group_by_groups _ _ _ _ Hp) as (Hne & _ & _). split.
  - destruct ds as [|x ds _] using rev_ind; [done|]. rewrite group_by_snoc.
    intros Hnil. clear -Hnil.
    destruct (group_by strftime_W_U ds) as [|[k' v] m]; simpl in Hnil; [done|].
    by destruct (decide (k' = strftime_W_U x)).
  - apply Forall_forall. intros [wk days] Hw.
    by destruct (group_by_groups _ _ _ _ Hw) as (? & _ & _).
Qed.

End business_days.

(** ** The header loops *)
Section header_loops.

Lemma write_days_spec (days : list Z) (ws : worksheet) (c : Z) :
  foldl write_day (ws, c) days
  = (ws_app ws (day_cells c days) [], c + Z.of_nat (length days)).
Proof.
  revert ws c. induction days as [|d days IH]; intros ws c.
  - simpl. unfold ws_app. rewrite !app_nil_r, Z.add_0_r. by destruct ws.
  - cbn [foldl]. unfold write_day at 2. cbn [fst snd]. rewrite IH.
    unfold ws_app, ws_cell. cbn [cells merged_cells day_cells length].
    rewrite <- !app_assoc. simpl. f_equal. lia.
Qed.

Lemma write_week_spec (w : string * list Z) (ws : worksheet) (c : Z) :
  write_week (ws, c) w
  = (ws_app ws (day_cells c w.2 ++ (if 0 <? week_len w then [(2, c, w.1)] else []))
            (if 0 <? week_len w then [(2, c, 2, c + week_len w - 1)] else []),
     c + week_len w).
Proof.
  unfold write_week. rewrite write_days_spec. cbn [fst snd]. fold (week_len w).
  destruct (0 <? week_len w); unfold ws_app, ws_cell, ws_merge_cells;
    cbn [cells merged_cells]; rewrite ?app_nil_r, <- ?app_assoc; done.
Qed.

Lemma week_lens_total (weeks : list (string * list Z)) :
  foldr Z.add 0 (week_len <$> weeks) = Z.of_nat (length (flat_map snd weeks)).
Proof.
  induction weeks as [|w weeks IH]; [done|].
  rewrite fmap_cons. cbn [foldr flat_map]. rewrite IH, length_app. unfold week_len. lia.
Qed.

Lemma write_weeks_spec (weeks : list (string * list Z)) (ws : worksheet) (c : Z) :
  foldl write_week (ws, c) weeks
  = (ws_app ws (weeks_cells c weeks) (weeks_merged c weeks),
     c + Z.of_nat (length (flat_map snd weeks))).
Proof.
  revert ws c. induction weeks as [|w weeks IH]; intros ws c.
  - simpl. unfold ws_app. rewrite !app_nil_r, Z.add_0_r. by destruct ws.
  - cbn [foldl]. rewrite write_week_spec, IH.
    unfold ws_app. cbn [cells merged_cells weeks_cells weeks_merged flat_map].
    rewrite <- !app_assoc, length_app. f_equal. unfold week_len. lia.
Qed.

Lemma write_month_spec (mo : string * list (string * list Z)) (ws : worksheet) (c : Z) :
  write_month (ws, c) mo
  = (ws_app ws
       (weeks_cells c mo.2 ++ (if c + month_len mo - 1 >=? c then [(1, c, mo.1)] else []))
       (weeks_merged c mo.2
        ++ (if c + month_len mo - 1 >=? c then [(1, c, 1, c + month_len mo - 1)] else [])),
     c + month_len mo).
Proof.
  unfold write_month. rewrite write_weeks_spec. cbn [fst snd]. fold (month_len mo).
  destruct (c + month_len mo - 1 >=? c); unfold ws_app, ws_cell, ws_merge_cells;
    cbn [cells merged_cells]; rewrite ?app_nil_r, <- ?app_assoc; done.
Qed.

Lemma write_months_spec (months : list (string * list (string * list Z)))
    (ws : worksheet) (c : Z) :
  foldl write_month (ws, c) months
  = (ws_app ws (months_cells c months) (months_merged c months),
     c + Z.of_nat (length (flat_map (λ p, flat_map snd p.2) months))).
Proof.
  revert ws c. induction months as [|mo months IH]; intros ws c.
  - simpl. unfold ws_app. rewrite !app_nil_r, Z.add_0_r. by destruct ws.
  - cbn [foldl]. rewrite write_month_spec, IH.
    unfold ws_app. cbn [cells merged_cells months_cells months_merged flat_map].
    rewrite <- !app_assoc, length_app. f_equal. unfold month_len. lia.
Qed.

End header_loops.

(** ** Spans *)
Section spans.

Lemma sum_sizes_app (l1 l2 : list Z) :
  sum_sizes (l1 ++ l2) = sum_sizes l1 + sum_sizes l2.
Proof. induction l1 as [|x l1 IH]; simpl; [done|]. rewrite IH. lia. Qed.

Lemma sum_sizes_nonneg (l : list Z) : Forall (λ n, 0 < n) l → 0 <= sum_sizes l.
Proof. induction 1; simpl; lia. Qed.

Lemma spans_app (c : Z) (l1 l2 : list Z) :
  spans c (l1 ++ l2) = spans c l1 ++ spans (c + sum_sizes l1) l2.
Proof.
  revert c. induction l1 as [|n l1 IH]; intros c; simpl.
  - by rewrite Z.add_0_r.
  - rewrite IH. do 3 f_equal. lia.
Qed.

Lemma spans_columns (c : Z) (sizes : list Z) :
  Forall (λ n, 0 < n) sizes →
  flat_map span_columns (spans c sizes) = seqZ c (sum_sizes sizes).
Proof.
  intros H. revert c. induction H as [|n sizes Hn Hs IH]; intros c; simpl.
  - by rewrite seqZ_nil.
  - rewrite IH. unfold span_columns. simpl.
    pose proof (sum_sizes_nonneg _ Hs).
    rewrite (seqZ_app c n (sum_sizes sizes)) by lia. do 2 f_equal. lia.
Qed.

Lemma spans_bounds (c : Z) (sizes : list Z) (s : Z * Z) :
  Forall (λ n, 0 < n) sizes → s ∈ spans c sizes →
  c <= s.1 ∧ s.1 <= s.2 ∧ s.2 < c + sum_sizes sizes.
Proof.
  intros H. revert c. induction H as [|n sizes Hn Hs IH]; intros c; simpl.
  - intros Hin. by apply elem_of_nil in Hin.
  - pose proof (sum_sizes_nonneg _ Hs). intros Hin.
    apply elem_of_cons in Hin as [->|Hin]; simpl; [lia|].
    apply IH in Hin. lia.
Qed.

Lemma filter_within_none (outer : Z * Z) (l : list (Z * Z)) :
  (∀ s, s ∈ l → within outer s = false) → List.filter (within outer) l = [].
Proof.
  induction l as [|s l IH]; intros H; simpl; [done|].
  rewrite (H s) by apply list_elem_of_here. apply IH.
  intros s' Hs'. apply H. by apply list_elem_of_further.
Qed.

Lemma filter_within_all (outer : Z * Z) (l : list (Z * Z)) :
  (∀ s, s ∈ l → within outer s = true) → List.filter (within outer) l = l.
Proof.
  induction l as [|s l IH]; intros H; simpl; [done|].
  rewrite (H s) by apply list_elem_of_here. f_equal. apply IH.
  intros s' Hs'. apply H. by apply list_elem_of_further.
Qed.

(** Among consecutive spans, those within the stretch covered by a middle
    part are the spans of that part. *)
Lemma filter_within_spans (c : Z) (pre mid post : list Z) :
  Forall (λ n, 0 < n) pre → Forall (λ n, 0 < n) mid → Forall (λ n, 0 < n) post →
  let s := c + sum_sizes pre in
  List.filter (within (s, s + sum_sizes mid - 1)) (spans c (pre ++ mid ++ post))
  = spans s mid.
Proof.
  intros Hpre Hmid Hpost s. rewrite !spans_app, !List.filter_app.
  rewrite filter_within_none, filter_within_all, filter_within_none.
  - by rewrite app_nil_r.
  - intros sp Hsp. apply spans_bounds in Hsp; [|done]. unfold within. simpl.
    apply andb_false_iff. right. apply Z.leb_gt. subst s. lia.
  - intros sp Hsp. apply spans_bounds in Hsp; [|done]. unfold within. simpl.
    apply andb_true_iff. split; apply Z.leb_le; subst s; lia.
  - intros sp Hsp. apply spans_bounds in Hsp; [|done]. unfold within. simpl.
    apply andb_false_iff. left. apply Z.leb_gt. subst s. lia.
Qed.

Lemma elem_of_spans (c : Z) (sizes : list Z) (s : Z * Z) :
  s ∈ spans c sizes →
  ∃ pre n post, sizes = pre ++ n :: post
                ∧ s = (c + sum_sizes pre, c + sum_sizes pre + n - 1).
Proof.
  revert c. induction sizes as [|n sizes IH]; intros c Hin; simpl in Hin.
  - by apply elem_of_nil in Hin.
  - apply elem_of_cons in Hin as [->|Hin].
    + exists [], n, sizes. simpl. split; [done|]. f_equal; lia.
    + destruct (IH _ Hin) as (pre & n' & post & -> & ->).
      exists (n :: pre), n', post. simpl. split; [done|]. f_equal; lia.
Qed.

End spans.

(** ** The header as a function of the dictionary *)
Section header_plan.

Lemma week_len_pos (weeks : list (string * list Z)) :
  Forall (λ w, w.2 ≠ []) weeks → Forall (λ n, 0 < n) (week_len <$> weeks).
Proof.
  intros H. apply Forall_fmap. eapply Forall_impl; [exact H|].
  intros [wk days] Hne. unfold week_len. simpl in *. destruct days; [done|]. simpl. lia.
Qed.

Lemma month_len_sum (mo : string * list (string * list Z)) :
  month_len mo = sum_sizes (week_len <$> mo.2).
Proof. unfold month_len, sum_sizes. by rewrite week_lens_total. Qed.

Lemma month_len_pos (months : list (string * list (string * list Z))) :
  nonempty_groups months → Forall (λ n, 0 < n) (month_len <$> months).
Proof.
  intros H. apply Forall_fmap. eapply Forall_impl; [exact H|].
  intros [mk weeks] [Hne Hw]. unfold month_len. simpl in *.
  destruct weeks as [|[wk days] weeks]; [done|]. apply Forall_cons in Hw as [Hd _].
  simpl in *. destruct days; [done|]. simpl. lia.
Qed.

Lemma weeks_merged_row1 (c : Z) (weeks : list (string * list Z)) :
  omap (span_in_row 1) (weeks_merged c weeks) = [].
Proof.
  revert c. induction weeks as [|w weeks IH]; intros c; [done|].
  cbn [weeks_merged]. rewrite omap_app, IH. by destruct (0 <? week_len w).
Qed.

Lemma weeks_merged_row2 (c : Z) (weeks : list (string * list Z)) :
  Forall (λ w, w.2 ≠ []) weeks →
  omap (span_in_row 2) (weeks_merged c weeks) = spans c (week_len <$> weeks).
Proof.
  intros H. revert c. induction H as [|w weeks Hw Hws IH]; intros c; [done|].
  cbn [weeks_merged]. rewrite omap_app, IH, fmap_cons.
  assert (0 < week_len w) as Hpos.
  { unfold week_len. destruct w as [? [|]]; simpl in *; [done|lia]. }
  apply Z.ltb_lt in Hpos. by rewrite Hpos.
Qed.

Lemma months_merged_row1 (c : Z) (months : list (string * list (string * list Z))) :
  nonempty_groups months →
  omap (span_in_row 1) (months_merged c months) = spans c (month_len <$> months).
Proof.
  intros H. pose proof (month_len_pos _ H) as Hpos. revert c.
  induction months as [|mo months IH]; intros c; [done|].
  rewrite fmap_cons in Hpos. apply Forall_cons in Hpos as [Hmo Hpos].
  apply Forall_cons in H as [_ H].
  cbn [months_merged]. rewrite !omap_app, weeks_merged_row1, (IH H Hpos), fmap_cons.
  assert ((c + month_len mo - 1 >=? c) = true) as -> by (apply Z.geb_le; lia).
  done.
Qed.

Lemma months_merged_row2 (c : Z) (months : list (string * list (string * list Z))) :
  nonempty_groups months →
  omap (span_in_row 2) (months_merged c months)
  = spans c (flat_map (λ mo, week_len <$> mo.2) months).
Proof.
  intros H. revert c.
  induction H as [|mo months [_ Hw] H IH]; intros c; [done|].
  cbn [months_merged flat_map]. rewrite !omap_app, weeks_merged_row2, IH by done.
  rewrite spans_app, <- month_len_sum. by destruct (c + month_len mo - 1 >=? c).
Qed.

Lemma day_cells_row3 (c : Z) (days : list Z) :
  omap (cell_in_row 3) (day_cells c days)
  = imap (λ i d, (c + Z.of_nat i, strftime_a_d d)) days.
Proof.
  revert c. induction days as [|d days IH]; intros c; [done|].
  cbn [day_cells omap list_omap cell_in_row]. simpl (3 =? 3). cbn [imap].
  rewrite IH, Z.add_0_r. f_equal. apply imap_ext. intros i x _. simpl. f_equal. lia.
Qed.

Lemma weeks_cells_row3 (c : Z) (weeks : list (string * list Z)) :
  omap (cell_in_row 3) (weeks_cells c weeks)
  = imap (λ i d, (c + Z.of_nat i, strftime_a_d d)) (flat_map snd weeks).
Proof.
  revert c. induction weeks as [|w weeks IH]; intros c; [done|].
  cbn [weeks_cells flat_map]. rewrite !omap_app, day_cells_row3, IH, imap_app.
  assert (omap (cell_in_row 3) (if 0 <? week_len w then [(2, c, w.1)] else []) = [])
    as -> by (by destruct (0 <? week_len w)).
  simpl. f_equal. apply imap_ext. intros i x _. simpl. f_equal.
  unfold week_len. lia.
Qed.

Lemma months_cells_row3 (c : Z) (months : list (string * list (string * list Z))) :
  omap (cell_in_row 3) (months_cells c months)
  = imap (λ i d, (c + Z.of_nat i, strftime_a_d d))
         (flat_map (λ p, flat_map snd p.2) months).
Proof.
  revert c. induction months as [|mo months IH]; intros c; [done|].
  cbn [months_cells flat_map]. rewrite !omap_app, weeks_cells_row3, IH, imap_app.
  assert (omap (cell_in_row 3)
            (if c + month_len mo - 1 >=? c then [(1, c, mo.1)] else []) = [])
    as -> by (by destruct (c + month_len mo - 1 >=? c)).
  simpl. f_equal. apply imap_ext. intros i x _. simpl. f_equal.
  unfold month_len. lia.
Qed.

Lemma month_lens_total (months : list (string * list (string * list Z))) :
  sum_sizes (month_len <$> months)
  = Z.of_nat (length (flat_map (λ p, flat_map snd p.2) months)).
Proof.
  induction months as [|mo months IH]; [done|].
  rewrite fmap_cons. cbn [sum_sizes foldr flat_map]. fold (sum_sizes (month_len <$> months)).
  rewrite IH, length_app. unfold month_len. lia.
Qed.

Lemma week_lens_months_total (months : list (string * list (string * list Z))) :
  sum_sizes (flat_map (λ mo, week_len <$> mo.2) months)
  = Z.of_nat (length (flat_map (λ p, flat_map snd p.2) months)).
Proof.
  induction months as [|mo months IH]; [done|].
  cbn [flat_map]. rewrite sum_sizes_app, IH, length_app, <- month_len_sum.
  unfold month_len. lia.
Qed.

Lemma week_lens_months_pos (months : list (string * list (string * list Z))) :
  nonempty_groups months →
  Forall (λ n, 0 < n) (flat_map (λ mo, week_len <$> mo.2) months).
Proof.
  induction 1 as [|mo months [_ Hw] H IH]; [constructor|].
  cbn [flat_map]. apply Forall_app. split; [by apply week_len_pos|done].
Qed.

(** The header, as a function of the business days. *)
Lemma generate_excel_header_eq (start_date end_date : Z) :
  generate_excel_header start_date end_date
  = (ws_app {| cells := [(3, 1, "Employee")]; merged_cells := [] |}
       (months_cells 2 (dates_by_month_week (weekdays start_date end_date)))
       (months_merged 2 (dates_by_month_week (weekdays start_date end_date))),
     2 + Z.of_nat (length (weekdays start_date end_date))).
Proof.
  unfold generate_excel_header. rewrite write_months_spec.
  by rewrite dates_by_month_week_flatten by apply weekdays_sorted.
Qed.

End header_plan.

(** ** The grid layout *)

(** C3.  The grid has one column per Monday-to-Friday date of the inclusive
    range [[start_date, end_date]]: [current_col] ends at 2 plus their number
    and the day headers of row 3 fill exactly the columns from 2 on, one
    each.  A range without such a date gives no column, no merged range and
    no header cell besides the ["Employee"] label; the layout is a total
    function, so nothing is raised. *)
Theorem grid_columns_count (start_date end_date : Z) :
  let st := generate_excel_header start_date end_date in
  let n := Z.of_nat (length (List.filter (λ d, datetime.weekday d <? 5)
                               (seqZ start_date (end_date - start_date + 1)))) in
  st.2 = 2 + n
  ∧ (row_cells 3 st.1).*1 = 1 :: seqZ 2 n
  ∧ (n = 0 →
     st = ({| cells := [(3, 1, "Employee")]; merged_cells := [] |}, 2)
     ∧ row_spans 1 st.1 = [] ∧ row_spans 2 st.1 = []).
Proof.
  intros st n. subst st. rewrite generate_excel_header_eq. cbn [fst snd].
  assert (n = Z.of_nat (length (weekdays start_date end_date))) as Hn.
  { subst n. unfold weekdays. by rewrite all_dates_seqZ. }
  split; [by rewrite Hn|]. split.
  - unfold row_cells, ws_app. cbn [cells]. rewrite omap_app, months_cells_row3.
    rewrite dates_by_month_week_flatten by apply weekdays_sorted.
    rewrite fmap_app. simpl. f_equal. rewrite Hn.
    generalize (weekdays start_date end_date). generalize 2. clear.
    intros c l. revert c. induction l as [|d l IH]; intros c; [done|].
    rewrite seqZ_cons by (simpl; lia). cbn [imap fmap list_fmap fst]. f_equal; [lia|].
    replace (Z.pred (Z.of_nat (length (d :: l)))) with (Z.of_nat (length l))
      by (simpl; lia).
    rewrite <- IH. f_equal. apply imap_ext. intros i x _. simpl. f_equal. lia.
  - intros H0. rewrite Hn in H0.
    assert (weekdays start_date end_date = []) as ->
      by (destruct (weekdays start_date end_date); [done|simpl in H0; lia]).
    done.
Qed.

(** C4.  The merged ranges of the month row and of the week row tile the
    column axis [2, 2 + n): their columns, read in merging order, are the
    columns of the grid in increasing order, each once, so no two spans of a
    row overlap and none leaves a gap; every span is non-empty; the week
    spans lying within a month span, read in order, are exactly the columns
    of that month span; and the day headers follow the business days in
    chronological order, the i-th of them at column 2 + i. *)
Theorem header_spans_tile (start_date end_date : Z) :
  let ws := (generate_excel_header start_date end_date).1 in
  let days := weekdays start_date end_date in
  let n := Z.of_nat (length days) in
  flat_map span_columns (row_spans 1 ws) = seqZ 2 n
  ∧ flat_map span_columns (row_spans 2 ws) = seqZ 2 n
  ∧ NoDup (flat_map span_columns (row_spans 1 ws))
  ∧ NoDup (flat_map span_columns (row_spans 2 ws))
  ∧ (∀ s, s ∈ row_spans 1 ws ∨ s ∈ row_spans 2 ws → s.1 <= s.2)
  ∧ (∀ mo, mo ∈ row_spans 1 ws →
       flat_map span_columns (List.filter (within mo) (row_spans 2 ws))
       = span_columns mo)
  ∧ row_cells 3 ws
    = (1, "Employee") :: imap (λ i d, (2 + Z.of_nat i, strftime_a_d d)) days
  ∧ StronglySorted Z.lt days.
Proof.
  intros ws days n. subst ws. rewrite generate_excel_header_eq. cbn [fst].
  fold days. pose proof (dates_by_month_week_nonempty days) as Hne.
  pose proof (dates_by_month_week_flatten days (weekdays_sorted _ _)) as Hflat.
  unfold row_spans, row_cells, ws_app. cbn [cells merged_cells app omap list_omap].
  rewrite months_merged_row1, months_merged_row2 by done.
  set (M := dates_by_month_week days) in *.
  pose proof (month_len_pos M Hne) as Hmpos.
  pose proof (week_lens_months_pos M Hne) as Hwpos.
  assert (flat_map span_columns (spans 2 (month_len <$> M)) = seqZ 2 n) as H1.
  { rewrite spans_columns by done. by rewrite month_lens_total, Hflat. }
  assert (flat_map span_columns (spans 2 (flat_map (λ mo, week_len <$> mo.2) M))
          = seqZ 2 n) as H2.
  { rewrite spans_columns by done. by rewrite week_lens_months_total, Hflat. }
  split_and!.
  - exact H1.
  - exact H2.
  - rewrite H1. apply NoDup_seqZ.
  - rewrite H2. apply NoDup_seqZ.
  - intros s [Hs|Hs]; eapply spans_bounds in Hs; try done; lia.
  - intros mo Hmo. apply elem_of_spans in Hmo as (pre & len & post & Heq & ->).
    apply fmap_app_inv in Heq as (M1 & M2' & -> & Hpre & ->).
    destruct M2' as [|m M2]; [done|]. rewrite fmap_cons in Hpre. simplify_eq.
    rewrite flat_map_app in *. cbn [flat_map] in *.
    rewrite !fmap_app, fmap_cons in Hmpos.
    apply Forall_app in Hmpos as [Hp1 Hp2]. apply Forall_cons in Hp2 as [Hp2 Hp3].
    apply Forall_app in Hwpos as [Hw1 Hw2]. apply Forall_app in Hw2 as [Hw2 Hw3].
    assert (sum_sizes (month_len <$> M1)
            = sum_sizes (flat_map (λ mo, week_len <$> mo.2) M1)) as Hs1
      by (by rewrite month_lens_total, week_lens_months_total).
    rewrite Hs1, (month_len_sum m).
    rewrite (filter_within_spans 2 _ (week_len <$> m.2)) by done.
    rewrite spans_columns by done. unfold span_columns. cbn [fst snd].
    f_equal. lia.
  - rewrite months_cells_row3. by rewrite Hflat.
  - subst days. unfold weekdays. apply StronglySorted_filter.
    rewrite all_dates_seqZ. clear.
    generalize (end_date - start_date + 1). intros len.
    destruct (Z_le_gt_dec len 0) as [Hn|Hn]; [rewrite seqZ_nil by done; constructor|].
    rewrite <- (Z2Nat.id len) by lia. generalize (Z.to_nat len). clear. intros n.
    induction n as [|n IH]; [constructor|].
    rewrite seqZ_S. apply StronglySorted_app_2; [|done|by repeat constructor].
    intros x y Hx Hy. apply elem_of_seqZ in Hx. apply list_elem_of_singleton in Hy. lia.
Qed.

(** ** Step 8: the status matrix *)
Section status_matrix.
Implicit Types (pd : gmap string (gmap Z string)) (cell : gmap Z string).
Implicit Types (emp : Employee.t) (employees : list Employee.t).

Lemma foldl_ext {A B : Type} (f g : A → B → A) (l : list B) (a : A) :
  (∀ a b, f a b = g a b) → foldl f a l = foldl g a l.
Proof.
  intros H. revert a. induction l as [|b l IH]; intros a; simpl; [done|].
  by rewrite H, IH.
Qed.

Lemma mark_lookup (code : string) (days : list Z) cell (d : Z) :
  mark code days cell !! d = if decide (d ∈ days) then Some code else cell !! d.
Proof.
  unfold mark. revert cell. induction days as [|x days IH]; intros cell; cbn [foldl].
  - case_decide as H; [by apply elem_of_nil in H|done].
  - rewrite IH. destruct (decide (d ∈ days)) as [Hin|Hin].
    + by rewrite decide_True by (by apply list_elem_of_further).
    + destruct (decide (d = x)) as [->|Hne].
      * rewrite lookup_insert_eq. by rewrite decide_True by apply list_elem_of_here.
      * rewrite lookup_insert_ne by done.
        rewrite decide_False; [done|]. intros H. apply elem_of_cons in H as [?|?]; done.
Qed.

Lemma cell_writes_lookup emp cell (d : Z) :
  cell_writes emp cell !! d
  = match status_of emp d with Some c => Some c | None => cell !! d end.
Proof.
  unfold cell_writes, status_of. rewrite !mark_lookup.
  by repeat case_decide.
Qed.

Lemma set_status_fold (name code : string) (days : list Z) pd :
  foldl (set_status name code) pd days = alter (mark code days) name pd.
Proof.
  revert pd. induction days as [|d days IH]; intros pd; simpl.
  - apply map_eq. intros n. rewrite lookup_alter. case_decide; [|done].
    subst. by destruct (pd !! n).
  - rewrite IH. unfold set_status. rewrite alter_alter_eq. by apply alter_ext.
Qed.

Lemma write_employee_alter pd emp :
  write_employee pd emp = alter (cell_writes emp) (Employee.name emp) pd.
Proof.
  unfold write_employee, cell_writes. cbv zeta.
  rewrite !set_status_fold, !alter_alter_eq. by apply alter_ext.
Qed.

Lemma init_lookup employees (n : string) (m0 : gmap string (gmap Z string)) :
  foldl (λ m emp, <[Employee.name emp := ∅]> m) m0 employees !! n
  = if decide (n ∈ Employee.name <$> employees) then Some ∅ else m0 !! n.
Proof.
  revert m0. induction employees as [|e employees IH]; intros m0; cbn [foldl].
  - rewrite fmap_nil. case_decide as H; [by apply elem_of_nil in H|done].
  - rewrite IH, fmap_cons.
    destruct (decide (n ∈ Employee.name <$> employees)) as [Hin|Hin].
    + by rewrite decide_True by (by apply list_elem_of_further).
    + destruct (decide (n = Employee.name e)) as [->|Hne].
      * rewrite lookup_insert_eq. by rewrite decide_True by apply list_elem_of_here.
      * rewrite lookup_insert_ne by done.
        rewrite decide_False; [done|]. intros H. apply elem_of_cons in H as [?|?]; done.
Qed.

(** One pass of writes over the employees, seen from one name. *)
Lemma pass_lookup (f : Employee.t → gmap Z string → gmap Z string) employees pd (n : string) :
  foldl (λ m emp, alter (f emp) (Employee.name emp) m) pd employees !! n
  = (λ cell, foldl (λ c emp, if decide (Employee.name emp = n) then f emp c else c)
                   cell employees) <$> pd !! n.
Proof.
  revert pd. induction employees as [|e employees IH]; intros pd; cbn [foldl].
  - by destruct (pd !! n).
  - rewrite IH, lookup_alter. destruct (decide (Employee.name e = n)) as [->|Hne]; [|done].
    by destruct (pd !! n).
Qed.

Lemma build_processed_data_lookup employees (n : string) :
  build_processed_data employees !! n
  = if decide (n ∈ Employee.name <$> employees)
    then Some (foldl (λ c emp, if decide (Employee.name emp = n)
                               then cell_writes emp c else c) ∅ employees)
    else None.
Proof.
  unfold build_processed_data. cbv zeta.
  rewrite (foldl_ext _ (λ m emp, alter (cell_writes emp) (Employee.name emp) m) employees)
    by (intros; apply write_employee_alter).
  rewrite pass_lookup, init_lookup, lookup_empty. by case_decide.
Qed.

(** The status of a day for a name: the last employee of that name with a
    status for the day decides. *)
Lemma fold_cell_lookup employees (n : string) (d : Z) cell :
  foldl (λ c emp, if decide (Employee.name emp = n) then cell_writes emp c else c)
        cell employees !! d
  = foldl (λ acc emp, if decide (Employee.name emp = n)
                      then match status_of emp d with Some c => Some c | None => acc end
                      else acc)
          (cell !! d) employees.
Proof.
  revert cell. induction employees as [|e employees IH]; intros cell; simpl; [done|].
  rewrite IH. case_decide; [|done]. by rewrite cell_writes_lookup.
Qed.

Lemma fold_unique (f : Employee.t → gmap Z string → gmap Z string)
    employees (i : nat) emp cell :
  NoDup (Employee.name <$> employees) → employees !! i = Some emp →
  foldl (λ c e, if decide (Employee.name e = Employee.name emp) then f e c else c)
        cell employees
  = f emp cell.
Proof.
  intros Hnd Hi.
  assert (∀ l, Employee.name emp ∉ Employee.name <$> l →
               ∀ c, foldl (λ c e, if decide (Employee.name e = Employee.name emp)
                                  then f e c else c) c l = c) as Hskip.
  { induction l as [|e l IH]; intros Hn c; simpl; [done|].
    rewrite fmap_cons in Hn. apply not_elem_of_cons in Hn as [Hne Hn].
    rewrite decide_False by done. by apply IH. }
  rewrite <- (take_drop_middle _ _ _ Hi) in Hnd |- *.
  rewrite fmap_app, fmap_cons in Hnd. apply NoDup_app in Hnd as (_ & Hl & Hr).
  apply NoDup_cons in Hr as [Hr _].
  rewrite foldl_app. simpl. rewrite decide_True by done.
  rewrite Hskip, Hskip; [done|..].
  - intros H. apply (Hl _ H). apply list_elem_of_here.
  - done.
Qed.

Lemma status_at_unique employees (i : nat) emp (d : Z) :
  NoDup (Employee.name <$> employees) → employees !! i = Some emp →
  status_at (build_processed_data employees) (Employee.name emp) d = status_of emp d.
Proof.
  intros Hnd Hi. unfold status_at. rewrite build_processed_data_lookup.
  rewrite decide_True.
  2:{ apply list_elem_of_fmap. exists emp. split; [done|].
      by eapply list_elem_of_lookup_2. }
  simpl. rewrite (fold_unique cell_writes _ i) by done.
  rewrite cell_writes_lookup, lookup_empty. by destruct (status_of emp d).
Qed.

Lemma three_pass_lookup employees (n : string) :
  three_pass employees !! n
  = if decide (n ∈ Employee.name <$> employees)
    then Some (foldl (λ c emp, if decide (Employee.name emp = n)
                               then mark "H" (Employee.Holiday emp) c else c)
              (foldl (λ c emp, if decide (Employee.name emp = n)
                               then mark "T" (Employee.Travel emp) c else c)
              (foldl (λ c emp, if decide (Employee.name emp = n)
                               then mark "P" (Employee.PTO emp) c else c)
                     ∅ employees) employees) employees)
    else None.
Proof.
  unfold three_pass. cbv zeta.
  rewrite (foldl_ext _ (λ m emp, alter (mark "H" (Employee.Holiday emp)) (Employee.name emp) m) employees)
    by (intros; apply set_status_fold).
  rewrite pass_lookup.
  rewrite (foldl_ext _ (λ m emp, alter (mark "T" (Employee.Travel emp)) (Employee.name emp) m) employees)
    by (intros; apply set_status_fold).
  rewrite pass_lookup.
  rewrite (foldl_ext _ (λ m emp, alter (mark "P" (Employee.PTO emp)) (Employee.name emp) m) employees)
    by (intros; apply set_status_fold).
  rewrite pass_lookup, init_lookup, lookup_empty. by case_decide.
Qed.

(** With unique names, the employee-by-employee order of step 8 and the
    pass-by-pass order of the specification give the same matrix. *)
Lemma build_three_pass employees :
  NoDup (Employee.name <$> employees) →
  build_processed_data employees = three_pass employees.
Proof.
  intros Hnd. apply map_eq. intros n.
  rewrite build_processed_data_lookup, three_pass_lookup.
  case_decide as Hin; [|done]. f_equal.
  apply list_elem_of_fmap in Hin as (emp & -> & Hemp).
  apply list_elem_of_lookup in Hemp as [i Hi].
  rewrite (fold_unique cell_writes _ i emp) by done.
  rewrite (fold_unique (λ e, mark "P" (Employee.PTO e)) _ i emp) by done.
  rewrite (fold_unique (λ e, mark "T" (Employee.Travel e)) _ i emp) by done.
  rewrite (fold_unique (λ e, mark "H" (Employee.Holiday e)) _ i emp) by done.
  done.
Qed.

End status_matrix.

(** ** Step 6: association *)
Section association.
Variable m : gmap string (list string).

Lemma associate_event_fst (st : list Event.t * gset string) (ev : Event.t) :
  (associate_event m st ev).1 = st.1 ++ [with_employee m ev].
Proof.
  unfold associate_event, with_employee. by destruct (m !! Event.name ev).
Qed.

Lemma associate_fold_fst (evs : list Event.t) (st : list Event.t * gset string) :
  (foldl (associate_event m) st evs).1 = st.1 ++ (with_employee m <$> evs).
Proof.
  revert st. induction evs as [|ev evs IH]; intros st; simpl.
  - by rewrite app_nil_r.
  - rewrite IH, associate_event_fst, <- app_assoc. done.
Qed.

Lemma associate_fold_snd (evs : list Event.t) (st : list Event.t * gset string)
    (n : string) :
  n ∈ (foldl (associate_event m) st evs).2
  ↔ n ∈ st.2 ∨ ∃ ev, ev ∈ evs ∧ Event.name ev = n ∧ m !! n = None.
Proof.
  revert st. induction evs as [|ev evs IH]; intros st; simpl.
  - split; [by left|]. intros [?|(ev & H & _)]; [done|]. by apply elem_of_nil in H.
  - rewrite IH. unfold associate_event at 1.
    destruct (m !! Event.name ev) eqn:E; simpl.
    + split.
      * intros [?|(ev' & ? & ? & ?)]; [by left|]. right. exists ev'.
        split; [by apply list_elem_of_further|done].
      * intros [?|(ev' & Hin & Hn & Hm)]; [by left|].
        apply elem_of_cons in Hin as [->|Hin]; [congruence|]. right. by exists ev'.
    + rewrite elem_of_union, elem_of_singleton. split.
      * intros [[->|?]|(ev' & ? & ? & ?)].
        -- right. exists ev. split; [apply list_elem_of_here|done].
        -- by left.
        -- right. exists ev'. split; [by apply list_elem_of_further|done].
      * intros [?|(ev' & Hin & Hn & Hm)]; [by left; right|].
        apply elem_of_cons in Hin as [->|Hin]; [by left; left|]. right. by exists ev'.
Qed.

Lemma associate_fst (evs : list Event.t) :
  (associate m evs).1 = with_employee m <$> evs.
Proof. unfold associate. by rewrite associate_fold_fst. Qed.

Lemma associate_snd (evs : list Event.t) (n : string) :
  n ∈ (associate m evs).2 ↔ (∃ ev, ev ∈ evs ∧ Event.name ev = n) ∧ m !! n = None.
Proof.
  unfold associate. rewrite associate_fold_snd. simpl. split.
  - intros [H|(ev & ? & ? & ?)]; [by apply not_elem_of_empty in H|]. by eauto.
  - intros [(ev & ? & ?) ?]. right. by exists ev.
Qed.

End association.

(** ** Step 7: the date lists *)
Section date_lists.
Variable emap : gmap string nat.

Lemma imap_imap {A B C : Type} (f : nat → B → C) (g : nat → A → B) (l : list A) :
  imap f (imap g l) = imap (λ i x, f i (g i x)) l.
Proof.
  apply list_eq. intros i. rewrite !list_lookup_imap. by destruct (l !! i).
Qed.

Lemma alter_imap {A : Type} (f : A → A) (j : nat) (l : list A) :
  alter f j l = imap (λ i x, if decide (j = i) then f x else x) l.
Proof.
  apply list_eq. intros i. rewrite list_lookup_imap, list_lookup_alter.
  case_decide; [subst|]; by destruct (l !! i).
Qed.

Lemma imap_id {A : Type} (l : list A) : imap (λ _ x, x) l = l.
Proof. apply list_eq. intros i. rewrite list_lookup_imap. by destruct (l !! i). Qed.

Lemma apply_target_imap (ev : Event.t) (emps : list Employee.t) (tok : string) :
  apply_target emap ev emps tok = imap (target_effect emap ev tok) emps.
Proof.
  unfold apply_target.
  destruct (decide (tok = "_HOLIDAY_US")) as [Hus|Hus].
  { rewrite <- imap_const. apply imap_ext. intros i e _. unfold target_effect.
    by rewrite decide_True by done. }
  destruct (decide (tok = "_HOLIDAY_FRANCE")) as [Hfr|Hfr].
  { rewrite <- imap_const. apply imap_ext. intros i e _. unfold target_effect.
    by rewrite decide_False, decide_True by done. }
  destruct (decide (tok = "_HOLIDAY_COMPANY")) as [Hco|Hco].
  { rewrite <- imap_const. apply imap_ext. intros i e _. unfold target_effect.
    by rewrite !decide_False, decide_True by done. }
  unfold target_effect.
  assert (∀ i e, (if decide (tok = "_HOLIDAY_US") then
                    if decide (Employee.location e = "US")
                    then extend_Holiday (event_dates ev) e else e
                  else if decide (tok = "_HOLIDAY_FRANCE") then
                    if decide (Employee.location e = "France")
                    then extend_Holiday (event_dates ev) e else e
                  else if decide (tok = "_HOLIDAY_COMPANY") then
                    extend_Holiday (event_dates ev) e
                  else match emap !! tok with
                       | Some j =>
                           if decide (j = i) then
                             if decide (Event.type ev = "P")
                             then extend_PTO (event_dates ev) e
                             else if decide (Event.type ev = "T")
                                  then extend_Travel (event_dates ev) e else e
                           else e
                       | None => e
                       end)
                 = match emap !! tok with
                   | Some j =>
                       if decide (j = i) then
                         if decide (Event.type ev = "P")
                         then extend_PTO (event_dates ev) e
                         else if decide (Event.type ev = "T")
                              then extend_Travel (event_dates ev) e else e
                       else e
                   | None => e
                   end) as Heq.
  { intros i e. by rewrite !decide_False by done. }
  rewrite (imap_ext _ _ _ (λ i e _, Heq i e)).
  destruct (emap !! tok) as [j|]; [|by rewrite imap_id].
  destruct (decide (Event.type ev = "P")).
  { rewrite alter_imap. done. }
  destruct (decide (Event.type ev = "T")).
  { rewrite alter_imap. done. }
  rewrite <- (imap_id emps) at 1. apply imap_ext. intros i e _. simpl.
  by destruct (decide (j = i)).
Qed.

Lemma process_event_imap (ev : Event.t) (emps : list Employee.t) :
  process_event emap emps ev = imap (event_effect emap ev) emps.
Proof.
  unfold process_event, event_effect.
  assert (∀ toks, foldl (apply_target emap ev) emps toks
                  = imap (λ i e, foldl (λ e tok, target_effect emap ev tok i e) e toks) emps)
    as Hfold.
  { intros toks. revert emps. induction toks as [|tok toks IH]; intros emps; simpl.
    - by rewrite imap_id.
    - rewrite IH, apply_target_imap, imap_imap. done. }
  destruct (Event.employee ev) as [|tok toks] eqn:E.
  - simpl. by rewrite imap_id.
  - apply Hfold.
Qed.

Lemma process_events_imap (evs : list Event.t) (emps : list Employee.t) :
  foldl (process_event emap) emps evs = imap (final_employee emap evs) emps.
Proof.
  unfold final_employee. revert emps. induction evs as [|ev evs IH]; intros emps; simpl.
  - by rewrite imap_id.
  - rewrite IH, process_event_imap, imap_imap. done.
Qed.

End date_lists.

Lemma populate_imap (emps : list Employee.t) (evs : list Event.t) :
  populate_lists emps evs
  = imap (λ i e, final_employee (employee_map (reset_lists <$> emps)) evs i (reset_lists e))
         emps.
Proof.
  unfold populate_lists. cbv zeta. rewrite process_events_imap, imap_fmap. done.
Qed.

Section date_list_members.
Variable emap : gmap string nat.

Lemma elem_of_event_dates (ev : Event.t) (d : Z) :
  d ∈ event_dates ev ↔ Event.start_date ev <= d < Event.end_date ev.
Proof.
  unfold event_dates. rewrite list_elem_of_fmap. split.
  - intros (i & -> & Hi). apply elem_of_seqZ in Hi. lia.
  - intros H. exists (d - Event.start_date ev). split; [lia|].
    apply elem_of_seqZ. lia.
Qed.

Lemma target_effect_name (ev : Event.t) (tok : string) (i : nat) (e : Employee.t) :
  Employee.name (target_effect emap ev tok i e) = Employee.name e
  ∧ Employee.location (target_effect emap ev tok i e) = Employee.location e.
Proof.
  unfold target_effect.
  repeat match goal with
         | |- context [decide ?P] => destruct (decide P)
         | |- context [emap !! tok] => destruct (emap !! tok)
         end; done.
Qed.

Lemma target_effect_Holiday (ev : Event.t) (tok : string) (i : nat) (e : Employee.t) (d : Z) :
  d ∈ Employee.Holiday (target_effect emap ev tok i e)
  ↔ d ∈ Employee.Holiday e ∨ (in_scope tok (Employee.location e) ∧ d ∈ event_dates ev).
Proof.
  unfold target_effect, in_scope.
  destruct (decide (tok = "_HOLIDAY_US")) as [->|Hus].
  { case_decide; simpl; rewrite ?elem_of_app; naive_solver. }
  destruct (decide (tok = "_HOLIDAY_FRANCE")) as [->|Hfr].
  { case_decide; simpl; rewrite ?elem_of_app; naive_solver. }
  destruct (decide (tok = "_HOLIDAY_COMPANY")) as [->|Hco].
  { simpl; rewrite ?elem_of_app; naive_solver. }
  destruct (emap !! tok); repeat case_decide; simpl; naive_solver.
Qed.

Lemma target_effect_PTO (ev : Event.t) (tok : string) (i : nat) (e : Employee.t) (d : Z) :
  d ∈ Employee.PTO (target_effect emap ev tok i e)
  ↔ d ∈ Employee.PTO e
    ∨ (names_position emap tok i ∧ Event.type ev = "P" ∧ d ∈ event_dates ev).
Proof.
  unfold target_effect, names_position, holiday_tag.
  destruct (decide (tok = "_HOLIDAY_US")) as [->|Hus].
  { case_decide; simpl; naive_solver. }
  destruct (decide (tok = "_HOLIDAY_FRANCE")) as [->|Hfr].
  { case_decide; simpl; naive_solver. }
  destruct (decide (tok = "_HOLIDAY_COMPANY")) as [->|Hco].
  { simpl; naive_solver. }
  destruct (emap !! tok) as [j|]; [|naive_solver].
  destruct (decide (j = i)) as [->|]; [|naive_solver].
  destruct (decide (Event.type ev = "P")) as [HP|HP].
  { simpl. rewrite elem_of_app. naive_solver. }
  case_decide; simpl; naive_solver.
Qed.

Lemma target_effect_Travel (ev : Event.t) (tok : string) (i : nat) (e : Employee.t) (d : Z) :
  d ∈ Employee.Travel (target_effect emap ev tok i e)
  ↔ d ∈ Employee.Travel e
    ∨ (names_position emap tok i ∧ Event.type ev = "T" ∧ d ∈ event_dates ev).
Proof.
  unfold target_effect, names_position, holiday_tag.
  destruct (decide (tok = "_HOLIDAY_US")) as [->|Hus].
  { case_decide; simpl; naive_solver. }
  destruct (decide (tok = "_HOLIDAY_FRANCE")) as [->|Hfr].
  { case_decide; simpl; naive_solver. }
  destruct (decide (tok = "_HOLIDAY_COMPANY")) as [->|Hco].
  { simpl; naive_solver. }
  destruct (emap !! tok) as [j|]; [|naive_solver].
  destruct (decide (j = i)) as [->|]; [|naive_solver].
  destruct (decide (Event.type ev = "P")) as [HP|HP].
  { simpl. split; [by left|]. intros [?|(_ & HT & _)]; [done|]. congruence. }
  destruct (decide (Event.type ev = "T")) as [HT|HT].
  { simpl. rewrite elem_of_app. naive_solver. }
  simpl. naive_solver.
Qed.

(** Membership in a list that a fold only extends. *)
Lemma foldl_elem_of {A B : Type} (f : A → B → A) (X : A → list Z)
    (I : A → Prop) (Q : B → Z → Prop) :
  (∀ a b, I a → I (f a b)) →
  (∀ a b d, I a → (d ∈ X (f a b) ↔ d ∈ X a ∨ Q b d)) →
  ∀ l a d, I a → (d ∈ X (foldl f a l) ↔ d ∈ X a ∨ ∃ b, b ∈ l ∧ Q b d).
Proof.
  intros HI HX l. induction l as [|b l IH]; intros a d Ha; simpl.
  - split; [by left|]. intros [?|(b & H & _)]; [done|]. by apply elem_of_nil in H.
  - rewrite IH by auto. rewrite HX by done. split.
    + intros [[?|?]|(b' & ? & ?)]; [by left| |].
      * right. exists b. split; [apply list_elem_of_here|done].
      * right. exists b'. split; [by apply list_elem_of_further|done].
    + intros [?|(b' & Hin & ?)]; [by left; left|].
      apply elem_of_cons in Hin as [->|Hin]; [by left; right|]. right. by exists b'.
Qed.

Lemma foldl_invariant {A B : Type} (f : A → B → A) (I : A → Prop) :
  (∀ a b, I a → I (f a b)) → ∀ l a, I a → I (foldl f a l).
Proof. intros HI l. induction l; simpl; auto. Qed.

Lemma target_effect_identity (e0 : Employee.t) ev tok i e :
  same_identity e0 e → same_identity e0 (target_effect emap ev tok i e).
Proof.
  unfold same_identity. destruct (target_effect_name ev tok i e) as [-> ->]. done.
Qed.

Lemma event_effect_identity (e0 : Employee.t) ev i e :
  same_identity e0 e → same_identity e0 (event_effect emap ev i e).
Proof.
  unfold event_effect. apply foldl_invariant. intros. by apply target_effect_identity.
Qed.

Lemma final_employee_identity (evs : list Event.t) (i : nat) (e : Employee.t) :
  same_identity e (final_employee emap evs i e).
Proof.
  unfold final_employee. apply foldl_invariant; [|done].
  intros. by apply event_effect_identity.
Qed.

Lemma event_effect_Holiday (e0 : Employee.t) ev i e (d : Z) :
  same_identity e0 e →
  d ∈ Employee.Holiday (event_effect emap ev i e)
  ↔ d ∈ Employee.Holiday e
    ∨ ((∃ tok, tok ∈ Event.employee ev ∧ in_scope tok (Employee.location e0))
       ∧ d ∈ event_dates ev).
Proof.
  intros He. unfold event_effect.
  rewrite (foldl_elem_of _ Employee.Holiday (same_identity e0)
             (λ tok d, in_scope tok (Employee.location e0) ∧ d ∈ event_dates ev)); try done.
  - naive_solver.
  - intros. by apply target_effect_identity.
  - intros a tok d' [_ Hl]. rewrite target_effect_Holiday, Hl. done.
Qed.

Lemma event_effect_PTO (e0 : Employee.t) ev i e (d : Z) :
  same_identity e0 e →
  d ∈ Employee.PTO (event_effect emap ev i e)
  ↔ d ∈ Employee.PTO e
    ∨ ((∃ tok, tok ∈ Event.employee ev ∧ names_position emap tok i)
       ∧ Event.type ev = "P" ∧ d ∈ event_dates ev).
Proof.
  intros He. unfold event_effect.
  rewrite (foldl_elem_of _ Employee.PTO (same_identity e0)
             (λ tok d, names_position emap tok i ∧ Event.type ev = "P"
                       ∧ d ∈ event_dates ev)); try done.
  - naive_solver.
  - intros. by apply target_effect_identity.
  - intros a tok d' _. by rewrite target_effect_PTO.
Qed.

Lemma event_effect_Travel (e0 : Employee.t) ev i e (d : Z) :
  same_identity e0 e →
  d ∈ Employee.Travel (event_effect emap ev i e)
  ↔ d ∈ Employee.Travel e
    ∨ ((∃ tok, tok ∈ Event.employee ev ∧ names_position emap tok i)
       ∧ Event.type ev = "T" ∧ d ∈ event_dates ev).
Proof.
  intros He. unfold event_effect.
  rewrite (foldl_elem_of _ Employee.Travel (same_identity e0)
             (λ tok d, names_position emap tok i ∧ Event.type ev = "T"
                       ∧ d ∈ event_dates ev)); try done.
  - naive_solver.
  - intros. by apply target_effect_identity.
  - intros a tok d' _. by rewrite target_effect_Travel.
Qed.

Lemma final_employee_Holiday (evs : list Event.t) (i : nat) (e : Employee.t) (d : Z) :
  d ∈ Employee.Holiday (final_employee emap evs i e)
  ↔ d ∈ Employee.Holiday e
    ∨ ∃ ev, ev ∈ evs
            ∧ (∃ tok, tok ∈ Event.employee ev ∧ in_scope tok (Employee.location e))
            ∧ d ∈ event_dates ev.
Proof.
  unfold final_employee.
  apply (foldl_elem_of _ Employee.Holiday (same_identity e)
           (λ ev d, (∃ tok, tok ∈ Event.employee ev ∧ in_scope tok (Employee.location e))
                    ∧ d ∈ event_dates ev)); try done.
  - intros. by apply event_effect_identity.
  - intros. by apply event_effect_Holiday.
Qed.

Lemma final_employee_PTO (evs : list Event.t) (i : nat) (e : Employee.t) (d : Z) :
  d ∈ Employee.PTO (final_employee emap evs i e)
  ↔ d ∈ Employee.PTO e
    ∨ ∃ ev, ev ∈ evs
            ∧ (∃ tok, tok ∈ Event.employee ev ∧ names_position emap tok i)
            ∧ Event.type ev = "P" ∧ d ∈ event_dates ev.
Proof.
  unfold final_employee.
  apply (foldl_elem_of _ Employee.PTO (same_identity e)
           (λ ev d, (∃ tok, tok ∈ Event.employee ev ∧ names_position emap tok i)
                    ∧ Event.type ev = "P" ∧ d ∈ event_dates ev)); try done.
  - intros. by apply event_effect_identity.
  - intros. by apply (event_effect_PTO e).
Qed.

Lemma final_employee_Travel (evs : list Event.t) (i : nat) (e : Employee.t) (d : Z) :
  d ∈ Employee.Travel (final_employee emap evs i e)
  ↔ d ∈ Employee.Travel e
    ∨ ∃ ev, ev ∈ evs
            ∧ (∃ tok, tok ∈ Event.employee ev ∧ names_position emap tok i)
            ∧ Event.type ev = "T" ∧ d ∈ event_dates ev.
Proof.
  unfold final_employee.
  apply (foldl_elem_of _ Employee.Travel (same_identity e)
           (λ ev d, (∃ tok, tok ∈ Event.employee ev ∧ names_position emap tok i)
                    ∧ Event.type ev = "T" ∧ d ∈ event_dates ev)); try done.
  - intros. by apply event_effect_identity.
  - intros. by apply (event_effect_Travel e).
Qed.

End date_list_members.

Section pipeline.

Lemma populate_lists_lookup (emps : list Employee.t) (evs : list Event.t) (i : nat) :
  populate_lists emps evs !! i
  = (λ e, final_employee (employee_map (reset_lists <$> emps)) evs i (reset_lists e))
      <$> emps !! i.
Proof. by rewrite populate_imap, list_lookup_imap. Qed.

Lemma populate_lists_names (emps : list Employee.t) (evs : list Event.t) :
  Employee.name <$> populate_lists emps evs = Employee.name <$> emps.
Proof.
  apply list_eq. intros i. rewrite !list_lookup_fmap, populate_lists_lookup.
  destruct (emps !! i) as [e|]; [|done]. simpl. f_equal.
  by destruct (final_employee_identity (employee_map (reset_lists <$> emps)) evs i
                 (reset_lists e)) as [-> _].
Qed.

Lemma employee_map_fold (l : list (nat * Employee.t)) (m0 : gmap string nat) (n : string) :
  foldl (λ m p, <[Employee.name p.2 := p.1]> m) m0 l !! n = None
  ↔ m0 !! n = None ∧ n ∉ (Employee.name ∘ snd) <$> l.
Proof.
  revert m0. induction l as [|p l IH]; intros m0; simpl.
  - split; [intros ?; split; [done|apply not_elem_of_nil]|by intros [? _]].
  - rewrite IH, not_elem_of_cons. simpl.
    destruct (decide (Employee.name p.2 = n)) as [<-|Hne].
    + rewrite lookup_insert_eq. naive_solver.
    + rewrite lookup_insert_ne by done. naive_solver.
Qed.

Lemma employee_map_None (emps : list Employee.t) (n : string) :
  employee_map emps !! n = None ↔ n ∉ Employee.name <$> emps.
Proof.
  unfold employee_map. rewrite employee_map_fold, lookup_empty.
  rewrite list_fmap_compose, snd_zip by (rewrite length_seq; lia). naive_solver.
Qed.

Lemma run_eq (emps : list Employee.t) (evs : list Event.t) (s e : Z)
    (m : gmap string (list string)) :
  run emps evs s e m
  = match events_in_range evs s e with
    | [] => None
    | _ => Some (result_of emps (events_in_range evs s e) m)
    end.
Proof.
  unfold run, result_of. destruct (events_in_range evs s e) as [|ev l]; [done|].
  rewrite <- associate_fst. by destruct (associate m (ev :: l)).
Qed.

Lemma elem_of_events_in_range (evs : list Event.t) (s e : Z) (ev : Event.t) :
  ev ∈ events_in_range evs s e
  ↔ ev ∈ evs ∧ Event.start_date ev < e ∧ Event.end_date ev > s.
Proof.
  unfold events_in_range, in_window.
  rewrite list_elem_of_In, filter_In, <- list_elem_of_In, andb_true_iff.
  rewrite Z.ltb_lt, Z.gtb_gt. done.
Qed.

End pipeline.

Section run_facts.

Lemma run_Some (emps : list Employee.t) (evs : list Event.t) (s e : Z)
    (m : gmap string (list string)) (r : run_result) :
  run emps evs s e m = Some r →
  events_in_range evs s e ≠ [] ∧ r = result_of emps (events_in_range evs s e) m.
Proof.
  rewrite run_eq. destruct (events_in_range evs s e); [done|].
  intros H. by simplify_eq.
Qed.

Lemma run_is_Some (emps : list Employee.t) (evs : list Event.t) (s e : Z)
    (m : gmap string (list string)) (ev : Event.t) :
  ev ∈ events_in_range evs s e →
  run emps evs s e m = Some (result_of emps (events_in_range evs s e) m).
Proof.
  rewrite run_eq. destruct (events_in_range evs s e); [|done].
  intros H. by apply elem_of_nil in H.
Qed.

Lemma fold_status_Some (emps : list Employee.t) (n : string) (d : Z)
    (acc : option string) (c : string) :
  foldl (λ acc emp, if decide (Employee.name emp = n)
                    then match status_of emp d with Some c => Some c | None => acc end
                    else acc) acc emps = Some c →
  acc = Some c ∨ ∃ emp, emp ∈ emps ∧ Employee.name emp = n ∧ status_of emp d = Some c.
Proof.
  revert acc. induction emps as [|e emps IH]; intros acc; simpl; [by left|].
  intros H. apply IH in H as [H|(emp & ? & ? & ?)].
  - case_decide; [|by left]. destruct (status_of e d) eqn:E; [|by left].
    right. exists e. split; [apply list_elem_of_here|]. by simplify_eq.
  - right. exists emp. split; [by apply list_elem_of_further|done].
Qed.

Lemma status_at_Some (emps : list Employee.t) (n : string) (d : Z) (c : string) :
  status_at (build_processed_data emps) n d = Some c →
  ∃ emp, emp ∈ emps ∧ Employee.name emp = n ∧ status_of emp d = Some c.
Proof.
  unfold status_at. rewrite build_processed_data_lookup. case_decide; [|done].
  simpl. rewrite fold_cell_lookup, lookup_empty. intros Hf.
  by apply fold_status_Some in Hf as [?|?].
Qed.

Lemma status_of_Some (emp : Employee.t) (d : Z) (c : string) :
  status_of emp d = Some c →
  d ∈ Employee.Holiday emp ∨ d ∈ Employee.Travel emp ∨ d ∈ Employee.PTO emp.
Proof. unfold status_of. repeat case_decide; naive_solver. Qed.

End run_facts.

(** ** The status matrix *)

(** C1.  For a roster whose names are unique, as the data model has them,
    the matrix of a run is the one obtained by writing all the PTO days of all
    employees, then all the Travel days, then all the Holiday days, each
    write replacing the entry of its (employee, day).  Hence, for every
    employee and day, Holiday wins over Travel and PTO, and Travel wins over
    PTO. *)
Theorem status_precedence (employees : list Employee.t) (all_events : list Event.t)
    (start_date end_date : Z) (event_to_employee_map : gmap string (list string))
    (r : run_result) :
  NoDup (Employee.name <$> employees) →
  run employees all_events start_date end_date event_to_employee_map = Some r →
  processed_data r = three_pass (employees_after r)
  ∧ ∀ emp d, emp ∈ employees_after r →
      status_at (processed_data r) (Employee.name emp) d
      = if decide (d ∈ Employee.Holiday emp) then Some "H"
        else if decide (d ∈ Employee.Travel emp) then Some "T"
        else if decide (d ∈ Employee.PTO emp) then Some "P"
        else None.
Proof.
  intros Hnd Hrun. apply run_Some in Hrun as [_ ->]. unfold result_of. simpl.
  set (emps := populate_lists _ _).
  assert (NoDup (Employee.name <$> emps)) as Hnd'
    by (subst emps; by rewrite populate_lists_names).
  split; [by apply build_three_pass|].
  intros emp d Hemp. apply list_elem_of_lookup in Hemp as [i Hi].
  by rewrite (status_at_unique emps i emp d).
Qed.

(** C2, amended.  Every key of the matrix of a run has the name of an
    employee of the roster, and its day lies within [[start, end)] of an event
    that the window filter kept, that is, an event that overlaps the
    reporting window; the day itself need not lie within the window. *)
Theorem matrix_keys (employees : list Employee.t) (all_events : list Event.t)
    (start_date end_date : Z) (event_to_employee_map : gmap string (list string))
    (r : run_result) (name : string) (d : Z) (code : string) :
  run employees all_events start_date end_date event_to_employee_map = Some r →
  status_at (processed_data r) name d = Some code →
  name ∈ Employee.name <$> employees
  ∧ ∃ event, event ∈ all_events
             ∧ Event.start_date event < end_date ∧ Event.end_date event > start_date
             ∧ Event.start_date event <= d < Event.end_date event.
Proof.
  intros Hrun Hst. apply run_Some in Hrun as [_ ->]. unfold result_of in Hst.
  simpl in Hst. apply status_at_Some in Hst as (emp & Hemp & <- & Hs).
  split.
  { rewrite <- (populate_lists_names employees
                  (with_employee event_to_employee_map
                     <$> events_in_range all_events start_date end_date)).
    by apply list_elem_of_fmap_2. }
  apply list_elem_of_lookup in Hemp as [i Hi].
  rewrite populate_lists_lookup in Hi.
  destruct (employees !! i) as [e0|]; [|done]. simpl in Hi. simplify_eq.
  assert (∃ ev, ev ∈ with_employee event_to_employee_map
                       <$> events_in_range all_events start_date end_date
                ∧ d ∈ event_dates ev) as (ev & Hev & Hd).
  { apply status_of_Some in Hs as [H|[H|H]].
    - apply final_employee_Holiday in H as [H|(ev & ? & _ & ?)];
        [by apply elem_of_nil in H|by eauto].
    - apply final_employee_Travel in H as [H|(ev & ? & _ & _ & ?)];
        [by apply elem_of_nil in H|by eauto].
    - apply final_employee_PTO in H as [H|(ev & ? & _ & _ & ?)];
        [by apply elem_of_nil in H|by eauto]. }
  apply list_elem_of_fmap in Hev as (ev0 & -> & Hev0).
  apply elem_of_events_in_range in Hev0 as (? & ? & ?).
  apply elem_of_event_dates in Hd. simpl in Hd. by exists ev0.
Qed.

(** C7.  Whatever the type of an event, PTO or Travel or anything else, a
    holiday scope among its targets marks every day of the event as Holiday
    for every employee of the scope (names being unique in the roster). *)
Theorem holiday_scope_ignores_type (employees : list Employee.t)
    (all_events : list Event.t) (start_date end_date : Z)
    (event_to_employee_map : gmap string (list string))
    (event : Event.t) (targets : list string) (tag : string)
    (emp : Employee.t) (d : Z) :
  NoDup (Employee.name <$> employees) →
  event ∈ all_events → in_window start_date end_date event = true →
  event_to_employee_map !! Event.name event = Some targets →
  tag ∈ targets → emp ∈ employees → in_scope tag (Employee.location emp) →
  Event.start_date event <= d < Event.end_date event →
  ∃ r, run employees all_events start_date end_date event_to_employee_map = Some r
       ∧ status_at (processed_data r) (Employee.name emp) d = Some "H".
Proof.
  intros Hnd Hev Hwin Hmap Htag Hemp Hscope Hd.
  assert (event ∈ events_in_range all_events start_date end_date) as Hin.
  { unfold events_in_range. by apply list_elem_of_In, filter_In, conj;
      [apply list_elem_of_In|]. }
  eexists. split; [by eapply run_is_Some|]. unfold result_of. simpl.
  set (evs := with_employee _ <$> _).
  apply list_elem_of_lookup in Hemp as [i Hi].
  pose proof (populate_lists_lookup employees evs i) as Hlk. rewrite Hi in Hlk.
  simpl in Hlk.
  set (emp' := final_employee _ evs i (reset_lists emp)) in Hlk.
  assert (Employee.name emp' = Employee.name emp) as Hname.
  { subst emp'. by destruct (final_employee_identity
      (employee_map (reset_lists <$> employees)) evs i (reset_lists emp)) as [-> _]. }
  rewrite <- Hname.
  rewrite (status_at_unique (populate_lists employees evs) i emp' d);
    [|by rewrite populate_lists_names|done].
  unfold status_of. rewrite decide_True; [done|].
  subst emp'. apply final_employee_Holiday. right.
  exists (with_employee event_to_employee_map event). split_and!.
  - subst evs. by apply list_elem_of_fmap_2.
  - exists tag. simpl. rewrite Hmap. simpl. done.
  - apply elem_of_event_dates. done.
Qed.

Section extensionality.

Lemma same_status_names (emps1 emps2 : list Employee.t) :
  Forall2 same_status emps1 emps2 →
  Employee.name <$> emps1 = Employee.name <$> emps2.
Proof.
  induction 1 as [|e1 e2 l1 l2 [Hn _] _ IH]; [done|]. rewrite !fmap_cons. congruence.
Qed.

Lemma same_status_fold (emps1 emps2 : list Employee.t) (n : string) (d : Z)
    (acc : option string) :
  Forall2 same_status emps1 emps2 →
  foldl (λ acc emp, if decide (Employee.name emp = n)
                    then match status_of emp d with Some c => Some c | None => acc end
                    else acc) acc emps1
  = foldl (λ acc emp, if decide (Employee.name emp = n)
                      then match status_of emp d with Some c => Some c | None => acc end
                      else acc) acc emps2.
Proof.
  intros H. revert acc.
  induction H as [|e1 e2 l1 l2 [Hn Hs] _ IH]; intros acc; simpl; [done|].
  rewrite Hn, Hs. apply IH.
Qed.

Lemma build_processed_data_ext (emps1 emps2 : list Employee.t) :
  Forall2 same_status emps1 emps2 →
  build_processed_data emps1 = build_processed_data emps2.
Proof.
  intros H. apply map_eq. intros n. rewrite !build_processed_data_lookup.
  rewrite (same_status_names _ _ H). case_decide; [|done]. f_equal.
  apply map_eq. intros d. rewrite !fold_cell_lookup. by apply same_status_fold.
Qed.

Lemma Forall2_imap {A B : Type} (R : B → B → Prop) (f g : nat → A → B) (l : list A) :
  (∀ i x, l !! i = Some x → R (f i x) (g i x)) → Forall2 R (imap f l) (imap g l).
Proof.
  revert f g. induction l as [|x l IH]; intros f g H; simpl; [constructor|].
  constructor; [by apply (H 0%nat)|]. apply IH. intros i y Hi. by apply (H (S i)).
Qed.

Lemma status_of_ext (e1 e2 : Employee.t) (d : Z) :
  (d ∈ Employee.Holiday e1 ↔ d ∈ Employee.Holiday e2) →
  (d ∈ Employee.Travel e1 ↔ d ∈ Employee.Travel e2) →
  (d ∈ Employee.PTO e1 ↔ d ∈ Employee.PTO e2) →
  status_of e1 d = status_of e2 d.
Proof. intros. unfold status_of. repeat case_decide; naive_solver. Qed.

(** The matrix depends on the events only through the set they form. *)
Lemma populate_lists_ext (emps : list Employee.t) (evs1 evs2 : list Event.t) :
  (∀ ev, ev ∈ evs1 ↔ ev ∈ evs2) →
  Forall2 same_status (populate_lists emps evs1) (populate_lists emps evs2).
Proof.
  intros H. rewrite !populate_imap. apply Forall2_imap. intros i e _.
  set (emap := employee_map _). split.
  - destruct (final_employee_identity emap evs1 i (reset_lists e)) as [-> _].
    by destruct (final_employee_identity emap evs2 i (reset_lists e)) as [-> _].
  - intros d. apply status_of_ext.
    + rewrite !final_employee_Holiday. by setoid_rewrite H.
    + rewrite !final_employee_Travel. by setoid_rewrite H.
    + rewrite !final_employee_PTO. by setoid_rewrite H.
Qed.

Lemma run_processed_data_ext (emps : list Employee.t) (evs1 evs2 : list Event.t)
    (s e : Z) (m : gmap string (list string)) :
  (∀ ev, ev ∈ evs1 ↔ ev ∈ evs2) →
  processed_data <$> run emps evs1 s e m = processed_data <$> run emps evs2 s e m.
Proof.
  intros H. rewrite !run_eq.
  assert (∀ ev, ev ∈ events_in_range evs1 s e ↔ ev ∈ events_in_range evs2 s e) as Hr.
  { intros ev. rewrite !elem_of_events_in_range, H. done. }
  destruct (events_in_range evs1 s e) as [|ev1 l1] eqn:E1;
    destruct (events_in_range evs2 s e) as [|ev2 l2] eqn:E2.
  - done.
  - exfalso. eapply elem_of_nil, Hr, list_elem_of_here.
  - exfalso. eapply elem_of_nil, Hr, list_elem_of_here.
  - cbn [fmap option_fmap option_map]. f_equal. unfold result_of.
    cbn [processed_data]. apply build_processed_data_ext, populate_lists_ext.
    intros ev. rewrite !list_elem_of_fmap. by setoid_rewrite Hr.
Qed.

End extensionality.

(** C9.  Giving every event twice, the whole stream again or each event
    doubled in place, leaves the status matrix as it is.  One application of a
    holiday scope visits each employee once: the employee's Holiday days grow
    by the days of the event, each of them once, or stay as they are. *)
Theorem matrix_idempotent (employees : list Employee.t) (all_events : list Event.t)
    (start_date end_date : Z) (event_to_employee_map : gmap string (list string)) :
  processed_data
    <$> run employees (all_events ++ all_events) start_date end_date event_to_employee_map
  = processed_data
    <$> run employees all_events start_date end_date event_to_employee_map
  ∧ processed_data
    <$> run employees (flat_map (λ ev, [ev; ev]) all_events) start_date end_date
          event_to_employee_map
  = processed_data
    <$> run employees all_events start_date end_date event_to_employee_map
  ∧ (∀ emap event tag (i : nat) emp,
       holiday_tag tag → employees !! i = Some emp →
       ∃ emp', apply_target emap event employees tag !! i = Some emp'
               ∧ (Employee.Holiday emp' = Employee.Holiday emp ++ event_dates event
                  ∨ emp' = emp)
               ∧ NoDup (event_dates event)).
Proof.
  split_and!.
  - apply run_processed_data_ext. intros ev. rewrite elem_of_app. naive_solver.
  - apply run_processed_data_ext. intros ev.
    rewrite list_elem_of_In, in_flat_map. setoid_rewrite <- list_elem_of_In.
    split.
    + intros (ev' & ? & Hev). apply elem_of_cons in Hev as [->|Hev]; [done|].
      apply list_elem_of_singleton in Hev. by subst.
    + intros ?. exists ev. split; [done|apply list_elem_of_here].
  - intros emap event tag i emp Htag Hi.
    rewrite apply_target_imap, list_lookup_imap, Hi. simpl. eexists. split; [done|].
    split.
    + unfold target_effect.
      destruct Htag as [-> | [-> | ->]]; simpl; repeat case_decide; by auto.
    + unfold event_dates. apply NoDup_fmap_2; [|apply NoDup_seqZ].
      intros x y ?. lia.
Qed.

Section targets.

Lemma event_dates_ext (ev1 ev2 : Event.t) :
  Event.start_date ev1 = Event.start_date ev2 →
  Event.end_date ev1 = Event.end_date ev2 →
  event_dates ev1 = event_dates ev2.
Proof. unfold event_dates. by intros -> ->. Qed.

Lemma apply_target_event_ext (emap : gmap string nat) (ev1 ev2 : Event.t)
    (emps : list Employee.t) (tok : string) :
  Event.start_date ev1 = Event.start_date ev2 →
  Event.end_date ev1 = Event.end_date ev2 →
  Event.type ev1 = Event.type ev2 →
  apply_target emap ev1 emps tok = apply_target emap ev2 emps tok.
Proof.
  intros Hs He Ht. unfold apply_target. by rewrite (event_dates_ext ev1 ev2), Ht.
Qed.

Lemma process_event_fold (emap : gmap string nat) (emps : list Employee.t) (ev : Event.t) :
  process_event emap emps ev = foldl (apply_target emap ev) emps (Event.employee ev).
Proof. unfold process_event. by destruct (Event.employee ev). Qed.

Lemma apply_target_unknown (employees : list Employee.t) (ev : Event.t)
    (emps : list Employee.t) (tok : string) :
  ¬ holiday_tag tok → tok ∉ Employee.name <$> employees →
  apply_target (employee_map (reset_lists <$> employees)) ev emps tok = emps.
Proof.
  intros Htag Hname. unfold apply_target, holiday_tag in *.
  rewrite !decide_False by tauto.
  assert (employee_map (reset_lists <$> employees) !! tok = None) as ->; [|done].
  apply employee_map_None. by rewrite <- list_fmap_compose.
Qed.

Lemma foldl_filter_id {A B : Type} (f : A → B → A) (P : B → Prop)
    `{!∀ b, Decision (P b)} (l : list B) (a : A) :
  (∀ a b, ¬ P b → f a b = a) → foldl f a (filter P l) = foldl f a l.
Proof.
  intros Hid. revert a. induction l as [|b l IH]; intros a; [done|].
  rewrite filter_cons. case_decide; simpl; [done|]. by rewrite Hid.
Qed.

Lemma fold_status_all (emps : list Employee.t) (n : string) (d : Z) (c : string)
    (acc : option string) :
  (∀ emp, emp ∈ emps → Employee.name emp = n →
          status_of emp d = Some c ∨ status_of emp d = None) →
  acc = Some c ∨ (∃ emp, emp ∈ emps ∧ Employee.name emp = n ∧ status_of emp d = Some c) →
  foldl (λ acc emp, if decide (Employee.name emp = n)
                    then match status_of emp d with Some c => Some c | None => acc end
                    else acc) acc emps = Some c.
Proof.
  revert acc. induction emps as [|e emps IH]; intros acc Hall Hex; simpl.
  - destruct Hex as [?|(emp & H & _)]; [done|]. by apply elem_of_nil in H.
  - apply IH.
    + intros emp ? ?. apply Hall; [by apply list_elem_of_further|done].
    + destruct Hex as [->|(emp & Hin & Hn & Hs)].
      * left. case_decide; [|done].
        by destruct (Hall e (list_elem_of_here _ _) ltac:(done)) as [-> | ->].
      * apply elem_of_cons in Hin as [->|Hin].
        -- left. by rewrite decide_True, Hs by done.
        -- right. by exists emp.
Qed.

End targets.


(** ** The position of a name *)

Lemma employee_map_fold_notin (l : list (nat * Employee.t)) (m0 : gmap string nat)
    (n : string) :
  n ∉ (Employee.name ∘ snd) <$> l →
  foldl (λ m p, <[Employee.name p.2 := p.1]> m) m0 l !! n = m0 !! n.
Proof.
  revert m0. induction l as [|p l IH]; intros m0 Hn; [done|].
  rewrite fmap_cons, not_elem_of_cons in Hn. destruct Hn as [Hp Hn].
  cbn [foldl]. rewrite IH by done. by rewrite lookup_insert_ne.
Qed.

Lemma employee_map_fold_Some (l : list Employee.t) (k : nat) (m0 : gmap string nat)
    (i : nat) (emp : Employee.t) :
  NoDup (Employee.name <$> l) → l !! i = Some emp →
  foldl (λ m p, <[Employee.name p.2 := p.1]> m) m0 (zip (seq k (length l)) l)
    !! Employee.name emp = Some (k + i)%nat.
Proof.
  revert k m0 i. induction l as [|x l IH]; intros k m0 i Hnd Hi; [done|].
  rewrite fmap_cons in Hnd. apply NoDup_cons in Hnd as [Hx Hnd].
  cbn [length seq zip zip_with foldl]. destruct i as [|i]; simpl in Hi.
  - simplify_eq. rewrite employee_map_fold_notin.
    + cbn [fst snd]. by rewrite lookup_insert_eq, Nat.add_0_r.
    + intros Hin. apply Hx. apply list_elem_of_fmap in Hin as ([j y] & Hy & Hin).
      apply elem_of_zip_r in Hin. simpl in Hy. rewrite Hy.
      apply list_elem_of_fmap. by exists y.
  - rewrite (IH (S k) _ i Hnd Hi). f_equal. lia.
Qed.

Lemma employee_map_Some (employees : list Employee.t) (i : nat) (emp : Employee.t) :
  NoDup (Employee.name <$> employees) → employees !! i = Some emp →
  employee_map employees !! Employee.name emp = Some i.
Proof.
  intros Hnd Hi. unfold employee_map.
  by rewrite (employee_map_fold_Some employees 0 ∅ i emp Hnd Hi).
Qed.

Lemma names_position_unique (employees : list Employee.t) (i : nat) (emp : Employee.t)
    (tok : string) :
  NoDup (Employee.name <$> employees) → employees !! i = Some emp →
  names_position (employee_map (reset_lists <$> employees)) tok i
  ↔ ¬ holiday_tag tok ∧ tok = Employee.name emp.
Proof.
  intros Hnd Hi. unfold names_position.
  assert (Employee.name <$> (reset_lists <$> employees) = Employee.name <$> employees)
    as Hnames by (rewrite <- list_fmap_compose; by apply list_fmap_ext).
  assert (∀ j e, employees !! j = Some e →
            employee_map (reset_lists <$> employees) !! Employee.name e = Some j) as Hmap.
  { intros j e Hj.
    apply (employee_map_Some (reset_lists <$> employees) j (reset_lists e)).
    - by rewrite Hnames.
    - by rewrite list_lookup_fmap, Hj. }
  split; intros [Hh Ht]; (split; [done|]).
  - destruct (decide (tok ∈ Employee.name <$> employees)) as [Hin|Hout].
    + apply list_elem_of_fmap in Hin as (e & -> & He).
      apply list_elem_of_lookup in He as [j Hj].
      rewrite (Hmap j e Hj) in Ht. simplify_eq. congruence.
    + rewrite <- Hnames in Hout. apply employee_map_None in Hout. congruence.
  - subst tok. by apply Hmap.
Qed.


(** ** The date lists, target by target *)

Lemma is_holiday_tag_spec (tag : string) : is_holiday_tag tag = true ↔ holiday_tag tag.
Proof.
  unfold is_holiday_tag, holiday_tag.
  rewrite !orb_true_iff, !bool_decide_eq_true. tauto.
Qed.

Lemma in_scopeb_spec (tag location : string) :
  in_scopeb tag location = true ↔ in_scope tag location.
Proof.
  unfold in_scopeb, in_scope.
  rewrite !orb_true_iff, !bool_decide_eq_true. tauto.
Qed.

Section list_effects.
Variable employees : list Employee.t.
Variable i : nat.
Variable emp : Employee.t.
Hypothesis Hnd : NoDup (Employee.name <$> employees).
Hypothesis Hi : employees !! i = Some emp.

Let emap : gmap string nat := employee_map (reset_lists <$> employees).

Lemma name_days_position (type : string) (ev : Event.t) (tok : string) :
  name_days type (Employee.name emp) ev tok
  = match emap !! tok with
    | Some j =>
        if decide (j = i) then
          if is_holiday_tag tok then []
          else if decide (Event.type ev = type) then event_dates ev else []
        else []
    | None => []
    end.
Proof.
  unfold name_days.
  pose proof (names_position_unique employees i emp tok Hnd Hi) as Hpos.
  fold emap in Hpos. unfold names_position in Hpos.
  pose proof (is_holiday_tag_spec tok) as Htag.
  destruct (is_holiday_tag tok) eqn:Et.
  { rewrite andb_false_r. simpl. destruct (emap !! tok); [|done]. by case_decide. }
  rewrite andb_true_r.
  assert (¬ holiday_tag tok) as Hno by (rewrite <- Htag; congruence).
  destruct (emap !! tok) as [j|] eqn:Ej.
  - destruct (decide (j = i)) as [->|Hne].
    + assert (tok = Employee.name emp) as -> by (by apply Hpos).
      rewrite bool_decide_eq_true_2 by done. simpl.
      case_decide; [by rewrite bool_decide_eq_true_2|by rewrite bool_decide_eq_false_2].
    + rewrite (bool_decide_eq_false_2 (tok = Employee.name emp)); [done|].
      intros ->. destruct Hpos as [_ Hpos]. specialize (Hpos (conj Hno eq_refl)).
      destruct Hpos as [_ Hpos]. congruence.
  - rewrite (bool_decide_eq_false_2 (tok = Employee.name emp)); [done|].
    intros ->. destruct Hpos as [_ Hpos]. specialize (Hpos (conj Hno eq_refl)).
    destruct Hpos as [_ Hpos]. congruence.
Qed.

Lemma target_effect_lists (ev : Event.t) (tok : string) (e : Employee.t) :
  Employee.location e = Employee.location emp →
  let e' := target_effect emap ev tok i e in
  Employee.location e' = Employee.location emp
  ∧ Employee.PTO e' = Employee.PTO e ++ name_days "P" (Employee.name emp) ev tok
  ∧ Employee.Travel e' = Employee.Travel e ++ name_days "T" (Employee.name emp) ev tok
  ∧ Employee.Holiday e'
    = Employee.Holiday e ++ scope_days (Employee.location emp) ev tok.
Proof.
  intros Hloc. cbv zeta. rewrite !name_days_position. unfold scope_days.
  pose proof (is_holiday_tag_spec tok) as Htag.
  pose proof (in_scopeb_spec tok (Employee.location emp)) as Hsc.
  unfold holiday_tag in Htag. unfold in_scope in Hsc. unfold target_effect.
  destruct (decide (tok = "_HOLIDAY_US")) as [->|Hus].
  { assert (is_holiday_tag "_HOLIDAY_US" = true) as -> by (apply Htag; auto).
    rewrite Hloc. destruct (decide (Employee.location emp = "US")) as [HUS|HUS].
    - assert (in_scopeb "_HOLIDAY_US" (Employee.location emp) = true) as ->
        by (apply Hsc; auto).
      destruct (emap !! "_HOLIDAY_US"); repeat case_decide;
        simpl; rewrite ?app_nil_r; done.
    - assert (in_scopeb "_HOLIDAY_US" (Employee.location emp) = false) as ->.
      { apply not_true_is_false. rewrite Hsc. intros [[_ ?]|[[? _]|?]]; done. }
      destruct (emap !! "_HOLIDAY_US"); repeat case_decide;
        simpl; rewrite ?app_nil_r; done. }
  destruct (decide (tok = "_HOLIDAY_FRANCE")) as [->|Hfr].
  { assert (is_holiday_tag "_HOLIDAY_FRANCE" = true) as -> by (apply Htag; auto).
    rewrite Hloc. destruct (decide (Employee.location emp = "France")) as [HF|HF].
    - assert (in_scopeb "_HOLIDAY_FRANCE" (Employee.location emp) = true) as ->
        by (apply Hsc; auto).
      destruct (emap !! "_HOLIDAY_FRANCE"); repeat case_decide;
        simpl; rewrite ?app_nil_r; done.
    - assert (in_scopeb "_HOLIDAY_FRANCE" (Employee.location emp) = false) as ->.
      { apply not_true_is_false. rewrite Hsc. intros [[? _]|[[_ ?]|?]]; done. }
      destruct (emap !! "_HOLIDAY_FRANCE"); repeat case_decide;
        simpl; rewrite ?app_nil_r; done. }
  destruct (decide (tok = "_HOLIDAY_COMPANY")) as [->|Hco].
  { assert (is_holiday_tag "_HOLIDAY_COMPANY" = true) as -> by (apply Htag; auto).
    assert (in_scopeb "_HOLIDAY_COMPANY" (Employee.location emp) = true) as ->
      by (apply Hsc; auto).
    destruct (emap !! "_HOLIDAY_COMPANY"); repeat case_decide;
      simpl; rewrite ?app_nil_r; done. }
  assert (is_holiday_tag tok = false) as ->
    by (apply not_true_is_false; rewrite Htag; tauto).
  assert (in_scopeb tok (Employee.location emp) = false) as ->
    by (apply not_true_is_false; rewrite Hsc; tauto).
  destruct (emap !! tok) as [j|]; [|by rewrite !app_nil_r].
  destruct (decide (j = i)) as [->|]; [|by rewrite !app_nil_r].
  destruct (decide (Event.type ev = "P")) as [HP|HP].
  { rewrite (decide_False (P := Event.type ev = "T")) by congruence.
    simpl. by rewrite !app_nil_r. }
  destruct (decide (Event.type ev = "T")) as [HT|HT]; simpl; by rewrite !app_nil_r.
Qed.

Lemma event_effect_lists (ev : Event.t) (e : Employee.t) :
  Employee.location e = Employee.location emp →
  let e' := event_effect emap ev i e in
  Employee.location e' = Employee.location emp
  ∧ Employee.PTO e'
    = Employee.PTO e ++ flat_map (name_days "P" (Employee.name emp) ev) (Event.employee ev)
  ∧ Employee.Travel e'
    = Employee.Travel e
      ++ flat_map (name_days "T" (Employee.name emp) ev) (Event.employee ev)
  ∧ Employee.Holiday e'
    = Employee.Holiday e
      ++ flat_map (scope_days (Employee.location emp) ev) (Event.employee ev).
Proof.
  unfold event_effect. cbv zeta. generalize (Event.employee ev). intros toks.
  revert e. induction toks as [|tok toks IH]; intros e Hloc; cbn [foldl flat_map].
  - by rewrite !app_nil_r.
  - destruct (target_effect_lists ev tok e Hloc) as (Hl & HP & HT & HH).
    destruct (IH _ Hl) as (Hl' & HP' & HT' & HH').
    rewrite HP', HT', HH', HP, HT, HH, <- !app_assoc. done.
Qed.

Lemma final_employee_lists (evs : list Event.t) (e : Employee.t) :
  Employee.location e = Employee.location emp →
  let e' := final_employee emap evs i e in
  Employee.PTO e'
  = Employee.PTO e
    ++ flat_map (λ ev, flat_map (name_days "P" (Employee.name emp) ev) (Event.employee ev))
         evs
  ∧ Employee.Travel e'
    = Employee.Travel e
      ++ flat_map (λ ev, flat_map (name_days "T" (Employee.name emp) ev)
                           (Event.employee ev)) evs
  ∧ Employee.Holiday e'
    = Employee.Holiday e
      ++ flat_map (λ ev, flat_map (scope_days (Employee.location emp) ev)
                           (Event.employee ev)) evs.
Proof.
  unfold final_employee. cbv zeta.
  revert e. induction evs as [|ev evs IH]; intros e Hloc; cbn [foldl flat_map].
  - by rewrite !app_nil_r.
  - destruct (event_effect_lists ev e Hloc) as (Hl & HP & HT & HH).
    destruct (IH _ Hl) as (HP' & HT' & HH').
    rewrite HP', HT', HH', HP, HT, HH, <- !app_assoc. done.
Qed.

End list_effects.

Lemma assigned_with_employee (days : Event.t → string → list Z)
    (m : gmap string (list string)) (events : list Event.t) :
  (∀ ev tok, days (with_employee m ev) tok = days ev tok) →
  flat_map (λ ev, flat_map (days ev) (Event.employee ev)) (with_employee m <$> events)
  = assigned days m events.
Proof.
  intros Hext. unfold assigned, targets_of.
  induction events as [|ev events IH]; [done|].
  rewrite fmap_cons. cbn [flat_map]. rewrite IH. f_equal.
  cbn [with_employee Event.employee]. apply flat_map_ext. intros tok. apply Hext.
Qed.

(** The date lists of an employee (whose name is unique) after a run. *)
Lemma run_lists (employees : list Employee.t) (all_events : list Event.t)
    (start_date end_date : Z) (m : gmap string (list string)) (r : run_result)
    (i : nat) (emp : Employee.t) :
  NoDup (Employee.name <$> employees) →
  run employees all_events start_date end_date m = Some r →
  employees !! i = Some emp →
  ∃ emp',
    employees_after r !! i = Some emp'
    ∧ Employee.name emp' = Employee.name emp
    ∧ Employee.PTO emp'
      = assigned (name_days "P" (Employee.name emp)) m
          (events_in_range all_events start_date end_date)
    ∧ Employee.Travel emp'
      = assigned (name_days "T" (Employee.name emp)) m
          (events_in_range all_events start_date end_date)
    ∧ Employee.Holiday emp'
      = assigned (scope_days (Employee.location emp)) m
          (events_in_range all_events start_date end_date).
Proof.
  intros Hnd Hrun Hi. apply run_Some in Hrun as [_ ->]. unfold result_of.
  cbn [employees_after]. rewrite populate_lists_lookup, Hi. cbn [fmap option_fmap option_map].
  eexists. split; [reflexivity|].
  destruct (final_employee_identity (employee_map (reset_lists <$> employees))
              (with_employee m <$> events_in_range all_events start_date end_date)
              i (reset_lists emp)) as [Hname _].
  destruct (final_employee_lists employees i emp Hnd Hi
              (with_employee m <$> events_in_range all_events start_date end_date)
              (reset_lists emp) eq_refl) as (HP & HT & HH).
  split; [exact Hname|].
  rewrite HP, HT, HH. cbn [reset_lists Employee.PTO Employee.Travel Employee.Holiday app].
  rewrite !assigned_with_employee; [done|..]; intros ev tok.
  - unfold scope_days. by rewrite (event_dates_ext (with_employee m ev) ev).
  - unfold name_days. by rewrite (event_dates_ext (with_employee m ev) ev).
  - unfold name_days. by rewrite (event_dates_ext (with_employee m ev) ev).
Qed.

(** ** One event *)

Lemma name_days_targets (type name : string) (ev : Event.t) (targets : list string) :
  NoDup targets → (∀ t, t ∈ targets → ¬ holiday_tag t) →
  flat_map (name_days type name ev) targets
  = if decide (name ∈ targets ∧ Event.type ev = type) then event_dates ev else [].
Proof.
  intros Hnd. induction Hnd as [|t targets Ht Hnd IH]; intros Htags.
  { cbn [flat_map]. rewrite decide_False; [done|]. intros [H _]. by apply elem_of_nil in H. }
  cbn [flat_map]. rewrite IH by (intros t' ?; apply Htags; by apply list_elem_of_further).
  assert (is_holiday_tag t = false) as Etag.
  { apply not_true_is_false. rewrite is_holiday_tag_spec.
    apply Htags, list_elem_of_here. }
  unfold name_days at 1. rewrite Etag, andb_true_r.
  destruct (decide (t = name)) as [->|Hne].
  - rewrite bool_decide_eq_true_2 by done. cbn [andb].
    rewrite (decide_False (P := name ∈ targets ∧ _)) by tauto. rewrite app_nil_r.
    destruct (decide (Event.type ev = type)) as [Hty|Hty].
    + rewrite bool_decide_eq_true_2, decide_True; [done| |done].
      split; [apply list_elem_of_here|done].
    + rewrite bool_decide_eq_false_2, decide_False; [done|tauto|done].
  - rewrite (bool_decide_eq_false_2 (t = name)) by done. cbn [andb app].
    destruct (decide (name ∈ targets ∧ Event.type ev = type)) as [[Hin Hty]|Hno].
    + rewrite decide_True; [done|]. split; [by apply list_elem_of_further|done].
    + rewrite decide_False; [done|]. intros [Hin Hty]. apply Hno. split; [|done].
      apply elem_of_cons in Hin as [->|Hin]; done.
Qed.

Lemma scope_days_targets (location : string) (ev : Event.t) (targets : list string) :
  (∀ t, t ∈ targets → ¬ holiday_tag t) →
  flat_map (scope_days location ev) targets = [].
Proof.
  induction targets as [|t targets IH]; intros Htags; [done|].
  cbn [flat_map]. rewrite IH by (intros t' ?; apply Htags; by apply list_elem_of_further).
  unfold scope_days.
  assert (in_scopeb t location = false) as ->; [|done].
  apply not_true_is_false. rewrite in_scopeb_spec. intros Hs.
  apply (Htags t (list_elem_of_here _ _)). unfold holiday_tag, in_scope in *. tauto.
Qed.

Lemma run_single_event (employees : list Employee.t) (event : Event.t)
    (start_date end_date : Z) (m : gmap string (list string)) (targets : list string)
    (r : run_result) (i : nat) (emp : Employee.t) :
  NoDup (Employee.name <$> employees) →
  NoDup targets → (∀ t, t ∈ targets → ¬ holiday_tag t) →
  m !! Event.name event = Some targets →
  Event.type event = "P" ∨ Event.type event = "T" →
  run employees [event] start_date end_date m = Some r →
  employees !! i = Some emp →
  let days := if decide (Employee.name emp ∈ targets) then event_dates event else [] in
  ∃ emp',
    employees_after r !! i = Some emp'
    ∧ (Event.type event = "P" → Employee.PTO emp' = days ∧ Employee.Travel emp' = [])
    ∧ (Event.type event = "T" → Employee.Travel emp' = days ∧ Employee.PTO emp' = [])
    ∧ Employee.Holiday emp' = []
    ∧ ∀ d, status_at (processed_data r) (Employee.name emp) d
           = if decide (Employee.name emp ∈ targets
                        ∧ Event.start_date event <= d < Event.end_date event)
             then Some (Event.type event) else None.
Proof.
  intros Hnd Hndt Htags Hm Hty Hrun Hi. cbv zeta.
  destruct (run_lists employees [event] start_date end_date m r i emp Hnd Hrun Hi)
    as (emp' & Hi' & Hname & HP & HT & HH).
  pose proof Hrun as Hrun'. apply run_Some in Hrun' as [Hne Hr].
  assert (events_in_range [event] start_date end_date = [event]) as Hrange.
  { unfold events_in_range in *. cbn [List.filter] in *.
    by destruct (in_window start_date end_date event). }
  rewrite Hrange in HP, HT, HH. unfold assigned, targets_of in HP, HT, HH.
  cbn [flat_map] in HP, HT, HH. rewrite Hm in HP, HT, HH.
  cbn [default] in HP, HT, HH. unfold id in HP, HT, HH.
  rewrite app_nil_r, name_days_targets in HP, HT by done.
  rewrite app_nil_r, scope_days_targets in HH by done.
  assert (emp' ∈ employees_after r) as Hin by (by eapply list_elem_of_lookup_2).
  assert (∀ d, status_at (processed_data r) (Employee.name emp) d = status_of emp' d)
    as Hstatus.
  { intros d. rewrite <- Hname. subst r. unfold result_of in *.
    cbn [processed_data employees_after] in *.
    apply (status_at_unique _ i); [|done]. by rewrite populate_lists_names. }
  exists emp'. split; [done|].
  assert ("P" ≠ "T") as HPT by done.
  split_and!.
  - intros Ht. rewrite HP, HT. rewrite Ht.
    rewrite (decide_False (P := _ ∧ "P" = "T")) by (intros [_ ?]; done).
    split; [|done]. by destruct (decide (Employee.name emp ∈ targets));
      [rewrite decide_True|rewrite decide_False by tauto].
  - intros Ht. rewrite HP, HT. rewrite Ht.
    rewrite (decide_False (P := _ ∧ "T" = "P")) by (intros [_ ?]; done).
    split; [|done]. by destruct (decide (Employee.name emp ∈ targets));
      [rewrite decide_True|rewrite decide_False by tauto].
  - exact HH.
  - intros d. rewrite Hstatus. unfold status_of. rewrite HH, HT, HP.
    rewrite (decide_False (P := d ∈ [])) by apply not_elem_of_nil.
    destruct Hty as [Ht|Ht]; rewrite Ht.
    + rewrite (decide_False (P := _ ∧ "P" = "T")) by (intros [_ ?]; done).
      rewrite (decide_False (P := d ∈ [])) by apply not_elem_of_nil.
      destruct (decide (Employee.name emp ∈ targets)) as [Hn|Hn].
      * rewrite (decide_True (P := _ ∧ "P" = "P")) by done.
        destruct (decide (d ∈ event_dates event)) as [Hd|Hd].
        -- rewrite decide_True; [done|]. by apply elem_of_event_dates in Hd.
        -- rewrite decide_False; [done|]. intros [_ H']. by apply Hd, elem_of_event_dates.
      * rewrite (decide_False (P := _ ∧ "P" = "P")) by tauto.
        rewrite (decide_False (P := d ∈ [])) by apply not_elem_of_nil.
        by rewrite decide_False by tauto.
    + destruct (decide (Employee.name emp ∈ targets)) as [Hn|Hn].
      * rewrite (decide_True (P := _ ∧ "T" = "T")) by done.
        destruct (decide (d ∈ event_dates event)) as [Hd|Hd].
        -- rewrite decide_True; [done|]. by apply elem_of_event_dates in Hd.
        -- rewrite (decide_False (P := _ ∧ "T" = "P")) by (intros [_ ?]; done).
           rewrite (decide_False (P := d ∈ [])) by apply not_elem_of_nil.
           rewrite decide_False; [done|]. intros [_ H']. by apply Hd, elem_of_event_dates.
      * rewrite (decide_False (P := _ ∧ "T" = "T")) by tauto.
        rewrite (decide_False (P := d ∈ [])) by apply not_elem_of_nil.
        rewrite (decide_False (P := _ ∧ "T" = "P")) by tauto.
        rewrite (decide_False (P := d ∈ [])) by apply not_elem_of_nil.
        by rewrite decide_False by tauto.
Qed.
(** ** Events and their targets *)

(** C5.  The days of an event are the calendar days from its start date up
    to, and without, its end date, each once; an event that ends the day after
    it starts has one day.  Every target of an event assigns exactly these
    days, once: after a run (roster names unique) the PTO list of an employee
    is the concatenation, over the events kept by the window filter and over
    their targets in order, of the days of the event for each target that is
    the employee's name on an event of type P, the Travel list likewise for
    type T, and the Holiday list likewise for each target that is a scope of
    the employee's location.  In a run on one PTO or Travel event resolved to
    distinct names, an employee named by the event gets the days of the event
    on the list of the event's type and nothing else, an employee not named
    gets nothing, and the matrix holds the event's type for the named
    employees on exactly the days from the start date up to, and without, the
    end date.  The Travel event "Site Visit" from 2024-03-04 to 2024-03-07,
    resolved to Alice and Bob, gives six assignments: 03-04, 03-05 and 03-06
    for each of them. *)
Theorem date_expansion_exclusive :
  (∀ event d, d ∈ event_dates event
              ↔ Event.start_date event <= d < Event.end_date event)
  ∧ (∀ event, NoDup (event_dates event))
  ∧ (∀ event, length (event_dates event)
              = Z.to_nat (Event.end_date event - Event.start_date event))
  ∧ (∀ event, Event.end_date event = Event.start_date event + 1 →
              event_dates event = [Event.start_date event])
  ∧ (∀ tag, is_holiday_tag tag = true ↔ holiday_tag tag)
  ∧ (∀ tag location, in_scopeb tag location = true ↔ in_scope tag location)
  ∧ (∀ employees all_events start_date end_date event_to_employee_map r
       (i : nat) emp,
       NoDup (Employee.name <$> employees) →
       run employees all_events start_date end_date event_to_employee_map = Some r →
       employees !! i = Some emp →
       ∃ emp',
         employees_after r !! i = Some emp'
         ∧ Employee.name emp' = Employee.name emp
         ∧ Employee.PTO emp'
           = assigned (name_days "P" (Employee.name emp)) event_to_employee_map
               (events_in_range all_events start_date end_date)
         ∧ Employee.Travel emp'
           = assigned (name_days "T" (Employee.name emp)) event_to_employee_map
               (events_in_range all_events start_date end_date)
         ∧ Employee.Holiday emp'
           = assigned (scope_days (Employee.location emp)) event_to_employee_map
               (events_in_range all_events start_date end_date))
  ∧ (∀ employees event start_date end_date event_to_employee_map targets r
       (i : nat) emp,
       NoDup (Employee.name <$> employees) →
       NoDup targets → (∀ t, t ∈ targets → ¬ holiday_tag t) →
       event_to_employee_map !! Event.name event = Some targets →
       Event.type event = "P" ∨ Event.type event = "T" →
       run employees [event] start_date end_date event_to_employee_map = Some r →
       employees !! i = Some emp →
       let days :=
         if decide (Employee.name emp ∈ targets) then event_dates event else [] in
       ∃ emp',
         employees_after r !! i = Some emp'
         ∧ (Event.type event = "P" →
            Employee.PTO emp' = days ∧ Employee.Travel emp' = [])
         ∧ (Event.type event = "T" →
            Employee.Travel emp' = days ∧ Employee.PTO emp' = [])
         ∧ Employee.Holiday emp' = []
         ∧ ∀ d, status_at (processed_data r) (Employee.name emp) d
                = if decide (Employee.name emp ∈ targets
                             ∧ Event.start_date event <= d < Event.end_date event)
                  then Some (Event.type event) else None)
  ∧ (let d4 := date 2024 3 4 in let d5 := date 2024 3 5 in let d6 := date 2024 3 6 in
     ∃ r ws,
       main [Person "Alice" "US" [Person "Bob" "France" []]]
            [] [("Site Visit", date 2024 3 4, date 2024 3 7)] (date 2024 3 15) 6
            {[ "Site Visit" := ["Alice"; "Bob"] ]}
       = Generated r ws
       ∧ employees_after r
         = [Employee.mk "Alice" "US" [] [d4; d5; d6] [];
            Employee.mk "Bob" "France" [] [d4; d5; d6] []]
       ∧ processed_data r
         = {[ "Alice" := {[ d4 := "T"; d5 := "T"; d6 := "T" ]};
              "Bob" := {[ d4 := "T"; d5 := "T"; d6 := "T" ]} ]}).
Proof.
  split_and!.
  - apply elem_of_event_dates.
  - intros event. unfold event_dates. apply NoDup_fmap_2; [|apply NoDup_seqZ].
    intros x y ?. lia.
  - intros event. unfold event_dates. by rewrite length_fmap, length_seqZ.
  - intros event H. unfold event_dates. rewrite H.
    replace (Event.start_date event + 1 - Event.start_date event) with 1 by lia.
    simpl. by rewrite Z.add_0_r.
  - apply is_holiday_tag_spec.
  - apply in_scopeb_spec.
  - apply run_lists.
  - apply run_single_event.
  - eexists _, _. split; [vm_compute; reflexivity|]. split; vm_compute; reflexivity.
Qed.

(** C6.  A holiday scope marks exactly the employees it covers: for the US
    scope those whose location is US, for the France scope those whose
    location is France, for the Company scope all of them.  One application
    extends the Holiday days of these employees and leaves the others as they
    are; in a run on one event resolved to one scope, the matrix has a Holiday
    entry exactly for the employees of the scope on the days of the event,
    and no other entry.  A US scope on 2024-07-04 with Alice in the US and Bob
    in France marks Alice and leaves Bob without an entry. *)
Theorem holiday_scope_fanout :
  (∀ emap event employees tag (i : nat) emp,
     holiday_tag tag → employees !! i = Some emp →
     (in_scope tag (Employee.location emp) →
      apply_target emap event employees tag !! i
      = Some (extend_Holiday (event_dates event) emp))
     ∧ (¬ in_scope tag (Employee.location emp) →
        apply_target emap event employees tag !! i = Some emp))
  ∧ (∀ employees event start_date end_date
       (event_to_employee_map : gmap string (list string)) tag,
       in_window start_date end_date event = true → holiday_tag tag →
       event_to_employee_map !! Event.name event = Some [tag] →
       ∃ r, run employees [event] start_date end_date event_to_employee_map = Some r
            ∧ ∀ name d,
                (status_at (processed_data r) name d = Some "H"
                 ↔ (∃ emp, emp ∈ employees ∧ Employee.name emp = name
                           ∧ in_scope tag (Employee.location emp))
                   ∧ Event.start_date event <= d < Event.end_date event)
                ∧ (∀ code, status_at (processed_data r) name d = Some code → code = "H"))
  ∧ (∃ r, run [Employee.mk "Alice" "US" [] [] []; Employee.mk "Bob" "France" [] [] []]
              [Event.mk "Independence Day" (date 2024 7 4) (date 2024 7 5) "P" []]
              (date 2024 7 1) (date 2024 7 1 + 180)
              {[ "Independence Day" := ["_HOLIDAY_US"] ]} = Some r
          ∧ processed_data r = {[ "Alice" := {[ date 2024 7 4 := "H" ]}; "Bob" := ∅ ]}
          ∧ status_at (processed_data r) "Alice" (date 2024 7 4) = Some "H"
          ∧ status_at (processed_data r) "Bob" (date 2024 7 4) = None).
Proof.
  split_and!.
  - intros emap event employees tag i emp Htag Hi.
    rewrite apply_target_imap, list_lookup_imap, Hi. simpl.
    unfold target_effect, in_scope.
    destruct Htag as [-> | [-> | ->]]; simpl; repeat case_decide; naive_solver.
  - intros employees event s e m tag Hwin Htag Hmap.
    assert (events_in_range [event] s e = [event]) as Hr
      by (unfold events_in_range; simpl; by rewrite Hwin).
    eexists. split; [eapply run_is_Some; rewrite Hr; apply list_elem_of_here|].
    rewrite Hr. unfold result_of. cbn [processed_data].
    change (with_employee m <$> [event]) with [with_employee m event].
    set (ev' := with_employee m event).
    set (emps := populate_lists employees [ev']).
    assert (Event.employee ev' = [tag]) as Hemp
      by (subst ev'; simpl; by rewrite Hmap).
    assert (∀ i e0 e1, employees !! i = Some e0 → emps !! i = Some e1 →
              Employee.name e1 = Employee.name e0
              ∧ ∀ d, status_of e1 d
                     = if decide (in_scope tag (Employee.location e0)
                                  ∧ Event.start_date event <= d < Event.end_date event)
                       then Some "H" else None) as Hstat.
    { intros i e0 e1 H0 H1. subst emps. rewrite populate_lists_lookup, H0 in H1.
      set (emap := employee_map _) in *.
      assert (e1 = final_employee emap [ev'] i (reset_lists e0)) as ->
        by (symmetry; exact (Some_inj _ _ H1)).
      clear H1. split.
      { by destruct (final_employee_identity emap [ev'] i (reset_lists e0)) as [-> _]. }
      intros d. unfold status_of.
      assert (d ∈ Employee.Holiday (final_employee emap [ev'] i (reset_lists e0))
              ↔ in_scope tag (Employee.location e0)
                ∧ Event.start_date event <= d < Event.end_date event) as HH.
      { rewrite final_employee_Holiday. simpl. setoid_rewrite list_elem_of_singleton.
        assert (Event.start_date event <= d < Event.end_date event
                ↔ d ∈ event_dates ev') as -> by (by rewrite elem_of_event_dates).
        split.
        - intros [H|(ev & -> & (tok & Htok & ?) & ?)]; [by apply elem_of_nil in H|].
          rewrite Hemp in Htok. apply list_elem_of_singleton in Htok. by subst.
        - intros [? ?]. right. exists ev'. split_and!; [done| |done].
          exists tag. rewrite Hemp. split; [apply list_elem_of_here|done]. }
      assert (d ∉ Employee.Travel (final_employee emap [ev'] i (reset_lists e0))) as HT.
      { rewrite final_employee_Travel. simpl.
        intros [H|(ev & Hev & (tok & Htok & Hpos & _) & _)]; [by apply elem_of_nil in H|].
        apply list_elem_of_singleton in Hev. subst ev. rewrite Hemp in Htok.
        apply list_elem_of_singleton in Htok. by subst. }
      assert (d ∉ Employee.PTO (final_employee emap [ev'] i (reset_lists e0))) as HP.
      { rewrite final_employee_PTO. simpl.
        intros [H|(ev & Hev & (tok & Htok & Hpos & _) & _)]; [by apply elem_of_nil in H|].
        apply list_elem_of_singleton in Hev. subst ev. rewrite Hemp in Htok.
        apply list_elem_of_singleton in Htok. by subst. }
      repeat case_decide; naive_solver. }
    assert (Employee.name <$> emps = Employee.name <$> employees) as Hnames
      by apply populate_lists_names.
    assert (∀ e1, e1 ∈ emps → ∃ i e0, employees !! i = Some e0 ∧ emps !! i = Some e1)
      as Hback.
    { intros e1 H1. apply list_elem_of_lookup in H1 as [i Hi]. exists i.
      destruct (employees !! i) as [e0|] eqn:E0; [by eauto|].
      apply lookup_ge_None in E0. apply lookup_lt_Some in Hi.
      assert (length emps = length employees)
        by (by rewrite <- (length_fmap Employee.name), Hnames, length_fmap).
      lia. }
    intros name d. split; [split|].
    + intros Hst. apply status_at_Some in Hst as (e1 & H1 & Hn & Hs).
      destruct (Hback _ H1) as (i & e0 & H0 & Hi).
      destruct (Hstat i e0 e1 H0 Hi) as [Hn' Hs']. rewrite Hs' in Hs.
      case_decide as Hc; [|done]. destruct Hc as [? ?]. split; [|done].
      exists e0. split_and!; [by eapply list_elem_of_lookup_2|congruence|done].
    + intros [(e0 & H0 & Hn & Hsc) Hd]. unfold status_at.
      rewrite build_processed_data_lookup, decide_True.
      2:{ rewrite Hnames. apply list_elem_of_fmap. by exists e0. }
      simpl. rewrite fold_cell_lookup, lookup_empty. apply fold_status_all.
      * intros e1 H1 _. destruct (Hback _ H1) as (i & e0' & H0' & Hi).
        destruct (Hstat i e0' e1 H0' Hi) as [_ Hs']. rewrite Hs'.
        destruct (decide _); [by left|by right].
      * right. apply list_elem_of_lookup in H0 as [i H0].
        destruct (emps !! i) as [e1|] eqn:E1.
        -- exists e1. destruct (Hstat i e0 e1 H0 E1) as [Hn' Hs'].
           split_and!; [by eapply list_elem_of_lookup_2|congruence|].
           rewrite Hs'. by rewrite decide_True.
        -- apply lookup_ge_None in E1. apply lookup_lt_Some in H0.
           assert (length emps = length employees)
             by (by rewrite <- (length_fmap Employee.name), Hnames, length_fmap).
           lia.
    + intros code Hst. apply status_at_Some in Hst as (e1 & H1 & Hn & Hs).
      destruct (Hback _ H1) as (i & e0 & H0 & Hi).
      destruct (Hstat i e0 e1 H0 Hi) as [_ Hs']. rewrite Hs' in Hs.
      case_decide; by simplify_eq.
  - eexists. split; [vm_compute; reflexivity|]. split_and!; vm_compute; reflexivity.
Qed.

(** C8, amended.  An event whose resolved target list is empty, be it
    that the resolver gave the empty list or gave nothing for its name,
    contributes nothing: step 7 leaves every employee as it is, and the run,
    which goes on, ends with the date lists and the matrix it would have
    without the event.  The name of the event is recorded as unmatched exactly
    when the resolver gave nothing for it; a name that the resolver mapped to
    the empty list is not recorded. *)
Theorem empty_targets_contribute_nothing (employees : list Employee.t)
    (before after : list Event.t) (event : Event.t) (start_date end_date : Z)
    (event_to_employee_map : gmap string (list string)) :
  in_window start_date end_date event = true →
  default [] (event_to_employee_map !! Event.name event) = [] →
  ∃ r, run employees (before ++ event :: after) start_date end_date
           event_to_employee_map = Some r
       ∧ (∀ emap emps,
            process_event emap emps (with_employee event_to_employee_map event) = emps)
       ∧ employees_after r
         = populate_lists employees
             (with_employee event_to_employee_map
                <$> events_in_range (before ++ after) start_date end_date)
       ∧ processed_data r
         = build_processed_data
             (populate_lists employees
                (with_employee event_to_employee_map
                   <$> events_in_range (before ++ after) start_date end_date))
       ∧ (Event.name event ∈ unmatched_event_names r
          ↔ event_to_employee_map !! Event.name event = None).
Proof.
  intros Hwin Hempty. set (m := event_to_employee_map) in *.
  assert (∀ emap emps, process_event emap emps (with_employee m event) = emps) as Hid.
  { intros emap emps. unfold process_event, with_employee. simpl. by rewrite Hempty. }
  assert (events_in_range (before ++ event :: after) start_date end_date
          = events_in_range before start_date end_date
            ++ event :: events_in_range after start_date end_date) as Hr.
  { unfold events_in_range. rewrite List.filter_app. simpl. by rewrite Hwin. }
  assert (populate_lists employees
            (with_employee m <$> events_in_range (before ++ event :: after)
                                   start_date end_date)
          = populate_lists employees
              (with_employee m <$> events_in_range (before ++ after) start_date end_date))
    as Hpop.
  { rewrite Hr. unfold events_in_range at 3. rewrite List.filter_app.
    unfold populate_lists. cbv zeta. rewrite !fmap_app, fmap_cons, !foldl_app.
    simpl. by rewrite Hid. }
  eexists. split.
  { eapply (run_is_Some _ _ _ _ _ event). rewrite Hr, elem_of_app. right.
    apply list_elem_of_here. }
  unfold result_of. simpl. split_and!; [done|done|by rewrite Hpop|].
  rewrite associate_snd. split; [by intros [_ ?]|]. intros Hn. split; [|done].
  exists event. split; [|done]. rewrite Hr, elem_of_app. right. apply list_elem_of_here.
Qed.

(** C10.  A target that is neither a holiday scope marker nor the name of an
    employee of the roster is ignored: applying it leaves every employee as it
    is, the run ends with the date lists, the matrix and the unmatched names
    it has when the target is taken out of the resolver's answer, and the name
    of the event is not recorded as unmatched. *)
Theorem unknown_target_ignored (employees : list Employee.t) (all_events : list Event.t)
    (start_date end_date : Z) (event_to_employee_map : gmap string (list string))
    (event : Event.t) (targets : list string) (target : string) :
  event ∈ all_events → in_window start_date end_date event = true →
  event_to_employee_map !! Event.name event = Some targets →
  target ∈ targets → ¬ holiday_tag target →
  target ∉ Employee.name <$> employees →
  ∃ r, run employees all_events start_date end_date event_to_employee_map = Some r
       ∧ (∀ ev emps,
            apply_target (employee_map (reset_lists <$> employees)) ev emps target = emps)
       ∧ Event.name event ∉ unmatched_event_names r
       ∧ ∃ r', run employees all_events start_date end_date
                   (<[Event.name event := filter (λ t, t ≠ target) targets]>
                      event_to_employee_map) = Some r'
               ∧ employees_after r' = employees_after r
               ∧ processed_data r' = processed_data r
               ∧ unmatched_event_names r' = unmatched_event_names r.
Proof.
  intros Hev Hwin Hmap Htok Htag Hname. set (m := event_to_employee_map) in *.
  set (m' := <[Event.name event := filter (λ t, t ≠ target) targets]> m).
  assert (event ∈ events_in_range all_events start_date end_date) as Hin.
  { unfold events_in_range. by apply list_elem_of_In, filter_In, conj;
      [apply list_elem_of_In|]. }
  assert (∀ ev emps,
            apply_target (employee_map (reset_lists <$> employees)) ev emps target = emps)
    as Hid by (intros; by apply apply_target_unknown).
  set (evs := events_in_range all_events start_date end_date) in *.
  assert (populate_lists employees (with_employee m' <$> evs)
          = populate_lists employees (with_employee m <$> evs)) as Hpop.
  { unfold populate_lists. cbv zeta. generalize (reset_lists <$> employees) at 2 4.
    clear Hin. induction evs as [|ev evs IH]; intros emps; [done|].
    rewrite !fmap_cons. cbn [foldl]. rewrite <- IH. f_equal.
    rewrite !process_event_fold. unfold with_employee at 2 4. cbn [Event.employee].
    subst m'. destruct (decide (Event.name event = Event.name ev)) as [Heq|Hne].
    - rewrite <- Heq, lookup_insert_eq, Hmap. cbn [default]. unfold id.
      rewrite (foldl_filter_id _ (λ t, t ≠ target)).
      + apply foldl_ext. intros a b. by apply apply_target_event_ext.
      + intros a b Hb. apply dec_stable in Hb. subst b. apply Hid.
    - rewrite lookup_insert_ne by done.
      apply foldl_ext. intros a b. by apply apply_target_event_ext. }
  eexists. split; [by eapply run_is_Some|]. split; [done|]. split.
  { unfold result_of. simpl. rewrite associate_snd. intros [_ Hn]. congruence. }
  eexists. split; [by eapply run_is_Some|]. unfold result_of. simpl. fold evs.
  split_and!; [done|by rewrite Hpop|].
  apply set_eq. intros n. rewrite !associate_snd. subst m'.
  destruct (decide (Event.name event = n)) as [<-|Hne].
  - rewrite lookup_insert_eq, Hmap. naive_solver.
  - by rewrite lookup_insert_ne.
Qed.

(** ** The employee rows *)
Section employee_rows.
Variable processed_data : gmap string (gmap Z string).
Variable days : list Z.

Lemma person_ind' (P : person → Prop) :
  (∀ name location reports, Forall P reports → P (Person name location reports)) →
  ∀ p, P p.
Proof.
  intros H. fix IH 1. intros [name location reports]. apply H.
  induction reports as [|p reports IHr]; constructor; [apply IH|exact IHr].
Qed.

Lemma fill_cell_spec (ev : gmap Z string) (row : Z) (fs : list (Z * Z * string))
    (c d : Z) :
  fill_cell ev row (fs, c) d
  = (fs ++ match status_fill (ev !! d) with
           | Some colour => [(row, c, colour)]
           | None => []
           end, c + 1).
Proof.
  unfold fill_cell, status_fill. cbn [fst snd]. f_equal.
  destruct (ev !! d) as [v|]; cbn [default]; unfold id;
    repeat case_decide; simplify_eq; try done; by rewrite app_nil_r.
Qed.

Lemma fill_cell_fold (ev : gmap Z string) (row : Z) (l : list Z)
    (fs : list (Z * Z * string)) (c : Z) :
  foldl (fill_cell ev row) (fs, c) l
  = (fs ++ cell_fills ev row c l, c + Z.of_nat (length l)).
Proof.
  revert fs c. induction l as [|d l IH]; intros fs c; cbn [foldl cell_fills length].
  - by rewrite app_nil_r, Z.add_0_r.
  - rewrite fill_cell_spec, IH, <- app_assoc. f_equal. lia.
Qed.

Lemma elem_of_cell_fills (ev : gmap Z string) (row c : Z) (l : list Z)
    (r col : Z) (colour : string) :
  (r, col, colour) ∈ cell_fills ev row c l
  ↔ r = row ∧ ∃ (i : nat) d, l !! i = Some d ∧ col = c + Z.of_nat i
                             ∧ status_fill (ev !! d) = Some colour.
Proof.
  revert c. induction l as [|d l IH]; intros c; cbn [cell_fills].
  - split; [intros H; by apply elem_of_nil in H|]. by intros (_ & i & d & H & _).
  - rewrite elem_of_app, IH. split.
    + intros [H|(-> & i & d' & Hi & -> & Hs)].
      * destruct (status_fill (ev !! d)) as [colour'|] eqn:E;
          [|by apply elem_of_nil in H].
        apply list_elem_of_singleton in H. simplify_eq. split; [done|].
        exists 0%nat, d. split_and!; [done|lia|done].
      * split; [done|]. exists (S i), d'. split_and!; [done|lia|done].
    + intros (-> & i & d' & Hi & -> & Hs). destruct i as [|i]; simpl in Hi.
      * simplify_eq. left. rewrite Hs, Z.add_0_r. apply list_elem_of_here.
      * right. split; [done|]. exists i, d'. split_and!; [done|lia|done].
Qed.

Lemma add_rows_nil (sh : sheet) (r : Z) : add_rows processed_data days sh r [] = sh.
Proof.
  unfold add_rows, ws_app. simpl. rewrite !app_nil_r. by destruct sh as [[] ? ? ?].
Qed.

Lemma add_rows_app (sh : sheet) (r : Z) (l1 l2 : list (string * Z)) :
  add_rows processed_data days (add_rows processed_data days sh r l1)
    (r + Z.of_nat (length l1)) l2
  = add_rows processed_data days sh r (l1 ++ l2).
Proof.
  unfold add_rows, ws_app. cbn [sheet_ws fills indents widths cells merged_cells].
  rewrite !imap_app, join_app, !app_nil_r, <- !app_assoc.
  assert (E : ∀ i : nat, r + Z.of_nat (length l1) + Z.of_nat i
                         = r + Z.of_nat (length l1 + i)) by (intros; lia).
  repeat first [apply imap_ext; intros i x _; simpl; by rewrite E | progress f_equal].
Qed.

Lemma write_employee_rows_spec (reports : list person) (depth : Z) :
  Forall (λ p, ∀ depth sh r,
            write_employee_row processed_data days p depth (sh, r)
            = (add_rows processed_data days sh r (preorder depth p),
               r + Z.of_nat (length (preorder depth p)))) reports →
  ∀ sh r,
    foldl (λ st report, write_employee_row processed_data days report depth st)
          (sh, r) reports
    = (add_rows processed_data days sh r (flat_map (preorder depth) reports),
       r + Z.of_nat (length (flat_map (preorder depth) reports))).
Proof.
  induction 1 as [|p reports Hp _ IH]; intros sh r; cbn [foldl flat_map].
  - by rewrite add_rows_nil, Z.add_0_r.
  - rewrite Hp, IH, add_rows_app, length_app. f_equal. lia.
Qed.

Lemma write_employee_row_spec (p : person) (depth : Z) (sh : sheet) (r : Z) :
  write_employee_row processed_data days p depth (sh, r)
  = (add_rows processed_data days sh r (preorder depth p),
     r + Z.of_nat (length (preorder depth p))).
Proof.
  revert depth sh r. induction p as [name location reports IH] using person_ind'.
  intros depth sh r. cbn [write_employee_row preorder fst snd].
  rewrite fill_cell_fold. cbn [fst].
  rewrite (write_employee_rows_spec reports (depth + 1) IH).
  change ((name, depth) :: flat_map (preorder (depth + 1)) reports)
    with ([(name, depth)] ++ flat_map (preorder (depth + 1)) reports).
  rewrite <- add_rows_app. f_equal; [|rewrite length_app; cbn [length]; lia].
  change (Z.of_nat (length [(name, depth)])) with 1. f_equal.
  unfold add_rows, ws_app, ws_cell.
  cbn [sheet_ws fills indents widths cells merged_cells imap mjoin list_join fst snd].
  rewrite !app_nil_r, Z.add_0_r. done.
Qed.

Lemma preorder_names (p : person) (depth : Z) :
  (preorder depth p).*1 = Employee.name <$> flatten_person p.
Proof.
  revert depth. induction p as [name location reports IH] using person_ind'.
  intros depth. cbn [preorder flatten_person]. rewrite !fmap_cons. f_equal.
  induction IH as [|p reports Hp _ IHr]; [done|].
  cbn [flat_map]. rewrite !fmap_app, Hp, IHr. done.
Qed.

Lemma preorder_forest_names (ps : list person) (depth : Z) :
  (flat_map (preorder depth) ps).*1 = Employee.name <$> flatten_employees ps.
Proof.
  unfold flatten_employees. induction ps as [|p ps IH]; [done|].
  cbn [flat_map]. by rewrite !fmap_app, preorder_names, IH.
Qed.

End employee_rows.

Lemma generate_excel_eq (processed_data : gmap string (gmap Z string))
    (employees : list person) (start_date end_date : Z) :
  generate_excel processed_data employees start_date end_date
  = let header := generate_excel_header start_date end_date in
    let sh := add_rows processed_data (weekdays start_date end_date)
                {| sheet_ws := header.1; fills := []; indents := []; widths := [] |}
                4 (flat_map (preorder 0) employees) in
    {| sheet_ws := sheet_ws sh; fills := fills sh; indents := indents sh;
       widths := (1, 20) :: ((λ i, (i, 7)) <$> seqZ 2 (header.2 - 2)) |}.
Proof.
  unfold generate_excel. cbv zeta.
  rewrite (write_employee_rows_spec processed_data (weekdays start_date end_date)
             employees 0).
  - done.
  - apply Forall_forall. intros p _ depth sh r. apply write_employee_row_spec.
Qed.

(** ** The sheet of [generate_excel] *)

Lemma day_cells_column1 (c : Z) (days : list Z) :
  2 <= c → omap (cell_in_column 1) (day_cells c days) = [].
Proof.
  revert c. induction days as [|d days IH]; intros c Hc; [done|].
  cbn [day_cells omap list_omap cell_in_column].
  destruct (Z.eqb_spec c 1) as [?|_]; [lia|]. apply IH. lia.
Qed.

Lemma weeks_cells_column1 (c : Z) (weeks : list (string * list Z)) :
  2 <= c → omap (cell_in_column 1) (weeks_cells c weeks) = [].
Proof.
  revert c. induction weeks as [|w weeks IH]; intros c Hc; [done|].
  cbn [weeks_cells]. rewrite !omap_app, day_cells_column1 by done.
  rewrite IH by (unfold week_len; lia).
  destruct (0 <? week_len w); [|done]. cbn [omap list_omap cell_in_column].
  by destruct (Z.eqb_spec c 1) as [?|_]; [lia|].
Qed.

Lemma months_cells_column1 (c : Z) (months : list (string * list (string * list Z))) :
  2 <= c → omap (cell_in_column 1) (months_cells c months) = [].
Proof.
  revert c. induction months as [|mo months IH]; intros c Hc; [done|].
  cbn [months_cells]. rewrite !omap_app, weeks_cells_column1 by done.
  rewrite IH by (unfold month_len; lia).
  destruct (c + month_len mo - 1 >=? c); [|done]. cbn [omap list_omap cell_in_column].
  by destruct (Z.eqb_spec c 1) as [?|_]; [lia|].
Qed.

Lemma name_cells_row3 (r : Z) (rows : list (string * Z)) :
  4 <= r →
  omap (cell_in_row 3) (imap (λ i nd, (r + Z.of_nat i, 1, nd.1)) rows) = [].
Proof.
  revert r. induction rows as [|nd rows IH]; intros r Hr; [done|].
  rewrite imap_cons. cbn [omap list_omap cell_in_row].
  destruct (Z.eqb_spec (r + Z.of_nat 0) 3) as [?|_]; [lia|].
  rewrite <- (IH (r + 1)) by lia. f_equal. apply imap_ext. intros i x _. simpl.
  do 2 f_equal. lia.
Qed.

Lemma name_cells_column1 (r : Z) (rows : list (string * Z)) :
  omap (cell_in_column 1) (imap (λ i nd, (r + Z.of_nat i, 1, nd.1)) rows)
  = imap (λ i nd, (r + Z.of_nat i, nd.1)) rows.
Proof.
  revert r. induction rows as [|nd rows IH]; intros r; [done|].
  rewrite !imap_cons. cbn [omap list_omap cell_in_column]. simpl (1 =? 1). f_equal.
  rewrite <- (imap_ext (λ i nd, (r + 1 + Z.of_nat i, nd.1)))
    by (intros i x _; simpl; f_equal; lia).
  rewrite <- IH. f_equal. apply imap_ext. intros i x _. simpl. do 2 f_equal. lia.
Qed.

Lemma elem_of_weekdays (start_date end_date d : Z) :
  d ∈ weekdays start_date end_date
  ↔ start_date <= d <= end_date ∧ datetime.weekday d < 5.
Proof.
  unfold weekdays. rewrite list_elem_of_In, filter_In, <- list_elem_of_In.
  rewrite all_dates_seqZ, elem_of_seqZ, Z.ltb_lt. lia.
Qed.

Lemma status_at_default (processed_data : gmap string (gmap Z string))
    (name : string) (d : Z) :
  default ∅ (processed_data !! name) !! d = status_at processed_data name d.
Proof. unfold status_at. by destruct (processed_data !! name). Qed.

Lemma generate_excel_row3 (processed_data : gmap string (gmap Z string))
    (employees : list person) (start_date end_date : Z) :
  row_cells 3 (sheet_ws (generate_excel processed_data employees start_date end_date))
  = (1, "Employee")
      :: imap (λ i d, (2 + Z.of_nat i, strftime_a_d d)) (weekdays start_date end_date).
Proof.
  rewrite generate_excel_eq, generate_excel_header_eq. unfold row_cells.
  cbn [sheet_ws add_rows ws_app cells fst].
  rewrite !omap_app, name_cells_row3, months_cells_row3 by lia.
  rewrite dates_by_month_week_flatten by apply weekdays_sorted.
  by rewrite app_nil_r.
Qed.

Lemma generate_excel_column1 (processed_data : gmap string (gmap Z string))
    (employees : list person) (start_date end_date : Z) :
  column_cells 1
    (sheet_ws (generate_excel processed_data employees start_date end_date))
  = (3, "Employee")
      :: imap (λ i emp, (4 + Z.of_nat i, Employee.name emp)) (flatten_employees employees).
Proof.
  rewrite generate_excel_eq, generate_excel_header_eq. unfold column_cells.
  cbn [sheet_ws add_rows ws_app cells fst].
  rewrite !omap_app, name_cells_column1, months_cells_column1 by lia.
  cbn [omap list_omap cell_in_column app]. simpl (1 =? 1). f_equal.
  rewrite <- (imap_fmap (λ i name, (4 + Z.of_nat i, name)) Employee.name).
  rewrite <- preorder_forest_names with (depth := 0).
  by rewrite imap_fmap.
Qed.

Lemma generate_excel_fills (processed_data : gmap string (gmap Z string))
    (employees : list person) (start_date end_date : Z) (row col : Z) (colour : string) :
  (row, col, colour)
    ∈ fills (generate_excel processed_data employees start_date end_date)
  ↔ ∃ (k i : nat) emp d,
      flatten_employees employees !! k = Some emp
      ∧ weekdays start_date end_date !! i = Some d
      ∧ row = 4 + Z.of_nat k ∧ col = 2 + Z.of_nat i
      ∧ status_fill (status_at processed_data (Employee.name emp) d) = Some colour.
Proof.
  rewrite generate_excel_eq. cbn [fills add_rows app].
  rewrite list_elem_of_join. split.
  - intros (l & Hin & Hl). apply elem_of_lookup_imap in Hl as (k & nd & -> & Hk).
    apply elem_of_cell_fills in Hin as (-> & i & d & Hi & -> & Hs).
    rewrite status_at_default in Hs.
    assert ((Employee.name <$> flatten_employees employees) !! k = Some nd.1) as Hn.
    { rewrite <- preorder_forest_names with (depth := 0).
      by rewrite list_lookup_fmap, Hk. }
    rewrite list_lookup_fmap in Hn.
    destruct (flatten_employees employees !! k) as [emp|] eqn:E; [|done].
    simpl in Hn. exists k, i, emp, d. split_and!; try done. congruence.
  - intros (k & i & emp & d & Hk & Hi & -> & -> & Hs).
    assert ((flat_map (preorder 0) employees).*1 !! k = Some (Employee.name emp)) as Hn.
    { by rewrite preorder_forest_names, list_lookup_fmap, Hk. }
    rewrite list_lookup_fmap in Hn.
    destruct (flat_map (preorder 0) employees !! k) as [nd|] eqn:E; [|done].
    simpl in Hn. injection Hn as Hn.
    eexists. split; [|apply elem_of_lookup_imap; exists k, nd; split; [reflexivity|exact E]].
    cbv beta. apply elem_of_cell_fills. split; [done|]. exists i, d.
    split_and!; try done. by rewrite Hn, status_at_default.
Qed.

(** One row per employee of the roster, in the order of [flatten_employees]
    (a manager directly above the manager's reports), from row 4 on without a
    gap: column 1 holds the header label and then the names, and the indent
    recorded for a row is the depth of the employee in the hierarchy. *)
Theorem employee_rows_preorder (processed_data : gmap string (gmap Z string))
    (employees : list person) (start_date end_date : Z) :
  let sh := generate_excel processed_data employees start_date end_date in
  column_cells 1 (sheet_ws sh)
  = (3, "Employee")
      :: imap (λ i emp, (4 + Z.of_nat i, Employee.name emp)) (flatten_employees employees)
  ∧ indents sh
    = imap (λ i nd, (4 + Z.of_nat i, nd.2)) (flat_map (preorder 0) employees)
  ∧ (flat_map (preorder 0) employees).*1
    = Employee.name <$> flatten_employees employees.
Proof.
  cbv zeta. split_and!.
  - apply generate_excel_column1.
  - rewrite generate_excel_eq. done.
  - apply preorder_forest_names.
Qed.

(** The coloured cells are exactly these: the cell in the row of the [k]-th
    employee and the column of the [i]-th business day is filled when the
    status matrix holds P, T or H for that employee and day, with the colour
    of that status; nothing else is filled. *)
Theorem fills_exact (processed_data : gmap string (gmap Z string))
    (employees : list person) (start_date end_date : Z) (row col : Z) (colour : string) :
  (row, col, colour)
    ∈ fills (generate_excel processed_data employees start_date end_date)
  ↔ ∃ (k i : nat) emp d,
      flatten_employees employees !! k = Some emp
      ∧ weekdays start_date end_date !! i = Some d
      ∧ row = 4 + Z.of_nat k ∧ col = 2 + Z.of_nat i
      ∧ status_fill (status_at processed_data (Employee.name emp) d) = Some colour.
Proof. apply generate_excel_fills. Qed.

(** A coloured cell lies in the row that carries an employee's name in
    column 1 and in the column that carries a day's header in row 3, no other
    name or header is written in that row or column, the day is a Monday to
    Friday of the reporting range, and the colour is that of the status the
    matrix holds for this employee and this day. *)
Theorem fill_matches_headers (processed_data : gmap string (gmap Z string))
    (employees : list person) (start_date end_date : Z) (row col : Z) (colour : string) :
  let sh := generate_excel processed_data employees start_date end_date in
  (row, col, colour) ∈ fills sh →
  ∃ name d,
    (∀ v, (row, v) ∈ column_cells 1 (sheet_ws sh) ↔ v = name)
    ∧ (∀ v, (col, v) ∈ row_cells 3 (sheet_ws sh) ↔ v = strftime_a_d d)
    ∧ start_date <= d <= end_date ∧ datetime.weekday d < 5
    ∧ status_fill (status_at processed_data name d) = Some colour.
Proof.
  cbv zeta. intros Hin.
  apply generate_excel_fills in Hin as (k & i & emp & d & Hk & Hi & -> & -> & Hs).
  pose proof (list_elem_of_lookup_2 _ _ _ Hi) as Hd. apply elem_of_weekdays in Hd.
  exists (Employee.name emp), d. split_and!; [| |lia|lia|lia|done].
  - intros v. rewrite generate_excel_column1, elem_of_cons, elem_of_lookup_imap.
    split.
    + intros [?|(k' & emp' & Hv & Hk')]; simplify_eq; [lia|].
      assert (k' = k) as -> by lia. congruence.
    + intros ->. right. by exists k, emp.
  - intros v. rewrite generate_excel_row3, elem_of_cons, elem_of_lookup_imap.
    split.
    + intros [?|(i' & d' & Hv & Hi')]; simplify_eq; [lia|].
      assert (i' = i) as -> by lia. congruence.
    + intros ->. right. by exists i, d.
Qed.

(** Column 1 is given the width 20, and the width 7 is given to exactly the
    columns that carry a day header in row 3, in their order. *)
Theorem column_widths (processed_data : gmap string (gmap Z string))
    (employees : list person) (start_date end_date : Z) :
  let sh := generate_excel processed_data employees start_date end_date in
  widths sh = (1, 20) :: ((λ cell, (cell.1, 7)) <$> drop 1 (row_cells 3 (sheet_ws sh))).
Proof.
  cbv zeta. rewrite generate_excel_row3. cbn [drop].
  rewrite generate_excel_eq, generate_excel_header_eq. cbn [widths snd]. f_equal.
  rewrite drop_0, fmap_imap.
  replace (2 + Z.of_nat (length (weekdays start_date end_date)) - 2)
    with (Z.of_nat (length (weekdays start_date end_date))) by lia.
  generalize (weekdays start_date end_date). intros l. generalize 2.
  induction l as [|d l IH]; intros c; [done|].
  rewrite imap_cons. cbn [length]. rewrite Nat2Z.inj_succ, seqZ_cons by lia.
  rewrite fmap_cons. simpl. rewrite Z.add_0_r. f_equal.
  replace (Z.pred (Z.succ (Z.of_nat (length l)))) with (Z.of_nat (length l)) by lia.
  rewrite IH. apply imap_ext. intros i x _. simpl. f_equal. lia.
Qed.

(** ** The matrix, read from the events *)

Section matrix_of_events.
Variable all_events : list Event.t.
Variables start_date end_date : Z.
Variable event_to_employee_map : gmap string (list string).

Lemma elem_of_associated (ev : Event.t) :
  ev ∈ with_employee event_to_employee_map
         <$> events_in_range all_events start_date end_date
  ↔ ∃ event, event ∈ all_events ∧ in_window start_date end_date event = true
             ∧ ev = with_employee event_to_employee_map event.
Proof.
  rewrite list_elem_of_fmap. unfold events_in_range.
  split; intros (event & H1 & H2).
  - apply list_elem_of_In, filter_In in H2 as [H2 H3].
    apply list_elem_of_In in H2. by exists event.
  - destruct H2 as [H2 ->]. exists event. split; [done|].
    apply list_elem_of_In, filter_In. split; [by apply list_elem_of_In|done].
Qed.

Lemma holiday_day_associated (location : string) (d : Z) :
  (∃ ev, ev ∈ with_employee event_to_employee_map
                <$> events_in_range all_events start_date end_date
         ∧ (∃ tok, tok ∈ Event.employee ev ∧ in_scope tok location)
         ∧ d ∈ event_dates ev)
  ↔ holiday_day all_events start_date end_date event_to_employee_map location d.
Proof.
  unfold holiday_day, covers, targets_of. split.
  - intros (ev & Hev & (tok & Htok & Hs) & Hd).
    apply elem_of_associated in Hev as (event & Hin & Hw & ->).
    apply elem_of_event_dates in Hd. simpl in *. by exists event, tok.
  - intros (event & tok & (Hin & Hw & Hd) & Htok & Hs).
    exists (with_employee event_to_employee_map event). split_and!.
    + apply elem_of_associated. by exists event.
    + by exists tok.
    + by apply elem_of_event_dates.
Qed.

Lemma named_day_associated (employees : list Employee.t) (i : nat) (emp : Employee.t)
    (type : string) (d : Z) :
  NoDup (Employee.name <$> employees) → employees !! i = Some emp →
  (∃ ev, ev ∈ with_employee event_to_employee_map
                <$> events_in_range all_events start_date end_date
         ∧ (∃ tok, tok ∈ Event.employee ev
                   ∧ names_position (employee_map (reset_lists <$> employees)) tok i)
         ∧ Event.type ev = type ∧ d ∈ event_dates ev)
  ↔ named_day all_events start_date end_date event_to_employee_map type
      (Employee.name emp) d.
Proof.
  intros Hnd Hi. unfold named_day, covers, targets_of. split.
  - intros (ev & Hev & (tok & Htok & Hp) & Ht & Hd).
    apply elem_of_associated in Hev as (event & Hin & Hw & ->).
    apply (names_position_unique employees i emp tok Hnd Hi) in Hp as [Hh ->].
    apply elem_of_event_dates in Hd. simpl in *. by exists event.
  - intros (event & (Hin & Hw & Hd) & Htok & Hh & Ht).
    exists (with_employee event_to_employee_map event). split_and!.
    + apply elem_of_associated. by exists event.
    + exists (Employee.name emp). split; [done|].
      by apply (names_position_unique employees i emp _ Hnd Hi).
    + done.
    + by apply elem_of_event_dates.
Qed.

Lemma run_status (employees : list Employee.t) (r : run_result) (i : nat)
    (emp : Employee.t) (d : Z) :
  NoDup (Employee.name <$> employees) →
  run employees all_events start_date end_date event_to_employee_map = Some r →
  employees !! i = Some emp →
  let holiday :=
    holiday_day all_events start_date end_date event_to_employee_map
      (Employee.location emp) d in
  let named type :=
    named_day all_events start_date end_date event_to_employee_map type
      (Employee.name emp) d in
  ∃ fe, status_at (processed_data r) (Employee.name emp) d = status_of fe d
        ∧ (d ∈ Employee.Holiday fe ↔ holiday)
        ∧ (d ∈ Employee.Travel fe ↔ named "T")
        ∧ (d ∈ Employee.PTO fe ↔ named "P").
Proof.
  intros Hnd Hrun Hi. cbv zeta. apply run_Some in Hrun as [_ ->].
  unfold result_of. cbn [processed_data].
  set (evs := with_employee event_to_employee_map
                <$> events_in_range all_events start_date end_date).
  set (emap := employee_map (reset_lists <$> employees)).
  set (fe := final_employee emap evs i (reset_lists emp)).
  assert (populate_lists employees evs !! i = Some fe) as Hfe
    by (by rewrite populate_lists_lookup, Hi).
  destruct (final_employee_identity emap evs i (reset_lists emp)) as [Hname Hloc].
  fold fe in Hname, Hloc. simpl in Hname, Hloc.
  exists fe. split_and!.
  - rewrite <- Hname. apply (status_at_unique _ i); [|done].
    by rewrite populate_lists_names.
  - subst fe. rewrite final_employee_Holiday. simpl.
    rewrite <- holiday_day_associated. fold evs. rewrite elem_of_nil. naive_solver.
  - subst fe. rewrite final_employee_Travel. simpl.
    rewrite <- (named_day_associated employees i emp "T" d Hnd Hi). fold evs emap.
    rewrite elem_of_nil. naive_solver.
  - subst fe. rewrite final_employee_PTO. simpl.
    rewrite <- (named_day_associated employees i emp "P" d Hnd Hi). fold evs emap.
    rewrite elem_of_nil. naive_solver.
Qed.

End matrix_of_events.

Lemma run_status_cases (employees : list Employee.t) (all_events : list Event.t)
    (start_date end_date : Z) (event_to_employee_map : gmap string (list string))
    (r : run_result) (emp : Employee.t) (d : Z) :
  NoDup (Employee.name <$> employees) →
  run employees all_events start_date end_date event_to_employee_map = Some r →
  emp ∈ employees →
  let status := status_at (processed_data r) (Employee.name emp) d in
  let holiday :=
    holiday_day all_events start_date end_date event_to_employee_map
      (Employee.location emp) d in
  let named type :=
    named_day all_events start_date end_date event_to_employee_map type
      (Employee.name emp) d in
  (status = Some "H" ↔ holiday)
  ∧ (status = Some "T" ↔ ¬ holiday ∧ named "T")
  ∧ (status = Some "P" ↔ ¬ holiday ∧ ¬ named "T" ∧ named "P")
  ∧ (status = None ↔ ¬ holiday ∧ ¬ named "T" ∧ ¬ named "P").
Proof.
  intros Hnd Hrun Hemp. cbv zeta. apply list_elem_of_lookup in Hemp as [i Hi].
  destruct (run_status all_events start_date end_date event_to_employee_map
              employees r i emp d Hnd Hrun Hi) as (fe & -> & HH & HT & HP).
  unfold status_of. repeat case_decide; naive_solver.
Qed.

(** The status matrix of a run, read from the events (roster names unique).
    The entry of an employee on a day is H exactly when an event kept by the
    window filter covers the day and has a holiday scope of the employee's
    location among its targets; else T exactly when such an event of type T
    names the employee; else P exactly when such an event of type P names the
    employee; and there is no entry otherwise. *)
Theorem matrix_from_events (employees : list Employee.t) (all_events : list Event.t)
    (start_date end_date : Z) (event_to_employee_map : gmap string (list string))
    (r : run_result) (emp : Employee.t) (d : Z) :
  NoDup (Employee.name <$> employees) →
  run employees all_events start_date end_date event_to_employee_map = Some r →
  emp ∈ employees →
  let status := status_at (processed_data r) (Employee.name emp) d in
  let holiday :=
    holiday_day all_events start_date end_date event_to_employee_map
      (Employee.location emp) d in
  let named type :=
    named_day all_events start_date end_date event_to_employee_map type
      (Employee.name emp) d in
  (status = Some "H" ↔ holiday)
  ∧ (status = Some "T" ↔ ¬ holiday ∧ named "T")
  ∧ (status = Some "P" ↔ ¬ holiday ∧ ¬ named "T" ∧ named "P")
  ∧ (status = None ↔ ¬ holiday ∧ ¬ named "T" ∧ ¬ named "P").
Proof. apply run_status_cases. Qed.

(** ** The run as a whole *)

(** The names reported as unmatched are exactly the names of the events kept
    by the window filter that the resolver's answer has no key for. *)
Theorem unmatched_names_exact (employees : list Employee.t) (all_events : list Event.t)
    (start_date end_date : Z) (event_to_employee_map : gmap string (list string))
    (r : run_result) (name : string) :
  run employees all_events start_date end_date event_to_employee_map = Some r →
  name ∈ unmatched_event_names r
  ↔ (∃ event, event ∈ all_events ∧ in_window start_date end_date event = true
              ∧ Event.name event = name)
    ∧ event_to_employee_map !! name = None.
Proof.
  intros Hrun. apply run_Some in Hrun as [_ ->]. unfold result_of.
  cbn [unmatched_event_names]. rewrite associate_snd.
  unfold events_in_range. split; intros [(event & Hin & Hn) Hm]; (split; [|done]).
  - apply list_elem_of_In, filter_In in Hin as [Hin Hw].
    apply list_elem_of_In in Hin. by exists event.
  - destruct Hn as [Hw Hn]. exists event. split; [|done].
    apply list_elem_of_In, filter_In. split; [by apply list_elem_of_In|done].
Qed.

Lemma populate_lists_locations (employees : list Employee.t) (events : list Event.t) :
  Employee.location <$> populate_lists employees events
  = Employee.location <$> employees.
Proof.
  rewrite populate_imap, fmap_imap.
  rewrite (imap_ext _ (const Employee.location)); [apply imap_const|].
  intros i e _. simpl.
  by destruct (final_employee_identity (employee_map (reset_lists <$> employees))
                 events i (reset_lists e)) as [_ ->].
Qed.

(** A run keeps the roster: the employees come out in the same order with
    the same names and locations, and the matrix has a row, possibly empty,
    for exactly the names of the roster. *)
Theorem roster_preserved (employees : list Employee.t) (all_events : list Event.t)
    (start_date end_date : Z) (event_to_employee_map : gmap string (list string))
    (r : run_result) :
  run employees all_events start_date end_date event_to_employee_map = Some r →
  Employee.name <$> employees_after r = Employee.name <$> employees
  ∧ Employee.location <$> employees_after r = Employee.location <$> employees
  ∧ ∀ name, is_Some (processed_data r !! name) ↔ name ∈ Employee.name <$> employees.
Proof.
  intros Hrun. apply run_Some in Hrun as [_ ->]. unfold result_of.
  cbn [employees_after processed_data]. split_and!.
  - apply populate_lists_names.
  - apply populate_lists_locations.
  - intros name. rewrite build_processed_data_lookup, populate_lists_names.
    case_decide; split; intros H'; try done; by destruct H'.
Qed.

(** The order of the events does not matter: two lists of events that are
    permutations of each other give the same matrix and the same unmatched
    names, and a run on one has events in range exactly when the run on the
    other has. *)
Theorem event_order_irrelevant (employees : list Employee.t)
    (all_events1 all_events2 : list Event.t) (start_date end_date : Z)
    (event_to_employee_map : gmap string (list string)) :
  all_events1 ≡ₚ all_events2 →
  processed_data
    <$> run employees all_events1 start_date end_date event_to_employee_map
  = processed_data
      <$> run employees all_events2 start_date end_date event_to_employee_map
  ∧ unmatched_event_names
      <$> run employees all_events1 start_date end_date event_to_employee_map
    = unmatched_event_names
        <$> run employees all_events2 start_date end_date event_to_employee_map.
Proof.
  intros HP.
  assert (∀ ev, ev ∈ all_events1 ↔ ev ∈ all_events2) as Hmem
    by (intros ev; by rewrite HP).
  split; [by apply run_processed_data_ext|].
  assert (∀ ev, ev ∈ events_in_range all_events1 start_date end_date
                ↔ ev ∈ events_in_range all_events2 start_date end_date) as Hrange.
  { intros ev. rewrite !elem_of_events_in_range. by rewrite Hmem. }
  rewrite !run_eq.
  destruct (events_in_range all_events1 start_date end_date) as [|ev1 l1] eqn:E1;
    destruct (events_in_range all_events2 start_date end_date) as [|ev2 l2] eqn:E2.
  - done.
  - exfalso. eapply (not_elem_of_nil ev2). apply Hrange, list_elem_of_here.
  - exfalso. eapply (not_elem_of_nil ev1). apply Hrange, list_elem_of_here.
  - unfold result_of. cbn [fmap option_fmap option_map unmatched_event_names].
    f_equal. apply set_eq. intros n. rewrite !associate_snd.
    split; intros [(ev & Hin & Hn) Hm]; (split; [|done]); exists ev;
      (split; [|done]); by apply Hrange.
Qed.

(** For a window that is not empty, the filter keeps an event that has at
    least one day exactly when one of the event's days lies in
    [[start_date, end_date)]. *)
Theorem window_filter_days (start_date end_date : Z) (event : Event.t) :
  start_date < end_date → Event.start_date event < Event.end_date event →
  in_window start_date end_date event = true
  ↔ ∃ d, d ∈ event_dates event ∧ start_date <= d < end_date.
Proof.
  intros Hw He. unfold in_window.
  rewrite andb_true_iff, Z.ltb_lt, Z.gtb_lt. split.
  - intros [H1 H2]. exists (Z.max (Event.start_date event) start_date).
    rewrite elem_of_event_dates. lia.
  - intros (d & Hd & Hr). apply elem_of_event_dates in Hd. lia.
Qed.

Lemma elem_of_load_calendar_events (feed : list (string * Z * Z)) (event_type : string)
    (event : Event.t) :
  event ∈ load_calendar_events feed event_type
  ↔ ∃ entry, entry ∈ feed ∧ entry.1.1 ≠ EmptyString
             ∧ event = Event.mk entry.1.1 entry.1.2 entry.2 event_type [].
Proof.
  unfold load_calendar_events. rewrite list_elem_of_fmap. split.
  - intros (entry & -> & Hin). apply list_elem_of_In, filter_In in Hin as [Hin Hn].
    apply list_elem_of_In in Hin. exists entry. split_and!; [done| |done].
    intros Heq. rewrite Heq in Hn. done.
  - intros (entry & Hin & Hn & ->). exists entry. split; [done|].
    apply list_elem_of_In, filter_In. split; [by apply list_elem_of_In|].
    apply negb_true_iff, String.eqb_neq. done.
Qed.

Lemma covers_feeds (pto_feed travel_feed : list (string * Z * Z))
    (start_date end_date : Z) (event : Event.t) (d : Z) :
  covers (load_calendar_events pto_feed "P" ++ load_calendar_events travel_feed "T")
    start_date end_date event d
  ↔ ∃ entry,
      ((feed_covers pto_feed start_date end_date entry d ∧ Event.type event = "P")
       ∨ (feed_covers travel_feed start_date end_date entry d ∧ Event.type event = "T"))
      ∧ Event.name event = entry.1.1
      ∧ Event.start_date event = entry.1.2 ∧ Event.end_date event = entry.2
      ∧ Event.employee event = [].
Proof.
  unfold covers, feed_covers, in_window.
  rewrite elem_of_app, !elem_of_load_calendar_events.
  rewrite andb_true_iff, Z.ltb_lt, Z.gtb_lt. split.
  - intros ([(entry & Hin & Hn & ->)|(entry & Hin & Hn & ->)] & [H1 H2] & H3);
      simpl in *; exists entry; split_and!; try done.
    + left. split_and!; try done; lia.
    + right. split_and!; try done; lia.
  - intros (entry & Hc & H1 & H2 & H3 & H4). destruct event as [n s e t l].
    simpl in *. subst.
    destruct Hc as [((Hin & Hn & ? & ? & ?) & ->)|((Hin & Hn & ? & ? & ?) & ->)].
    + split_and!; try lia. left. by exists entry.
    + split_and!; try lia. right. by exists entry.
Qed.


(** ** From the feeds to the colours *)

Lemma status_fill_Some (status : option string) (colour : string) :
  status_fill status = Some colour
  ↔ (status = Some "H" ∧ colour = holiday_fill)
    ∨ (status = Some "T" ∧ colour = travel_fill)
    ∨ (status = Some "P" ∧ colour = pto_fill).
Proof.
  unfold status_fill. repeat case_decide; subst; split.
  all: try (intros [= <-]; auto; fail).
  all: try (intros [[[=] _]|[[[=] _]|[[=] _]]]; fail).
  all: try (intros [[[=] ->]|[[[=] ->]|[[=] ->]]]; done).
  all: try (intros [=]; fail).
  all: intros [[-> _]|[[-> _]|[-> _]]]; done.
Qed.

Section feeds.
Variables pto_feed travel_feed : list (string * Z * Z).
Variables start_date end_date : Z.
Variable event_to_employee_map : gmap string (list string).

Let all_events : list Event.t :=
  load_calendar_events pto_feed "P" ++ load_calendar_events travel_feed "T".

Lemma holiday_day_feeds (location : string) (d : Z) :
  holiday_day all_events start_date end_date event_to_employee_map location d
  ↔ ∃ entry tag,
      (feed_covers pto_feed start_date end_date entry d
       ∨ feed_covers travel_feed start_date end_date entry d)
      ∧ tag ∈ default [] (event_to_employee_map !! entry.1.1)
      ∧ in_scope tag location.
Proof.
  unfold holiday_day, targets_of, all_events. split.
  - intros (event & tag & Hc & Htag & Hs).
    apply covers_feeds in Hc as (entry & Hc & Hn & _). rewrite Hn in Htag.
    exists entry, tag. split_and!; [|done..]. destruct Hc as [[? _]|[? _]]; auto.
  - intros (entry & tag & Hc & Htag & Hs). destruct Hc as [Hc|Hc].
    + exists (Event.mk entry.1.1 entry.1.2 entry.2 "P" []), tag.
      split_and!; [|done..]. apply covers_feeds. exists entry. auto.
    + exists (Event.mk entry.1.1 entry.1.2 entry.2 "T" []), tag.
      split_and!; [|done..]. apply covers_feeds. exists entry. auto.
Qed.

Lemma named_day_feeds (type : string) (feed : list (string * Z * Z)) (name : string)
    (d : Z) :
  (type = "P" ∧ feed = pto_feed) ∨ (type = "T" ∧ feed = travel_feed) →
  named_day all_events start_date end_date event_to_employee_map type name d
  ↔ ∃ entry,
      feed_covers feed start_date end_date entry d
      ∧ name ∈ default [] (event_to_employee_map !! entry.1.1)
      ∧ ¬ holiday_tag name.
Proof.
  intros Hty. unfold named_day, targets_of, all_events. split.
  - intros (event & Hc & Hn & Hh & Ht).
    apply covers_feeds in Hc as (entry & Hc & Hname & _). rewrite Hname in Hn.
    exists entry. split_and!; [|done..].
    destruct Hc as [[Hc Hp]|[Hc Hp]], Hty as [[-> ->]|[-> ->]]; congruence.
  - intros (entry & Hc & Hn & Hh).
    exists (Event.mk entry.1.1 entry.1.2 entry.2 type []).
    split_and!; [|done..]. apply covers_feeds. exists entry.
    destruct Hty as [[-> ->]|[-> ->]]; auto.
Qed.

End feeds.

(** [main] from its inputs to the colours of the workbook (roster names
    unique).  A cell is coloured only in the row of an employee and the column
    of a business day of the window.  It is grey exactly when a named entry of
    either feed that overlaps the window covers the day and is resolved to a
    holiday scope of the employee's location; else blue exactly when such an
    entry of the travel feed is resolved to the employee's name; else orange
    exactly when such an entry of the PTO feed is. *)
Theorem workbook_colours (hierarchical_employees : list person)
    (pto_feed travel_feed : list (string * Z * Z)) (today months : Z)
    (event_to_employee_map : gmap string (list string)) (sh : sheet)
    (row col : Z) (colour : string) :
  NoDup (Employee.name <$> flatten_employees hierarchical_employees) →
  main_workbook hierarchical_employees pto_feed travel_feed today months
    event_to_employee_map = Some sh →
  let start_date := datetime.replace_day1 today in
  let end_date := start_date + months * 30 in
  (row, col, colour) ∈ fills sh
  ↔ ∃ (k i : nat) emp d,
      flatten_employees hierarchical_employees !! k = Some emp
      ∧ weekdays start_date end_date !! i = Some d
      ∧ row = 4 + Z.of_nat k ∧ col = 2 + Z.of_nat i
      ∧ let holiday :=
          ∃ entry tag,
            (feed_covers pto_feed start_date end_date entry d
             ∨ feed_covers travel_feed start_date end_date entry d)
            ∧ tag ∈ default [] (event_to_employee_map !! entry.1.1)
            ∧ in_scope tag (Employee.location emp) in
        let named feed :=
          ∃ entry,
            feed_covers feed start_date end_date entry d
            ∧ Employee.name emp ∈ default [] (event_to_employee_map !! entry.1.1)
            ∧ ¬ holiday_tag (Employee.name emp) in
        (colour = holiday_fill ∧ holiday)
        ∨ (colour = travel_fill ∧ ¬ holiday ∧ named travel_feed)
        ∨ (colour = pto_fill ∧ ¬ holiday ∧ ¬ named travel_feed ∧ named pto_feed).
Proof.
  intros Hnd Hmain. cbv zeta.
  set (start_date := datetime.replace_day1 today).
  set (end_date := start_date + months * 30).
  unfold main_workbook, main in Hmain. fold start_date end_date in Hmain.
  destruct hierarchical_employees as [|p ps]; [done|].
  set (hier := p :: ps) in *.
  destruct (run (flatten_employees hier) _ start_date end_date event_to_employee_map)
    as [r|] eqn:Hrun; [|done].
  injection Hmain as <-. rewrite generate_excel_fills.
  assert (∀ emp d, emp ∈ flatten_employees hier →
            status_fill (status_at (processed_data r) (Employee.name emp) d) = Some colour
            ↔ let holiday :=
                ∃ entry tag,
                  (feed_covers pto_feed start_date end_date entry d
                   ∨ feed_covers travel_feed start_date end_date entry d)
                  ∧ tag ∈ default [] (event_to_employee_map !! entry.1.1)
                  ∧ in_scope tag (Employee.location emp) in
              let named feed :=
                ∃ entry,
                  feed_covers feed start_date end_date entry d
                  ∧ Employee.name emp ∈ default [] (event_to_employee_map !! entry.1.1)
                  ∧ ¬ holiday_tag (Employee.name emp) in
              (colour = holiday_fill ∧ holiday)
              ∨ (colour = travel_fill ∧ ¬ holiday ∧ named travel_feed)
              ∨ (colour = pto_fill ∧ ¬ holiday ∧ ¬ named travel_feed ∧ named pto_feed))
    as Hcases.
  { intros emp d Hemp. cbv zeta.
    destruct (run_status_cases _ _ _ _ _ r emp d Hnd Hrun Hemp) as (HH & HT & HP & _).
    rewrite holiday_day_feeds in HH, HT, HP.
    rewrite (named_day_feeds pto_feed travel_feed start_date end_date
               event_to_employee_map "T" travel_feed) in HT, HP by auto.
    rewrite (named_day_feeds pto_feed travel_feed start_date end_date
               event_to_employee_map "P" pto_feed) in HP by auto.
    rewrite status_fill_Some, HH, HT, HP. tauto. }
  split; intros (k & i & emp & d & Hk & Hi & -> & -> & Hs); exists k, i, emp, d;
    (split_and!; [done..|]); by apply (Hcases emp d (list_elem_of_lookup_2 _ _ _ Hk)).
Qed.

(** ** The labels of the header *)

Lemma labels_app (c : Z) (g1 g2 : list (string * Z)) :
  labels c (g1 ++ g2) = labels c g1 ++ labels (c + sum_sizes g1.*2) g2.
Proof.
  revert c. induction g1 as [|g g1 IH]; intros c.
  - simpl. by rewrite Z.add_0_r.
  - cbn [labels app fmap list_fmap]. rewrite IH. cbn [sum_sizes foldr].
    fold (sum_sizes g1.*2). do 3 f_equal. lia.
Qed.

Lemma labels_columns (c : Z) (groups : list (string * Z)) :
  (labels c groups).*1 = (spans c groups.*2).*1.
Proof.
  revert c. induction groups as [|g groups IH]; intros c; [done|].
  cbn [labels spans fmap list_fmap]. by rewrite IH.
Qed.

Lemma day_cells_rows12 (row c : Z) (days : list Z) :
  row ≠ 3 → omap (cell_in_row row) (day_cells c days) = [].
Proof.
  intros Hr. revert c. induction days as [|d days IH]; intros c; [done|].
  cbn [day_cells omap list_omap cell_in_row].
  destruct (Z.eqb_spec 3 row) as [?|_]; [done|]. apply IH.
Qed.

Lemma weeks_cells_row1 (c : Z) (weeks : list (string * list Z)) :
  omap (cell_in_row 1) (weeks_cells c weeks) = [].
Proof.
  revert c. induction weeks as [|w weeks IH]; intros c; [done|].
  cbn [weeks_cells]. rewrite !omap_app, day_cells_rows12, IH by done.
  by destruct (0 <? week_len w).
Qed.

Lemma weeks_cells_row2 (c : Z) (weeks : list (string * list Z)) :
  Forall (λ w, w.2 ≠ []) weeks →
  omap (cell_in_row 2) (weeks_cells c weeks) = labels c (week_group <$> weeks).
Proof.
  intros H. revert c. induction H as [|w weeks Hw Hws IH]; intros c; [done|].
  cbn [weeks_cells]. rewrite !omap_app, day_cells_rows12, IH, fmap_cons by done.
  assert (0 < week_len w) as Hpos.
  { unfold week_len. destruct w as [? [|]]; simpl in *; [done|lia]. }
  apply Z.ltb_lt in Hpos. by rewrite Hpos.
Qed.

Lemma months_cells_row1 (c : Z) (months : list (string * list (string * list Z))) :
  nonempty_groups months →
  omap (cell_in_row 1) (months_cells c months) = labels c (month_group <$> months).
Proof.
  intros H. pose proof (month_len_pos _ H) as Hpos. revert c.
  induction months as [|mo months IH]; intros c; [done|].
  rewrite fmap_cons in Hpos. apply Forall_cons in Hpos as [Hmo Hpos].
  apply Forall_cons in H as [_ H].
  cbn [months_cells]. rewrite !omap_app, weeks_cells_row1, (IH H Hpos), fmap_cons.
  assert ((c + month_len mo - 1 >=? c) = true) as -> by (apply Z.geb_le; lia).
  done.
Qed.

Lemma months_cells_row2 (c : Z) (months : list (string * list (string * list Z))) :
  nonempty_groups months →
  omap (cell_in_row 2) (months_cells c months)
  = labels c (flat_map (λ mo, week_group <$> mo.2) months).
Proof.
  intros H. revert c.
  induction H as [|mo months [_ Hw] H IH]; intros c; [done|].
  cbn [months_cells flat_map]. rewrite !omap_app, weeks_cells_row2, IH by done.
  rewrite labels_app, <- list_fmap_compose.
  change (snd ∘ week_group) with week_len. rewrite <- month_len_sum.
  by destruct (c + month_len mo - 1 >=? c).
Qed.

(** The group that holds the [i]-th element, its span and its label. *)
Lemma labels_lookup (groups : list (string * list Z)) (c : Z) (i : nat) (d : Z) :
  Forall (λ g, g.2 ≠ []) groups →
  flat_map snd groups !! i = Some d →
  ∃ (j : nat) g a,
    groups !! j = Some g ∧ d ∈ g.2
    ∧ labels c ((λ g, (g.1, Z.of_nat (length g.2))) <$> groups) !! j = Some (a, g.1)
    ∧ spans c ((λ g, Z.of_nat (length g.2)) <$> groups) !! j
      = Some (a, a + Z.of_nat (length g.2) - 1)
    ∧ a <= c + Z.of_nat i <= a + Z.of_nat (length g.2) - 1.
Proof.
  intros H. revert c i. induction H as [|g groups Hg _ IH]; intros c i Hi; [done|].
  cbn [flat_map] in Hi. destruct (decide (i < length g.2)%nat) as [Hlt|Hge].
  - rewrite lookup_app_l in Hi by done. exists 0%nat, g, c.
    split_and!; [done|by eapply list_elem_of_lookup_2|done|done|lia|lia].
  - rewrite lookup_app_r in Hi by lia.
    destruct (IH (c + Z.of_nat (length g.2)) _ Hi) as (j & g' & a & H1 & H2 & H3 & H4 & H5).
    exists (S j), g', a. split_and!; [done|done|done|done|lia|lia].
Qed.

Lemma dates_by_month_week_keys (l : list Z) :
  Forall (λ mo, Forall (λ w, Forall (λ d, strftime_B_Y d = mo.1 ∧ strftime_W_U d = w.1
                                         ∧ d ∈ l) w.2) mo.2)
         (dates_by_month_week l).
Proof.
  rewrite dates_by_month_week_group_by. apply Forall_forall.
  intros mo Hmo. apply list_elem_of_fmap in Hmo as ([key ds] & -> & Hin).
  destruct (group_by_groups _ _ _ _ Hin) as (_ & Hkey & Hsub). cbn [fst snd].
  apply Forall_forall. intros [wkey wds] Hw.
  destruct (group_by_groups _ _ _ _ Hw) as (_ & Hwkey & Hwsub). cbn [fst snd].
  apply Forall_forall. intros d Hd.
  rewrite Forall_forall in Hkey, Hwkey. split_and!.
  - apply Hkey. by eapply sublist_subseteq.
  - by apply Hwkey.
  - eapply sublist_subseteq; [exact Hsub|]. by eapply sublist_subseteq.
Qed.

Lemma flat_map_flat_map {A B C : Type} (f : A → list B) (g : B → list C) (l : list A) :
  flat_map g (flat_map f l) = flat_map (λ x, flat_map g (f x)) l.
Proof.
  induction l as [|x l IH]; [done|]. cbn [flat_map]. by rewrite flat_map_app, IH.
Qed.

Lemma flat_map_fmap {A B C : Type} (f : A → B) (g : B → list C) (l : list A) :
  flat_map g (f <$> l) = flat_map (g ∘ f) l.
Proof. induction l as [|x l IH]; [done|]. cbn [flat_map fmap list_fmap]. by rewrite <- IH. Qed.

Lemma fmap_flat_map {A B C : Type} (f : A → list B) (g : B → C) (l : list A) :
  g <$> flat_map f l = flat_map (λ x, g <$> f x) l.
Proof.
  induction l as [|x l IH]; [done|]. cbn [flat_map]. by rewrite fmap_app, IH.
Qed.

(** The month and week headers carry the right labels.  In rows 1 and 2 a
    value is written at the first column of every merged span, and only
    there; and the column of every business day lies in a month span
    labelled with the month and year of the day, and in a week span labelled
    with the week number of the day. *)
Theorem header_labels (start_date end_date : Z) :
  let ws := (generate_excel_header start_date end_date).1 in
  (row_cells 1 ws).*1 = (row_spans 1 ws).*1
  ∧ (row_cells 2 ws).*1 = (row_spans 2 ws).*1
  ∧ ∀ (i : nat) d, weekdays start_date end_date !! i = Some d →
      (∃ (j : nat) span,
         row_spans 1 ws !! j = Some span
         ∧ row_cells 1 ws !! j = Some (span.1, strftime_B_Y d)
         ∧ span.1 <= 2 + Z.of_nat i <= span.2)
      ∧ (∃ (j : nat) span,
           row_spans 2 ws !! j = Some span
           ∧ row_cells 2 ws !! j = Some (span.1, strftime_W_U d)
           ∧ span.1 <= 2 + Z.of_nat i <= span.2).
Proof.
  cbv zeta. rewrite generate_excel_header_eq. cbn [fst].
  set (days := weekdays start_date end_date).
  pose proof (dates_by_month_week_nonempty days) as Hne.
  pose proof (dates_by_month_week_flatten days (weekdays_sorted _ _)) as Hflat.
  pose proof (dates_by_month_week_keys days) as Hkeys.
  unfold row_spans, row_cells, ws_app. cbn [cells merged_cells app omap list_omap].
  simpl (cell_in_row 1 _). simpl (cell_in_row 2 _). cbv iota.
  rewrite months_merged_row1, months_merged_row2, months_cells_row1, months_cells_row2
    by done.
  set (M := dates_by_month_week days) in *.
  split_and!.
  - rewrite labels_columns, <- list_fmap_compose. done.
  - rewrite labels_columns, fmap_flat_map. do 2 f_equal.
    apply flat_map_ext. intros mo. by rewrite <- list_fmap_compose.
  - intros i d Hi. split.
    + set (G := (λ mo : string * list (string * list Z), (mo.1, flat_map snd mo.2)) <$> M).
      assert (Forall (λ g, g.2 ≠ []) G) as HG.
      { subst G. apply Forall_fmap. eapply Forall_impl; [exact Hne|].
        intros [key weeks] [Hw Hws]. simpl in *.
        destruct weeks as [|[wk ds] weeks]; [done|].
        apply Forall_cons in Hws as [Hd _]. simpl in *. by destruct ds. }
      assert (flat_map snd G !! i = Some d) as HGi.
      { subst G. rewrite flat_map_fmap. unfold compose. cbn [snd].
        by rewrite Hflat. }
      destruct (labels_lookup G 2 i d HG HGi) as (j & g & a & Hj & Hd & Hl & Hs & Hr).
      subst G. rewrite <- !list_fmap_compose in Hl, Hs.
      exists j, (a, a + Z.of_nat (length g.2) - 1). split_and!; [exact Hs| |simpl; lia..].
      cbn [fst]. unfold month_group, month_len.
      rewrite list_lookup_fmap in Hj.
      destruct (M !! j) as [mo|] eqn:Emo; [|done]. simpl in Hj. simplify_eq.
      cbn [fst snd] in *.
      assert (strftime_B_Y d = mo.1) as ->; [|exact Hl].
      rewrite Forall_forall in Hkeys.
      pose proof (Hkeys mo (list_elem_of_lookup_2 _ _ _ Emo)) as Hmo.
      apply list_elem_of_In, in_flat_map in Hd as (w & Hw & Hd).
      apply list_elem_of_In in Hw, Hd. rewrite Forall_forall in Hmo.
      pose proof (Hmo w Hw) as Hwk. rewrite Forall_forall in Hwk.
      by destruct (Hwk d Hd) as (? & _).
    + set (G := flat_map snd M).
      assert (Forall (λ g : string * list Z, g.2 ≠ []) G) as HG.
      { subst G. apply Forall_forall. intros w Hw.
        apply list_elem_of_In, in_flat_map in Hw as (mo & Hmo & Hw).
        apply list_elem_of_In in Hmo, Hw. unfold nonempty_groups in Hne.
        rewrite Forall_forall in Hne. destruct (Hne mo Hmo) as [_ Hws].
        rewrite Forall_forall in Hws. by apply Hws. }
      assert (flat_map snd G !! i = Some d) as HGi.
      { subst G. by rewrite flat_map_flat_map, Hflat. }
      destruct (labels_lookup G 2 i d HG HGi) as (j & g & a & Hj & Hd & Hl & Hs & Hr).
      subst G. rewrite fmap_flat_map in Hl. rewrite fmap_flat_map in Hs.
      exists j, (a, a + Z.of_nat (length g.2) - 1). split_and!; [exact Hs| |simpl; lia..].
      cbn [fst].
      assert (strftime_W_U d = g.1) as ->; [|exact Hl].
      apply list_elem_of_lookup_2, list_elem_of_In, in_flat_map in Hj as (mo & Hmo & Hw).
      apply list_elem_of_In in Hmo, Hw. rewrite Forall_forall in Hkeys.
      pose proof (Hkeys mo Hmo) as Hmk. rewrite Forall_forall in Hmk.
      pose proof (Hmk g Hw) as Hwk. rewrite Forall_forall in Hwk.
      by destruct (Hwk d Hd) as (_ & ? & _).
Qed.

(** ** The width of a week *)

(** Two days of the same year and the same week number lie in the same
    Sunday-to-Saturday week. *)
Lemma same_week (d d' : Z) :
  datetime.year d = datetime.year d' → week_of_year d = week_of_year d' →
  d / 7 = d' / 7.
Proof.
  intros Hy. unfold week_of_year. cbv zeta.
  rewrite !yday_ordinal, <- Hy. unfold datetime.weekday.
  generalize (datetime._days_before_year (datetime.year d)). intros D.
  Z.div_mod_to_equations. lia.
Qed.

Lemma weekday_inj_week (d d' : Z) :
  d / 7 = d' / 7 → datetime.weekday d = datetime.weekday d' → d = d'.
Proof. unfold datetime.weekday. Z.div_mod_to_equations. lia. Qed.

Lemma NoDup_List_filter {A : Type} (f : A → bool) (l : list A) :
  NoDup l → NoDup (List.filter f l).
Proof.
  induction 1 as [|x l Hx _ IH]; simpl; [constructor|].
  destruct (f x); [|done]. constructor; [|done].
  rewrite list_elem_of_In, filter_In, <- list_elem_of_In. tauto.
Qed.

Lemma week_group_length (l : list Z) (mo : string * list (string * list Z))
    (w : string * list Z) :
  NoDup l → Forall (λ d, datetime.weekday d < 5) l →
  mo ∈ dates_by_month_week l → w ∈ mo.2 → (length w.2 <= 5)%nat.
Proof.
  intros Hnd Hwd Hmo Hw.
  assert (w.2 `sublist_of` l) as Hsub.
  { rewrite dates_by_month_week_group_by in Hmo.
    apply list_elem_of_fmap in Hmo as ([key ds] & -> & Hin).
    destruct (group_by_groups _ _ _ _ Hin) as (_ & _ & Hsub). cbn [snd] in Hw.
    destruct w as [wkey wds].
    destruct (group_by_groups _ _ _ _ Hw) as (_ & _ & Hwsub). cbn [snd].
    by etrans. }
  pose proof (dates_by_month_week_keys l) as Hkeys. rewrite Forall_forall in Hkeys.
  pose proof (Hkeys mo Hmo) as Hmk. rewrite Forall_forall in Hmk.
  pose proof (Hmk w Hw) as Hwk. rewrite Forall_forall in Hwk.
  assert (NoDup w.2) as Hndw by (by eapply sublist_NoDup).
  assert (NoDup (datetime.weekday <$> w.2)) as Hndwd.
  { apply NoDup_fmap_2_strong; [|done]. intros d d' Hd Hd' Heq.
    destruct (Hwk d Hd) as (HB & HW & _). destruct (Hwk d' Hd') as (HB' & HW' & _).
    apply weekday_inj_week; [|done]. apply same_week.
    - rewrite <- HB' in HB. by apply strftime_B_Y_inj in HB as [? _].
    - rewrite <- HW' in HW. by apply strftime_W_U_inj in HW. }
  assert (datetime.weekday <$> w.2 ⊆+ seqZ 0 5) as Hsubm.
  { apply NoDup_submseteq; [done|]. intros x Hx.
    apply list_elem_of_fmap in Hx as (d & -> & Hd). apply elem_of_seqZ.
    rewrite Forall_forall in Hwd.
    pose proof (Hwd d (sublist_subseteq _ _ Hsub d Hd)).
    unfold datetime.weekday in *. Z.div_mod_to_equations. lia. }
  apply submseteq_length in Hsubm. rewrite length_fmap, length_seqZ in Hsubm. lia.
Qed.

(** Every week header spans at least one and at most five columns. *)
Theorem week_spans_at_most_five (start_date end_date : Z) (span : Z * Z) :
  span ∈ row_spans 2 (generate_excel_header start_date end_date).1 →
  1 <= span.2 - span.1 + 1 <= 5.
Proof.
  rewrite generate_excel_header_eq. cbn [fst].
  set (days := weekdays start_date end_date).
  pose proof (dates_by_month_week_nonempty days) as Hne.
  unfold row_spans, ws_app. cbn [merged_cells app].
  rewrite months_merged_row2 by done. intros Hs.
  apply elem_of_spans in Hs as (pre & n & post & Heq & ->). cbn [fst snd].
  assert (n ∈ flat_map (λ mo, week_len <$> mo.2) (dates_by_month_week days)) as Hn
    by (rewrite Heq; apply elem_of_app; right; apply list_elem_of_here).
  apply list_elem_of_In, in_flat_map in Hn as (mo & Hmo & Hn).
  apply list_elem_of_In in Hmo, Hn. apply list_elem_of_fmap in Hn as (w & -> & Hw).
  assert (length w.2 <= 5)%nat as Hle.
  { apply (week_group_length days mo w); [| |done..].
    - subst days. unfold weekdays. apply NoDup_List_filter. rewrite all_dates_seqZ.
      apply NoDup_seqZ.
    - apply Forall_forall. intros d Hd. by apply elem_of_weekdays in Hd as [_ ?]. }
  assert (w.2 ≠ []) as Hnil.
  { unfold nonempty_groups in Hne. rewrite Forall_forall in Hne.
    destruct (Hne mo Hmo) as [_ Hws]. rewrite Forall_forall in Hws. by apply Hws. }
  unfold week_len. destruct (w.2); [done|]. simpl in *. lia.
Qed.

(** ** The window of [main] *)

Lemma month_of_first (leap : bool) (m m' d' : Z) :
  1 <= m <= 12 → 1 <= m' <= m → 1 <= d' <= dim leap m' →
  dbm leap m' + d' = dbm leap m + 1 → m' = m ∧ d' = 1.
Proof.
  intros Hm Hm' Hd' Heq. destruct (decide (m' = m)) as [->|Hne]; [lia|].
  pose proof (days_before_month_lt leap m m' ltac:(lia) ltac:(lia) ltac:(lia)). lia.
Qed.

Lemma year_of_ordinal (y n : Z) :
  datetime._days_before_year y < n <= datetime._days_before_year (y + 1) →
  datetime.year n = y.
Proof.
  intros Hn. pose proof (year_bounds n) as Hb.
  destruct (Z.lt_trichotomy (datetime.year n) y) as [Hlt|[Heq|Hgt]]; [|done|].
  - pose proof (days_before_year_mono (datetime.year n + 1) y ltac:(lia)). lia.
  - pose proof (days_before_year_mono (y + 1) (datetime.year n) ltac:(lia)). lia.
Qed.

Lemma days_in_month_le (y m : Z) : 1 <= m <= 12 → datetime._days_in_month y m <= 31.
Proof.
  intros Hm. unfold datetime._days_in_month.
  month_split m Hm; destruct (datetime._is_leap y); simpl; lia.
Qed.

Lemma replace_day1_ordinal (today : Z) :
  datetime.replace_day1 today = today - datetime.day today + 1.
Proof.
  destruct (date_fields today) as (_ & _ & E). unfold datetime.replace_day1.
  revert E. unfold datetime._ymd2ord.
  generalize (datetime._days_before_year (datetime.year today)).
  generalize (datetime._days_before_month (datetime.year today) (datetime.month today)).
  generalize (datetime.day today). intros d b y E. lia.
Qed.

Lemma replace_day1_eq (today : Z) :
  datetime.replace_day1 today
  = datetime._days_before_year (datetime.year today)
    + datetime._days_before_month (datetime.year today) (datetime.month today) + 1.
Proof. reflexivity. Qed.

Lemma replace_day1_year (today : Z) :
  datetime.year (datetime.replace_day1 today) = datetime.year today.
Proof.
  destruct (date_fields today) as (Hm & Hd & _).
  apply year_of_ordinal. rewrite replace_day1_eq, days_before_year_succ.
  assert (1 <= 1 <= datetime._days_in_month (datetime.year today) (datetime.month today))
    as H1.
  { revert Hd.
    generalize (datetime._days_in_month (datetime.year today) (datetime.month today)).
    generalize (datetime.day today). intros d n Hd. lia. }
  pose proof (yday_range _ _ _ Hm H1) as Hr. revert Hr.
  generalize (if datetime._is_leap (datetime.year today) then 1 else 0).
  generalize (datetime._days_before_month (datetime.year today) (datetime.month today)).
  generalize (datetime._days_before_year (datetime.year today)).
  intros y b l Hr. lia.
Qed.

Lemma ymd2ord_eq (y m d : Z) :
  datetime._ymd2ord y m d
  = datetime._days_before_year y + datetime._days_before_month y m + d.
Proof. reflexivity. Qed.

Lemma days_before_month_dbm (y m : Z) :
  datetime._days_before_month y m = dbm (datetime._is_leap y) m.
Proof. reflexivity. Qed.

Lemma days_in_month_dim (y m : Z) :
  datetime._days_in_month y m = dim (datetime._is_leap y) m.
Proof. reflexivity. Qed.

Lemma date_fields_table (d : Z) :
  1 <= datetime.month d <= 12
  ∧ 1 <= datetime.day d <= dim (datetime._is_leap (datetime.year d)) (datetime.month d)
  ∧ datetime._days_before_year (datetime.year d)
    + dbm (datetime._is_leap (datetime.year d)) (datetime.month d) + datetime.day d = d.
Proof.
  destruct (date_fields d) as (Hm & Hd & E).
  rewrite ymd2ord_eq, days_before_month_dbm in E. rewrite days_in_month_dim in Hd.
  exact (conj Hm (conj Hd E)).
Qed.

Lemma first_of_month (leap : bool) (y m d t s m' d' : Z) :
  1 <= m <= 12 → 1 <= d <= dim leap m → y + dbm leap m + d = t →
  s = t - d + 1 →
  1 <= m' <= 12 → 1 <= d' <= dim leap m' → y + dbm leap m' + d' = s →
  m' = m ∧ d' = 1.
Proof.
  intros Hm Hd E Hs Hm' Hd' E'.
  destruct (Z.lt_trichotomy m' m) as [Hlt|[->|Hgt]].
  - pose proof (days_before_month_lt leap m m' ltac:(lia) ltac:(lia) ltac:(lia)). lia.
  - lia.
  - pose proof (days_before_month_lt leap m' m ltac:(lia) ltac:(lia) ltac:(lia)). lia.
Qed.

Lemma replace_day1_month (today : Z) :
  datetime.month (datetime.replace_day1 today) = datetime.month today
  ∧ datetime.day (datetime.replace_day1 today) = 1.
Proof.
  destruct (date_fields_table today) as (Hm & Hd & E).
  destruct (date_fields_table (datetime.replace_day1 today)) as (Hms & Hds & Es).
  rewrite (replace_day1_year today) in Es, Hds.
  exact (first_of_month _ _ _ _ _ _ _ _ Hm Hd E (replace_day1_ordinal today) Hms Hds Es).
Qed.
Lemma generate_excel_header_row3 (start_date end_date : Z) :
  row_cells 3 (generate_excel_header start_date end_date).1
  = (1, "Employee")
      :: imap (λ i d, (2 + Z.of_nat i, strftime_a_d d)) (weekdays start_date end_date).
Proof.
  rewrite generate_excel_header_eq. unfold row_cells.
  cbn [fst ws_app cells app omap list_omap]. simpl (cell_in_row 3 _). cbv iota.
  rewrite months_cells_row3.
  by rewrite dates_by_month_week_flatten by apply weekdays_sorted.
Qed.

Lemma lookup_cons_S {A} (x : A) (l : list A) (i : nat) : (x :: l) !! S i = l !! i.
Proof. reflexivity. Qed.

(** The window of the report starts on the first day of the month of today,
    and, for at least one month, today lies in the range of days the header
    is laid out for; when today is a Monday to Friday the worksheet of a run
    that generated one has a column for today. *)
Theorem window_of_main (hierarchical_employees : list person)
    (pto_feed travel_feed : list (string * Z * Z)) (today months : Z)
    (event_to_employee_map : gmap string (list string))
    (r : run_result) (ws : worksheet) :
  main hierarchical_employees pto_feed travel_feed today months event_to_employee_map
  = Generated r ws →
  1 <= months →
  let start_date := datetime.replace_day1 today in
  let end_date := start_date + months * 30 in
  datetime.year start_date = datetime.year today
  ∧ datetime.month start_date = datetime.month today
  ∧ datetime.day start_date = 1
  ∧ start_date <= today <= end_date
  ∧ (datetime.weekday today < 5 →
     ∃ i : nat, weekdays start_date end_date !! i = Some today
                ∧ row_cells 3 ws !! S i = Some (2 + Z.of_nat i, strftime_a_d today)).
Proof.
  intros Hmain Hmonths. cbv zeta.
  pose proof (replace_day1_year today) as Hy.
  destruct (replace_day1_month today) as [Hm Hd].
  pose proof (replace_day1_ordinal today) as Hord.
  destruct (date_fields today) as (Hmt & Hdt & _).
  pose proof (days_in_month_le (datetime.year today) (datetime.month today) Hmt) as H31.
  assert (datetime.replace_day1 today <= today
          <= datetime.replace_day1 today + months * 30) as Hin.
  { revert Hord Hdt H31 Hmonths. generalize (datetime.replace_day1 today).
    generalize (datetime._days_in_month (datetime.year today) (datetime.month today)).
    generalize (datetime.day today). intros d n s Hord Hdt H31 Hmonths. lia. }
  split; [exact Hy|]. split; [exact Hm|]. split; [exact Hd|]. split; [exact Hin|].
  intros Hwd.
  assert (today ∈ weekdays (datetime.replace_day1 today)
                    (datetime.replace_day1 today + months * 30)) as Htoday
    by (apply elem_of_weekdays; split; [exact Hin|exact Hwd]).
  apply list_elem_of_lookup in Htoday as [i Hi]. exists i. split; [exact Hi|].
  unfold main in Hmain.
  destruct hierarchical_employees as [|p ps]; [discriminate Hmain|].
  cbv zeta in Hmain.
  destruct (run _ _ _ _ event_to_employee_map) as [r'|]; [|discriminate Hmain].
  pose proof (f_equal (λ o, match o with Generated _ w => w | _ => ws end) Hmain)
    as Hws.
  cbv beta iota in Hws. rewrite <- Hws, generate_excel_header_row3.
  rewrite lookup_cons_S.
  by rewrite list_lookup_imap, Hi.
Qed.

(** ** Concrete runs *)

(** C2, counterexample.  An event that starts before the reporting window and
    ends inside it passes the window filter and is expanded in full.  With the
    window starting on 2024-03-01, an event from 2024-02-28 to 2024-03-02
    gives Alice an entry on 2024-02-28, before the window. *)
Lemma window_invariant_counterexample :
  (run [Employee.mk "Alice" "US" [] [] []]
       [Event.mk "PTO Alice" (date 2024 2 28) (date 2024 3 2) "P" []]
       (date 2024 3 1) (date 2024 3 1 + 180)
       {[ "PTO Alice" := ["Alice"] ]}
   ≫= λ r, status_at (processed_data r) "Alice" (date 2024 2 28)) = Some "P"
  ∧ (date 2024 2 28 <? date 2024 3 1) = true.
Proof. split; vm_compute; reflexivity. Qed.

(** C8, counterexample.  A name that the resolver maps to the empty list
    has an empty target list and is not recorded as unmatched. *)
Lemma empty_list_not_unmatched_counterexample :
  default [] (({[ "Team Lunch" := [] ]} : gmap string (list string)) !! "Team Lunch") = []
  ∧ (run [Employee.mk "Alice" "US" [] [] []]
         [Event.mk "Team Lunch" (date 2024 3 4) (date 2024 3 5) "P" []]
         (date 2024 3 1) (date 2024 3 1 + 180)
         {[ "Team Lunch" := [] ]}
     ≫= λ r, Some (bool_decide ("Team Lunch" ∈ unmatched_event_names r))) = Some false.
Proof. split; vm_compute; reflexivity. Qed.

(** Alice on PTO from 07-03 to 07-05, travelling on 07-04 and 07-05, with a US
    holiday on 07-04: Holiday on 07-04, Travel on 07-05, PTO on 07-03. *)
Lemma status_precedence_witness :
  ∃ r, run [Employee.mk "Alice" "US" [] [] []]
           [Event.mk "PTO Alice" (date 2024 7 3) (date 2024 7 6) "P" [];
            Event.mk "Alice trip" (date 2024 7 4) (date 2024 7 6) "T" [];
            Event.mk "Independence Day" (date 2024 7 4) (date 2024 7 5) "P" []]
           (date 2024 7 1) (date 2024 7 1 + 180)
           {[ "PTO Alice" := ["Alice"]; "Alice trip" := ["Alice"];
              "Independence Day" := ["_HOLIDAY_US"] ]} = Some r
       ∧ processed_data r = three_pass (employees_after r)
       ∧ status_at (processed_data r) "Alice" (date 2024 7 4) = Some "H"
       ∧ status_at (processed_data r) "Alice" (date 2024 7 5) = Some "T"
       ∧ status_at (processed_data r) "Alice" (date 2024 7 3) = Some "P".
Proof.
  eexists. split; [reflexivity|].
  pose proof (status_precedence
    [Employee.mk "Alice" "US" [] [] []]
    [Event.mk "PTO Alice" (date 2024 7 3) (date 2024 7 6) "P" [];
     Event.mk "Alice trip" (date 2024 7 4) (date 2024 7 6) "T" [];
     Event.mk "Independence Day" (date 2024 7 4) (date 2024 7 5) "P" []]
    (date 2024 7 1) (date 2024 7 1 + 180)
    {[ "PTO Alice" := ["Alice"]; "Alice trip" := ["Alice"];
       "Independence Day" := ["_HOLIDAY_US"] ]} _
    ltac:(refine (bool_decide_unpack _ _); vm_compute; exact I) eq_refl) as [H1 H2].
  split; [exact H1|]. split_and!; vm_compute; reflexivity.
Defined.

(** The entry of Alice on 2024-02-28 comes from an event that overlaps the
    window. *)
Lemma matrix_keys_witness :
  "Alice" ∈ Employee.name <$> [Employee.mk "Alice" "US" [] [] []]
  ∧ ∃ event,
      event ∈ [Event.mk "PTO Alice" (date 2024 2 28) (date 2024 3 2) "P" []]
      ∧ Event.start_date event < date 2024 3 1 + 180
      ∧ Event.end_date event > date 2024 3 1
      ∧ Event.start_date event <= date 2024 2 28 < Event.end_date event.
Proof.
  eapply (matrix_keys
    [Employee.mk "Alice" "US" [] [] []]
    [Event.mk "PTO Alice" (date 2024 2 28) (date 2024 3 2) "P" []]
    (date 2024 3 1) (date 2024 3 1 + 180)
    {[ "PTO Alice" := ["Alice"] ]} _ "Alice" (date 2024 2 28) "P").
  - vm_compute. reflexivity.
  - vm_compute. reflexivity.
Defined.

(** The weekend of 2024-03-02 and 2024-03-03 gives an empty grid. *)
Lemma grid_columns_count_witness :
  (generate_excel_header (date 2024 3 2) (date 2024 3 3)).2 = 2
  ∧ generate_excel_header (date 2024 3 2) (date 2024 3 3)
    = ({| cells := [(3, 1, "Employee")]; merged_cells := [] |}, 2).
Proof.
  destruct (grid_columns_count (date 2024 3 2) (date 2024 3 3)) as (H1 & _ & H3).
  split; [exact H1|]. apply H3. vm_compute. reflexivity.
Defined.

(** From 2024-02-26 to 2024-03-12, February spans the columns 2 to 5, which
    its one week span covers. *)
Lemma header_spans_tile_witness :
  flat_map span_columns
    (List.filter (within (2, 5))
       (row_spans 2 (generate_excel_header (date 2024 2 26) (date 2024 3 12)).1))
  = span_columns (2, 5).
Proof.
  destruct (header_spans_tile (date 2024 2 26) (date 2024 3 12))
    as (_ & _ & _ & _ & _ & H & _).
  apply H. vm_compute. apply list_elem_of_here.
Defined.

(** A day off of Alice on 2024-03-04, an event that ends on 03-05: the PTO
    list of Alice is that one day, and the matrix holds P for her on it. *)
Lemma date_expansion_exclusive_witness :
  ∃ r emp',
    run [Employee.mk "Alice" "US" [] [] []; Employee.mk "Bob" "France" [] [] []]
        [Event.mk "Day off" (date 2024 3 4) (date 2024 3 5) "P" []]
        (date 2024 3 1) (date 2024 3 1 + 180) {[ "Day off" := ["Alice"] ]} = Some r
    ∧ employees_after r !! 0%nat = Some emp'
    ∧ Employee.PTO emp' = [date 2024 3 4]
    ∧ Employee.Travel emp' = []
    ∧ Employee.Holiday emp' = []
    ∧ status_at (processed_data r) "Alice" (date 2024 3 4) = Some "P"
    ∧ status_at (processed_data r) "Alice" (date 2024 3 5) = None.
Proof.
  destruct date_expansion_exclusive as (_ & _ & _ & _ & _ & _ & _ & H & _).
  eexists.
  destruct (H [Employee.mk "Alice" "US" [] [] []; Employee.mk "Bob" "France" [] [] []]
              (Event.mk "Day off" (date 2024 3 4) (date 2024 3 5) "P" [])
              (date 2024 3 1) (date 2024 3 1 + 180) {[ "Day off" := ["Alice"] ]}
              ["Alice"] _ 0%nat (Employee.mk "Alice" "US" [] [] [])
              ltac:(refine (bool_decide_unpack _ _); vm_compute; exact I)
              ltac:(refine (bool_decide_unpack _ _); vm_compute; exact I)
              ltac:(intros t Ht; apply list_elem_of_singleton in Ht; subst t;
                    intros [Hc|[Hc|Hc]]; discriminate Hc)
              eq_refl (or_introl eq_refl) eq_refl eq_refl)
    as (emp' & Hi & HP & _ & HH & Hs).
  exists emp'. destruct (HP eq_refl) as [HP1 HP2].
  split; [reflexivity|]. split; [exact Hi|]. split; [exact HP1|].
  split; [exact HP2|]. split; [exact HH|].
  split; [exact (Hs (date 2024 3 4))|exact (Hs (date 2024 3 5))].
Defined.

(** The US scope extends the Holiday days of Alice, located in the US. *)
Lemma holiday_scope_fanout_witness :
  apply_target ∅ (Event.mk "Independence Day" (date 2024 7 4) (date 2024 7 5) "P" [])
    [Employee.mk "Alice" "US" [] [] []; Employee.mk "Bob" "France" [] [] []]
    "_HOLIDAY_US" !! 0%nat
  = Some (Employee.mk "Alice" "US" [] [] [date 2024 7 4]).
Proof.
  destruct holiday_scope_fanout as (H & _ & _).
  destruct (H ∅ (Event.mk "Independence Day" (date 2024 7 4) (date 2024 7 5) "P" [])
              [Employee.mk "Alice" "US" [] [] []; Employee.mk "Bob" "France" [] [] []]
              "_HOLIDAY_US" 0%nat (Employee.mk "Alice" "US" [] [] [])
              (or_introl eq_refl) eq_refl) as [Hin _].
  rewrite Hin; [vm_compute; reflexivity|]. left. split; reflexivity.
Defined.

(** A France holiday found in the travel feed marks Bob, located in France,
    as on Holiday. *)
Lemma holiday_scope_ignores_type_witness :
  ∃ r, run [Employee.mk "Alice" "US" [] [] []; Employee.mk "Bob" "France" [] [] []]
           [Event.mk "Bastille Day" (date 2024 7 14) (date 2024 7 15) "T" []]
           (date 2024 7 1) (date 2024 7 1 + 180)
           {[ "Bastille Day" := ["_HOLIDAY_FRANCE"] ]} = Some r
       ∧ status_at (processed_data r) "Bob" (date 2024 7 14) = Some "H".
Proof.
  apply (holiday_scope_ignores_type
    [Employee.mk "Alice" "US" [] [] []; Employee.mk "Bob" "France" [] [] []]
    [Event.mk "Bastille Day" (date 2024 7 14) (date 2024 7 15) "T" []]
    (date 2024 7 1) (date 2024 7 1 + 180)
    {[ "Bastille Day" := ["_HOLIDAY_FRANCE"] ]}
    (Event.mk "Bastille Day" (date 2024 7 14) (date 2024 7 15) "T" [])
    ["_HOLIDAY_FRANCE"] "_HOLIDAY_FRANCE" (Employee.mk "Bob" "France" [] [] [])
    (date 2024 7 14)).
  - refine (bool_decide_unpack _ _); vm_compute; exact I.
  - apply list_elem_of_here.
  - vm_compute. reflexivity.
  - vm_compute. reflexivity.
  - apply list_elem_of_here.
  - apply list_elem_of_further, list_elem_of_here.
  - right. left. split; reflexivity.
  - vm_compute. split; [intros H; discriminate H|reflexivity].
Defined.

(** An event that the resolver does not know, next to a PTO of Alice: its
    name is unmatched and the matrix has the PTO days only. *)
Lemma empty_targets_contribute_nothing_witness :
  ∃ r, run [Employee.mk "Alice" "US" [] [] []]
           ([Event.mk "PTO Alice" (date 2024 3 4) (date 2024 3 6) "P" []]
            ++ Event.mk "Team Lunch" (date 2024 3 5) (date 2024 3 6) "P" [] :: [])
           (date 2024 3 1) (date 2024 3 1 + 180)
           {[ "PTO Alice" := ["Alice"] ]} = Some r
       ∧ "Team Lunch" ∈ unmatched_event_names r
       ∧ processed_data r
         = {[ "Alice" := {[ date 2024 3 4 := "P"; date 2024 3 5 := "P" ]} ]}.
Proof.
  destruct (empty_targets_contribute_nothing
    [Employee.mk "Alice" "US" [] [] []]
    [Event.mk "PTO Alice" (date 2024 3 4) (date 2024 3 6) "P" []] []
    (Event.mk "Team Lunch" (date 2024 3 5) (date 2024 3 6) "P" [])
    (date 2024 3 1) (date 2024 3 1 + 180)
    {[ "PTO Alice" := ["Alice"] ]}
    ltac:(vm_compute; reflexivity) ltac:(vm_compute; reflexivity))
    as (r & Hrun & _ & _ & Hpd & Hun).
  exists r. split; [exact Hrun|]. split.
  - apply Hun. vm_compute. reflexivity.
  - rewrite Hpd. vm_compute. reflexivity.
Defined.

(** The same US holiday twice gives Alice one Holiday entry. *)
Lemma matrix_idempotent_witness :
  processed_data
    <$> run [Employee.mk "Alice" "US" [] [] []]
            ([Event.mk "Independence Day" (date 2024 7 4) (date 2024 7 5) "P" []]
             ++ [Event.mk "Independence Day" (date 2024 7 4) (date 2024 7 5) "P" []])
            (date 2024 7 1) (date 2024 7 1 + 180)
            {[ "Independence Day" := ["_HOLIDAY_US"] ]}
  = Some {[ "Alice" := {[ date 2024 7 4 := "H" ]} ]}.
Proof.
  destruct (matrix_idempotent
    [Employee.mk "Alice" "US" [] [] []]
    [Event.mk "Independence Day" (date 2024 7 4) (date 2024 7 5) "P" []]
    (date 2024 7 1) (date 2024 7 1 + 180)
    {[ "Independence Day" := ["_HOLIDAY_US"] ]}) as (H & _ & _).
  rewrite H. vm_compute. reflexivity.
Defined.

(** Zed is not in the roster: the event is not unmatched. *)
Lemma unknown_target_ignored_witness :
  ∃ r, run [Employee.mk "Alice" "US" [] [] []]
           [Event.mk "PTO Alice and Zed" (date 2024 3 4) (date 2024 3 5) "P" []]
           (date 2024 3 1) (date 2024 3 1 + 180)
           {[ "PTO Alice and Zed" := ["Alice"; "Zed"] ]} = Some r
       ∧ "PTO Alice and Zed" ∉ unmatched_event_names r.
Proof.
  destruct (unknown_target_ignored
    [Employee.mk "Alice" "US" [] [] []]
    [Event.mk "PTO Alice and Zed" (date 2024 3 4) (date 2024 3 5) "P" []]
    (date 2024 3 1) (date 2024 3 1 + 180)
    {[ "PTO Alice and Zed" := ["Alice"; "Zed"] ]}
    (Event.mk "PTO Alice and Zed" (date 2024 3 4) (date 2024 3 5) "P" [])
    ["Alice"; "Zed"] "Zed")
    as (r & Hrun & _ & Hun & _).
  - apply list_elem_of_here.
  - vm_compute. reflexivity.
  - vm_compute. reflexivity.
  - apply list_elem_of_further, list_elem_of_here.
  - intros [H|[H|H]]; discriminate H.
  - refine (bool_decide_unpack _ _); vm_compute; exact I.
  - exists r. split; [exact Hrun|exact Hun].
Defined.

(** The uniqueness of the names matters for the precedence: [employee_map]
    keeps the last employee of a name, so with two employees named Sam, the
    first in the US and the second in France, a US holiday lands on the first
    and a PTO of Sam on the second, whose write comes last. *)
Lemma duplicate_names_remark :
  (run [Employee.mk "Sam" "US" [] [] []; Employee.mk "Sam" "France" [] [] []]
       [Event.mk "Independence Day" (date 2024 7 4) (date 2024 7 5) "P" [];
        Event.mk "PTO Sam" (date 2024 7 4) (date 2024 7 5) "P" []]
       (date 2024 7 1) (date 2024 7 1 + 180)
       {[ "Independence Day" := ["_HOLIDAY_US"]; "PTO Sam" := ["Sam"] ]}
   ≫= λ r, status_at (processed_data r) "Sam" (date 2024 7 4)) = Some "P".
Proof. vm_compute. reflexivity. Qed.

(** ** Concrete sheets and runs *)

(** Bob travels on Monday 2024-03-04: the blue cell of row 4 lies under the
    header of that day. *)
Lemma fill_matches_headers_witness :
  let sh := generate_excel {[ "Bob" := {[ date 2024 3 4 := "T" ]} ]}
              [Person "Bob" "US" []] (date 2024 3 1) (date 2024 3 6) in
  ∃ name d,
    (∀ v, (4, v) ∈ column_cells 1 (sheet_ws sh) ↔ v = name)
    ∧ (∀ v, (3, v) ∈ row_cells 3 (sheet_ws sh) ↔ v = strftime_a_d d)
    ∧ date 2024 3 1 <= d <= date 2024 3 6 ∧ datetime.weekday d < 5
    ∧ status_fill (status_at {[ "Bob" := {[ date 2024 3 4 := "T" ]} ]} name d)
      = Some "0070C0".
Proof.
  apply (fill_matches_headers {[ "Bob" := {[ date 2024 3 4 := "T" ]} ]}
           [Person "Bob" "US" []] (date 2024 3 1) (date 2024 3 6) 4 3 "0070C0").
  vm_compute. apply list_elem_of_here.
Defined.

(** Alice travels from 07-04 to 07-05 and no holiday covers 07-05. *)
Lemma matrix_from_events_witness :
  ∃ r, run [Employee.mk "Alice" "US" [] [] []]
           [Event.mk "Alice trip" (date 2024 7 4) (date 2024 7 6) "T" [];
            Event.mk "Independence Day" (date 2024 7 4) (date 2024 7 5) "P" []]
           (date 2024 7 1) (date 2024 7 1 + 180)
           {[ "Alice trip" := ["Alice"]; "Independence Day" := ["_HOLIDAY_US"] ]}
       = Some r
       ∧ (status_at (processed_data r) "Alice" (date 2024 7 5) = Some "T"
          ↔ ¬ holiday_day
                [Event.mk "Alice trip" (date 2024 7 4) (date 2024 7 6) "T" [];
                 Event.mk "Independence Day" (date 2024 7 4) (date 2024 7 5) "P" []]
                (date 2024 7 1) (date 2024 7 1 + 180)
                {[ "Alice trip" := ["Alice"]; "Independence Day" := ["_HOLIDAY_US"] ]}
                "US" (date 2024 7 5)
            ∧ named_day
                [Event.mk "Alice trip" (date 2024 7 4) (date 2024 7 6) "T" [];
                 Event.mk "Independence Day" (date 2024 7 4) (date 2024 7 5) "P" []]
                (date 2024 7 1) (date 2024 7 1 + 180)
                {[ "Alice trip" := ["Alice"]; "Independence Day" := ["_HOLIDAY_US"] ]}
                "T" "Alice" (date 2024 7 5)).
Proof.
  eexists. split; [reflexivity|].
  pose proof (matrix_from_events
    [Employee.mk "Alice" "US" [] [] []]
    [Event.mk "Alice trip" (date 2024 7 4) (date 2024 7 6) "T" [];
     Event.mk "Independence Day" (date 2024 7 4) (date 2024 7 5) "P" []]
    (date 2024 7 1) (date 2024 7 1 + 180)
    {[ "Alice trip" := ["Alice"]; "Independence Day" := ["_HOLIDAY_US"] ]} _
    (Employee.mk "Alice" "US" [] [] []) (date 2024 7 5)
    ltac:(refine (bool_decide_unpack _ _); vm_compute; exact I) eq_refl
    ltac:(apply list_elem_of_here)) as H.
  cbv zeta in H. destruct H as (_ & HT & _). exact HT.
Defined.

(** A team lunch that the resolver does not know is reported. *)
Lemma unmatched_names_exact_witness :
  ∃ r, run [Employee.mk "Alice" "US" [] [] []]
           [Event.mk "Team Lunch" (date 2024 3 4) (date 2024 3 5) "P" []]
           (date 2024 3 1) (date 2024 3 1 + 180) ∅ = Some r
       ∧ ("Team Lunch" ∈ unmatched_event_names r
          ↔ (∃ event,
               event ∈ [Event.mk "Team Lunch" (date 2024 3 4) (date 2024 3 5) "P" []]
               ∧ in_window (date 2024 3 1) (date 2024 3 1 + 180) event = true
               ∧ Event.name event = "Team Lunch")
            ∧ (∅ : gmap string (list string)) !! "Team Lunch" = None).
Proof.
  eexists. split; [reflexivity|].
  apply (unmatched_names_exact
    [Employee.mk "Alice" "US" [] [] []]
    [Event.mk "Team Lunch" (date 2024 3 4) (date 2024 3 5) "P" []]
    (date 2024 3 1) (date 2024 3 1 + 180) ∅ _ "Team Lunch").
  reflexivity.
Defined.

(** Alice and Bob come out of a run with their names and locations. *)
Lemma roster_preserved_witness :
  ∃ r, run [Employee.mk "Alice" "US" [] [] []; Employee.mk "Bob" "France" [] [] []]
           [Event.mk "PTO Alice" (date 2024 3 4) (date 2024 3 6) "P" []]
           (date 2024 3 1) (date 2024 3 1 + 180) {[ "PTO Alice" := ["Alice"] ]}
       = Some r
       ∧ Employee.name <$> employees_after r = ["Alice"; "Bob"]
       ∧ Employee.location <$> employees_after r = ["US"; "France"]
       ∧ ∀ name, is_Some (processed_data r !! name) ↔ name ∈ ["Alice"; "Bob"].
Proof.
  eexists. split; [reflexivity|].
  apply (roster_preserved
    [Employee.mk "Alice" "US" [] [] []; Employee.mk "Bob" "France" [] [] []]
    [Event.mk "PTO Alice" (date 2024 3 4) (date 2024 3 6) "P" []]
    (date 2024 3 1) (date 2024 3 1 + 180) {[ "PTO Alice" := ["Alice"] ]} _).
  reflexivity.
Defined.

(** The two feeds in either order. *)
Lemma event_order_irrelevant_witness :
  processed_data
    <$> run [Employee.mk "Alice" "US" [] [] []]
            [Event.mk "PTO Alice" (date 2024 3 4) (date 2024 3 6) "P" [];
             Event.mk "Alice trip" (date 2024 3 5) (date 2024 3 8) "T" []]
            (date 2024 3 1) (date 2024 3 1 + 180)
            {[ "PTO Alice" := ["Alice"]; "Alice trip" := ["Alice"] ]}
  = processed_data
      <$> run [Employee.mk "Alice" "US" [] [] []]
              [Event.mk "Alice trip" (date 2024 3 5) (date 2024 3 8) "T" [];
               Event.mk "PTO Alice" (date 2024 3 4) (date 2024 3 6) "P" []]
              (date 2024 3 1) (date 2024 3 1 + 180)
              {[ "PTO Alice" := ["Alice"]; "Alice trip" := ["Alice"] ]}
  ∧ unmatched_event_names
      <$> run [Employee.mk "Alice" "US" [] [] []]
              [Event.mk "PTO Alice" (date 2024 3 4) (date 2024 3 6) "P" [];
               Event.mk "Alice trip" (date 2024 3 5) (date 2024 3 8) "T" []]
              (date 2024 3 1) (date 2024 3 1 + 180)
              {[ "PTO Alice" := ["Alice"]; "Alice trip" := ["Alice"] ]}
    = unmatched_event_names
        <$> run [Employee.mk "Alice" "US" [] [] []]
                [Event.mk "Alice trip" (date 2024 3 5) (date 2024 3 8) "T" [];
                 Event.mk "PTO Alice" (date 2024 3 4) (date 2024 3 6) "P" []]
                (date 2024 3 1) (date 2024 3 1 + 180)
                {[ "PTO Alice" := ["Alice"]; "Alice trip" := ["Alice"] ]}.
Proof.
  apply (event_order_irrelevant
    [Employee.mk "Alice" "US" [] [] []]
    [Event.mk "PTO Alice" (date 2024 3 4) (date 2024 3 6) "P" [];
     Event.mk "Alice trip" (date 2024 3 5) (date 2024 3 8) "T" []]
    [Event.mk "Alice trip" (date 2024 3 5) (date 2024 3 8) "T" [];
     Event.mk "PTO Alice" (date 2024 3 4) (date 2024 3 6) "P" []]
    (date 2024 3 1) (date 2024 3 1 + 180)
    {[ "PTO Alice" := ["Alice"]; "Alice trip" := ["Alice"] ]}).
  apply perm_swap.
Defined.

(** An event from 02-28 to 03-02 and the window of March 2024: the event is
    kept, and 03-01 is one of its days. *)
Lemma window_filter_days_witness :
  in_window (date 2024 3 1) (date 2024 3 1 + 30)
    (Event.mk "PTO Alice" (date 2024 2 28) (date 2024 3 2) "P" []) = true
  ↔ ∃ d, d ∈ event_dates (Event.mk "PTO Alice" (date 2024 2 28) (date 2024 3 2) "P" [])
         ∧ date 2024 3 1 <= d < date 2024 3 1 + 30.
Proof.
  apply (window_filter_days (date 2024 3 1) (date 2024 3 1 + 30)
           (Event.mk "PTO Alice" (date 2024 2 28) (date 2024 3 2) "P" [])).
  - vm_compute. reflexivity.
  - vm_compute. reflexivity.
Defined.

(** The first week of March 2024 has one business day, the second has
    five. *)
Lemma week_spans_at_most_five_witness :
  1 <= (3, 7).2 - (3, 7).1 + 1 <= 5.
Proof.
  apply (week_spans_at_most_five (date 2024 3 1) (date 2024 3 8) (3, 7)).
  vm_compute. apply list_elem_of_further, list_elem_of_here.
Defined.

(** Alice manages Bob; Alice is on PTO on 2024-03-04 and 2024-03-05.  The
    report of March 2024 colours the cell of Alice under Monday 03-04. *)
Lemma workbook_colours_witness :
  ∃ sh,
    main_workbook [Person "Alice" "US" [Person "Bob" "France" []]]
      [("PTO Alice", date 2024 3 4, date 2024 3 6)] [] (date 2024 3 15) 1
      {[ "PTO Alice" := ["Alice"] ]} = Some sh
    ∧ ((4, 3, "F28C28") ∈ fills sh
       ↔ ∃ (k i : nat) emp d,
           flatten_employees [Person "Alice" "US" [Person "Bob" "France" []]] !! k
           = Some emp
           ∧ weekdays (datetime.replace_day1 (date 2024 3 15))
               (datetime.replace_day1 (date 2024 3 15) + 1 * 30) !! i = Some d
           ∧ 4 = 4 + Z.of_nat k ∧ 3 = 2 + Z.of_nat i
           ∧ (("F28C28" = holiday_fill
               ∧ ∃ entry tag,
                   (feed_covers [("PTO Alice", date 2024 3 4, date 2024 3 6)]
                      (datetime.replace_day1 (date 2024 3 15))
                      (datetime.replace_day1 (date 2024 3 15) + 1 * 30) entry d
                    ∨ feed_covers []
                        (datetime.replace_day1 (date 2024 3 15))
                        (datetime.replace_day1 (date 2024 3 15) + 1 * 30) entry d)
                   ∧ tag ∈ default [] (({[ "PTO Alice" := ["Alice"] ]}
                                          : gmap string (list string)) !! entry.1.1)
                   ∧ in_scope tag (Employee.location emp))
              ∨ ("F28C28" = travel_fill
                 ∧ ¬ (∃ entry tag,
                        (feed_covers [("PTO Alice", date 2024 3 4, date 2024 3 6)]
                           (datetime.replace_day1 (date 2024 3 15))
                           (datetime.replace_day1 (date 2024 3 15) + 1 * 30) entry d
                         ∨ feed_covers []
                             (datetime.replace_day1 (date 2024 3 15))
                             (datetime.replace_day1 (date 2024 3 15) + 1 * 30) entry d)
                        ∧ tag ∈ default [] (({[ "PTO Alice" := ["Alice"] ]}
                                               : gmap string (list string)) !! entry.1.1)
                        ∧ in_scope tag (Employee.location emp))
                 ∧ ∃ entry,
                     feed_covers []
                       (datetime.replace_day1 (date 2024 3 15))
                       (datetime.replace_day1 (date 2024 3 15) + 1 * 30) entry d
                     ∧ Employee.name emp
                         ∈ default [] (({[ "PTO Alice" := ["Alice"] ]}
                                          : gmap string (list string)) !! entry.1.1)
                     ∧ ¬ holiday_tag (Employee.name emp))
              ∨ ("F28C28" = pto_fill
                 ∧ ¬ (∃ entry tag,
                        (feed_covers [("PTO Alice", date 2024 3 4, date 2024 3 6)]
                           (datetime.replace_day1 (date 2024 3 15))
                           (datetime.replace_day1 (date 2024 3 15) + 1 * 30) entry d
                         ∨ feed_covers []
                             (datetime.replace_day1 (date 2024 3 15))
                             (datetime.replace_day1 (date 2024 3 15) + 1 * 30) entry d)
                        ∧ tag ∈ default [] (({[ "PTO Alice" := ["Alice"] ]}
                                               : gmap string (list string)) !! entry.1.1)
                        ∧ in_scope tag (Employee.location emp))
                 ∧ ¬ (∃ entry,
                        feed_covers []
                          (datetime.replace_day1 (date 2024 3 15))
                          (datetime.replace_day1 (date 2024 3 15) + 1 * 30) entry d
                        ∧ Employee.name emp
                            ∈ default [] (({[ "PTO Alice" := ["Alice"] ]}
                                             : gmap string (list string)) !! entry.1.1)
                        ∧ ¬ holiday_tag (Employee.name emp))
                 ∧ ∃ entry,
                     feed_covers [("PTO Alice", date 2024 3 4, date 2024 3 6)]
                       (datetime.replace_day1 (date 2024 3 15))
                       (datetime.replace_day1 (date 2024 3 15) + 1 * 30) entry d
                     ∧ Employee.name emp
                         ∈ default [] (({[ "PTO Alice" := ["Alice"] ]}
                                          : gmap string (list string)) !! entry.1.1)
                     ∧ ¬ holiday_tag (Employee.name emp)))).
Proof.
  eexists. split; [reflexivity|].
  apply (workbook_colours [Person "Alice" "US" [Person "Bob" "France" []]]
           [("PTO Alice", date 2024 3 4, date 2024 3 6)] [] (date 2024 3 15) 1
           {[ "PTO Alice" := ["Alice"] ]} _ 4 3 "F28C28").
  - refine (bool_decide_unpack _ _); vm_compute; exact I.
  - reflexivity.
Defined.

(** Friday 2024-03-15 and a report of one month: the window starts on
    2024-03-01 and the worksheet has a column for the 15th. *)
Lemma window_of_main_witness :
  ∃ r ws,
    main [Person "Alice" "US" []] [("PTO Alice", date 2024 3 4, date 2024 3 6)] []
      (date 2024 3 15) 1 {[ "PTO Alice" := ["Alice"] ]} = Generated r ws
    ∧ datetime.year (datetime.replace_day1 (date 2024 3 15))
      = datetime.year (date 2024 3 15)
    ∧ datetime.month (datetime.replace_day1 (date 2024 3 15))
      = datetime.month (date 2024 3 15)
    ∧ datetime.day (datetime.replace_day1 (date 2024 3 15)) = 1
    ∧ datetime.replace_day1 (date 2024 3 15) <= date 2024 3 15
      <= datetime.replace_day1 (date 2024 3 15) + 1 * 30
    ∧ (datetime.weekday (date 2024 3 15) < 5 →
       ∃ i : nat,
         weekdays (datetime.replace_day1 (date 2024 3 15))
           (datetime.replace_day1 (date 2024 3 15) + 1 * 30) !! i
         = Some (date 2024 3 15)
         ∧ row_cells 3 ws !! S i
           = Some (2 + Z.of_nat i, strftime_a_d (date 2024 3 15))).
Proof.
  eexists. eexists. split; [reflexivity|].
  eapply (window_of_main [Person "Alice" "US" []]
            [("PTO Alice", date 2024 3 4, date 2024 3 6)] [] (date 2024 3 15) 1
            {[ "PTO Alice" := ["Alice"] ]}).
  - reflexivity.
  - vm_compute. intros H. discriminate H.
Defined.
